(** * Stake-allocation calculator (app.js): numbers, solvers, validator, recompute pass

  A shallow embedding of the allocation core of [src/app.js].  JavaScript
  numbers are IEEE-754 binary64 values; the transcription of the program is
  written once, over an interface of the number operations the program
  uses, and run on two implementations of that interface:

  - [float] (the kernel's primitive binary64 numbers): bit-exact to what
    the JavaScript engine computes;
  - [xnum]: exact rationals extended with the two infinities and NaN, i.e.
    the same program with every arithmetic step computed without binary
    rounding error, where bounds in cents can be proved. *)

From Stdlib Require Import ZArith QArith Qround Qabs Qreduction Floats Lia Lqa String.
From stdpp Require Import base option list.

(** ** The number operations the program uses *)

Class JsNumber (N : Type) : Type := {
n_zero : N;                 (* 0 *)
n_one : N;                  (* 1 *)
n_two : N;                  (* 2.0, the odds of a fresh row *)
n_hundred : N;              (* 100 *)
n_cent : N;                 (* 0.01 *)
n_tiny : N;                 (* 1e-12 *)
n_max_odds : N;             (* 100000 *)
n_epsilon : N;              (* Number.EPSILON = 2^-52 *)
n_infinity : N;             (* Infinity *)
n_nan : N;                  (* NaN *)
n_add : N -> N -> N;
n_sub : N -> N -> N;
n_mul : N -> N -> N;
n_div : N -> N -> N;
n_ltb : N -> N -> bool;     (* a < b *)
n_leb : N -> N -> bool;     (* a <= b *)
n_abs : N -> N;             (* Math.abs *)
n_max : N -> N -> N;        (* Math.max, two arguments *)
n_round : N -> N;           (* Math.round *)
n_isFinite : N -> bool;     (* Number.isFinite *)
n_isNaN : N -> bool;        (* Number.isNaN *)
n_truthy : N -> bool        (* ToBoolean of a number: false on 0, -0, NaN *)
}.

Declare Scope js_scope.
Delimit Scope js_scope with js.
Notation "x + y" := (n_add x y) : js_scope.
Notation "x - y" := (n_sub x y) : js_scope.
Notation "x * y" := (n_mul x y) : js_scope.
Notation "x / y" := (n_div x y) : js_scope.
Notation "x <? y" := (n_ltb x y) : js_scope.
Notation "x <=? y" := (n_leb x y) : js_scope.
(* a > b and a >= b compare the swapped operands (both are false on NaN). *)
Notation "x >? y" := (n_ltb y x) : js_scope.
Notation "x >=? y" := (n_leb y x) : js_scope.

(** ** Implementation 1: binary64 *)

Module F64.
Local Open Scope float_scope.

(** Math.round: the integer closest to [x], ties towards +Infinity; NaN,
    the infinities and integral values are returned unchanged; a zero
    result keeps the sign of a negative argument.  The value of a finite
    [x] is [(-1)^s * m * 2^e], so for [e < 0] the result is
    [floor ((2*(-1)^s*m + 2^(-e)) / 2^(1-e))], of magnitude at most 2^53. *)
Definition round (x : float) : float :=
  match Prim2SF x with
  | S754_finite s m e =>
      if (0 <=? e)%Z then x
      else
        let r := ((2 * cond_Zopp s (Z.pos m) + 2 ^ (- e)) / 2 ^ (1 - e))%Z in
        match r with
        | Z0 => if s then neg_zero else zero
        | Z.pos _ => of_uint63 (Uint63.of_Z r)
        | Z.neg _ => - of_uint63 (Uint63.of_Z (- r))
        end
  | _ => x
  end.

(** Math.max(a, b): NaN if either is NaN; +0 is larger than -0. *)
Definition max (a b : float) : float :=
  if is_nan a || is_nan b then nan
  else if a <? b then b
  else if b <? a then a
  else if get_sign a then b else a.

Definition truthy (x : float) : bool := negb (is_nan x || is_zero x).

#[export] Instance float_number : JsNumber float := {|
  n_zero := 0;
  n_one := 1;
  n_two := 2;
  n_hundred := 100;
  n_cent := 0x1.47ae147ae147bp-7;       (* the double written 0.01 *)
  n_tiny := 0x1.19799812dea11p-40;      (* the double written 1e-12 *)
  n_max_odds := 100000;
  n_epsilon := 0x1p-52;
  n_infinity := infinity;
  n_nan := nan;
  n_add := PrimFloat.add;
  n_sub := PrimFloat.sub;
  n_mul := PrimFloat.mul;
  n_div := PrimFloat.div;
  n_ltb := PrimFloat.ltb;
  n_leb := PrimFloat.leb;
  n_abs := PrimFloat.abs;
  n_max := max;
  n_round := round;
  n_isFinite := is_finite;
  n_isNaN := is_nan;
  n_truthy := truthy
|}.
End F64.

(** ** Implementation 2: exact rationals with Infinity, -Infinity and NaN *)

Inductive xnum : Type :=
| XFin (q : Q)
| XPInf
| XNInf
| XNaN.

Module Exact.
Local Open Scope Q_scope.

Definition Qltb (a b : Q) : bool := negb (Qle_bool b a).
Definition Qis0 (a : Q) : bool := Qeq_bool a 0.

Definition add (x y : xnum) : xnum :=
  match x, y with
  | XNaN, _ | _, XNaN => XNaN
  | XPInf, XNInf | XNInf, XPInf => XNaN
  | XPInf, _ | _, XPInf => XPInf
  | XNInf, _ | _, XNInf => XNInf
  | XFin a, XFin b => XFin (a + b)
  end.

Definition opp (x : xnum) : xnum :=
  match x with
  | XFin a => XFin (- a)
  | XPInf => XNInf
  | XNInf => XPInf
  | XNaN => XNaN
  end.

Definition sub (x y : xnum) : xnum := add x (opp y).

(** Sign of a value that is not NaN: [Some true] negative, [Some false]
    positive, [None] zero. *)
Definition sign (x : xnum) : option bool :=
  match x with
  | XFin a => if Qis0 a then None else Some (Qltb a 0)
  | XPInf => Some false
  | XNInf => Some true
  | XNaN => None
  end.

Definition signed_inf (neg : bool) : xnum := if neg then XNInf else XPInf.

Definition mul (x y : xnum) : xnum :=
  match x, y with
  | XNaN, _ | _, XNaN => XNaN
  | XFin a, XFin b => XFin (a * b)
  | _, _ =>
      match sign x, sign y with
      | Some sx, Some sy => signed_inf (xorb sx sy)
      | _, _ => XNaN                       (* 0 * Infinity *)
      end
  end.

(** Division; there is one zero, taken as +0.  The quotient is kept in
    lowest terms, so that a stake of zero cents is the number [0]. *)
Definition div (x y : xnum) : xnum :=
  match x, y with
  | XNaN, _ | _, XNaN => XNaN
  | XFin a, XFin b =>
      if Qis0 b then
        match sign x with
        | Some sx => signed_inf sx          (* a / 0 *)
        | None => XNaN                      (* 0 / 0 *)
        end
      else XFin (Qred (a / b))
  | XFin _, _ => XFin 0                     (* a / Infinity *)
  | _, XFin b => signed_inf (xorb (if sign x is Some true then true else false) (Qltb b 0))
  | _, _ => XNaN                            (* Infinity / Infinity *)
  end.

Definition ltb (x y : xnum) : bool :=
  match x, y with
  | XNaN, _ | _, XNaN => false
  | XFin a, XFin b => Qltb a b
  | XNInf, XNInf => false
  | XNInf, _ => true
  | _, XPInf => if x is XPInf then false else true
  | _, _ => false
  end.

Definition leb (x y : xnum) : bool :=
  match x, y with
  | XNaN, _ | _, XNaN => false
  | XFin a, XFin b => Qle_bool a b
  | XNInf, _ => true
  | _, XPInf => true
  | _, _ => false
  end.

Definition abs (x : xnum) : xnum :=
  match x with
  | XFin a => XFin (Qabs a)
  | XNaN => XNaN
  | _ => XPInf
  end.

Definition max (x y : xnum) : xnum :=
  match x, y with
  | XNaN, _ | _, XNaN => XNaN
  | _, _ => if ltb x y then y else x
  end.

(** Math.round: floor (x + 1/2). *)
Definition round (x : xnum) : xnum :=
  match x with
  | XFin a => XFin (inject_Z (Qfloor (a + (1 # 2))))
  | _ => x
  end.

Definition isFinite (x : xnum) : bool := if x is XFin _ then true else false.
Definition isNaN (x : xnum) : bool := if x is XNaN then true else false.
Definition truthy (x : xnum) : bool :=
  match x with
  | XFin a => negb (Qis0 a)
  | XNaN => false
  | _ => true
  end.

#[export] Instance exact_number : JsNumber xnum := {|
  n_zero := XFin 0;
  n_one := XFin 1;
  n_two := XFin 2;
  n_hundred := XFin 100;
  n_cent := XFin (1 # 100);
  n_tiny := XFin (1 # 1000000000000);
  n_max_odds := XFin 100000;
  n_epsilon := XFin (1 # 4503599627370496);      (* 2^-52 *)
  n_infinity := XPInf;
  n_nan := XNaN;
  n_add := add;
  n_sub := sub;
  n_mul := mul;
  n_div := div;
  n_ltb := ltb;
  n_leb := leb;
  n_abs := abs;
  n_max := max;
  n_round := round;
  n_isFinite := isFinite;
  n_isNaN := isNaN;
  n_truthy := truthy
|}.
End Exact.

(** ** The program *)

(** Messages the validator attaches to a row. *)
Definition MSG_ODDS : string := "Коэффициент должен быть числом > 1.".
Definition MSG_STAKE : string := "Ставка должна быть >= 0.".

(** [rows.findIndex(p)]: the first index whose element satisfies [p]
  ([None] stands for -1). *)
Fixpoint findIndex {A : Type} (p : A -> bool) (l : list A) : option nat :=
match l with
| [] => None
| x :: l' => if p x then Some 0 else S <$> findIndex p l'
end.

(** The element that has the keyboard focus ([document.activeElement]). *)
Inductive Focus : Type :=
| FocusElsewhere
| FocusBank
| FocusStake (i : nat).

Definition stakeFocused (f : Focus) (i : nat) : bool :=
match f with
| FocusStake j => Nat.eqb i j
| _ => false
end.

Definition bankFocused (f : Focus) : bool :=
match f with
| FocusBank => true
| _ => false
end.

Section Calculator.
Context {N : Type} `{JsNumber N}.
Local Open Scope js_scope.

(** One outcome: [{ odds, stake, R, manual }]. *)
Record Row : Type := mkRow {
  odds : N;
  stake : N;
  R : bool;
  manual : bool
}.

(** The global [state]. *)
Record State : Type := mkState {
  n : nat;
  fixedIndex : option nat;
  bank : N;
  rows : list Row
}.

(** What the pass reads from the page: the bank field (as [Number] reads
    it) and the focused element. *)
Record View : Type := mkView {
  bankInp : N;
  focus : Focus
}.

Record RowError : Type := mkRowError {
  err_odds : string;
  err_stake : string
}.

Definition isNum (x : N) : bool := n_isFinite x && negb (n_isNaN x).

Definition round2 (x : N) : N :=
  n_round ((x + n_epsilon) * n_hundred) / n_hundred.

(** [fmt2]: the two-decimal text of a number, or [None] for the dash. *)
Definition fmt2 (x : N) : option N :=
  if isNum x then Some (round2 x) else None.

(** [Number(text)] of a text produced by [fmt2]: the dash reads as NaN. *)
Definition readFmt2 (t : option N) : N :=
  match t with
  | Some v => v
  | None => n_nan
  end.

(** [Number(x) || 0] on a number. *)
Definition orZero (x : N) : N := if n_truthy x then x else n_zero.

Definition defaultRow : Row :=
  {| odds := n_two; stake := n_zero; R := true; manual := false |}.

Definition ensureRows (st : State) : State :=
  let rows1 := rows st ++ replicate (n st - length (rows st))%nat defaultRow in
  let rows2 := take (n st) rows1 in
  let fi :=
    match fixedIndex st with
    | Some j => if (n st <=? j)%nat then None else Some j
    | None => None
    end in
  {| n := n st; fixedIndex := fi; bank := bank st; rows := rows2 |}.

Definition sumStakes (rs : list Row) : N :=
  round2 (foldl (fun s r => s + (if isNum (stake r) then n_max n_zero (stake r) else n_zero))
                n_zero rs).

(** [o > 0 ? 1/o : Infinity] *)
Definition invTerm (o : N) : N :=
  if o >? n_zero then n_one / o else n_infinity.

Definition invSumOdds (os : list N) : N :=
  foldl (fun s o => s + invTerm o) n_zero os.

(** [odds.reduce((s,o,i) => s + (isR[i] ? (o>0 ? 1/o : Infinity) : 0), 0)] *)
Definition invSumR (os : list N) (isR : list bool) : N :=
  foldl (fun s '(o, r) => s + (if r : bool then invTerm o else n_zero)) n_zero (zip os isR).

(** [odds.map((o,i) => { if (o <= 0) return 0; return isR[i] ? (T+K)/o : T/o; })] *)
Definition rawStakes (T K : N) (os : list N) (isR : list bool) : list N :=
  (fun '(o, r) => if o <=? n_zero then n_zero
                  else if r : bool then (T + K) / o else T / o) <$> zip os isR.

Definition toCents (stakes : list N) : list N :=
  (fun s => round2 (n_max n_zero s)) <$> stakes.

Definition suggestFromBank (bank : N) (rs : list Row) : list N :=
  let os := odds <$> rs in
  let isR := R <$> rs in
  let A := invSumOdds os in
  let AR := invSumR os isR in
  let T := n_max n_zero (orZero bank) in
  let K := if AR >? n_zero then T * (n_one - A) / AR else n_zero in
  let stakes := toCents (rawStakes T K os isR) in
  let total := round2 (foldl n_add n_zero stakes) in
  let delta := round2 (T - total) in
  if n_abs delta >=? n_cent then
    match findIndex R rs with
    | Some k => alter (fun sk => round2 (n_max n_zero (sk + delta))) k stakes
    | None => stakes
    end
  else stakes.

Definition suggestFromFixedRow (fixedIdx : nat) (rs : list Row) : option (list N) :=
  match rs !! fixedIdx with
  | None => None
  | Some fr =>
      if negb (R fr) then None
      else
        let os := odds <$> rs in
        let isR := R <$> rs in
        let A := invSumOdds os in
        let AR := invSumR os isR in
        let sj := n_max n_zero (orZero (stake fr)) in
        let oj := default n_nan (os !! fixedIdx) in
        let denom := n_one - A + AR in
        let '(T, K) :=
          if n_abs denom <? n_tiny then (sj * oj, n_zero)
          else let T := (sj * oj * AR) / denom in (T, sj * oj - T) in
        let stakes := toCents (rawStakes T K os isR) in
        Some (<[fixedIdx := round2 sj]> stakes)
  end.

(** The per-row checks of [validate]. *)
Definition oddsBad (r : Row) : bool :=
  negb (isNum (odds r)) || (odds r <=? n_one) || (odds r >=? n_max_odds).

Definition stakeBad (r : Row) : bool :=
  negb (isNum (stake r)) || (stake r <? n_zero).

(** The [for] loop of [validate] from index [i], [k] rows to go; reading a
    missing row raises (a TypeError), which is [None]. *)
Fixpoint validateRows (rs : list Row) (i k : nat) (ok : bool) (errors : list RowError)
  : option (bool * list RowError) :=
  match k with
  | O => Some (ok, errors)
  | S k' =>
      r ← rs !! i;
      let errors1 :=
        if oddsBad r then alter (fun e => {| err_odds := MSG_ODDS; err_stake := err_stake e |}) i errors
        else errors in
      let ok1 := if oddsBad r then false else ok in
      let errors2 :=
        if stakeBad r then alter (fun e => {| err_odds := err_odds e; err_stake := MSG_STAKE |}) i errors1
        else errors1 in
      let ok2 := if stakeBad r then false else ok1 in
      validateRows rs (S i) k' ok2 errors2
  end.

Definition validate (st : State) : option (bool * list RowError) :=
  let errors := (fun _ => {| err_odds := EmptyString; err_stake := EmptyString |}) <$> rows st in
  let ok := true in
  let ok := if negb (isNum (bank st)) || (bank st <? n_zero) then false else ok in
  let rCount := length (filter (fun r => R r = true) (rows st)) in
  let ok := if (rCount <? 1)%nat then false else ok in
  '(ok, errors) ← validateRows (rows st) 0 (n st) ok errors;
  match fixedIndex st with
  | Some j =>
      fr ← rows st !! j;
      let ok := if negb (R fr) then false else ok in
      let ok := if negb (isNum (stake fr)) || (stake fr <=? n_zero) then false else ok in
      Some (ok, errors)
  | None => Some (ok, errors)
  end.

(** What one pass computes and paints. *)
Record Output : Type := mkOutput {
  out_ok : bool;
  out_errors : list RowError;
  out_total : N;
  out_payouts : list N;
  out_profits : list N;
  out_sInv : N;
  out_isArb : bool;
  out_roiRow : nat;
  out_roi : N
}.

(** The [forEach] that merges the suggested stakes into the rows: one page
    row per state row, in order. *)
Definition mergeRow (fi : option nat) (foc : Focus) (suggested : list N) (i : nat) (r : Row) : Row :=
  let focused := stakeFocused foc i in
  let fixed := bool_decide (fi = Some i) in
  match suggested !! i with
  | Some s =>
      if negb fixed && negb (manual r) && negb focused && isNum s
      then {| odds := odds r; stake := s; R := R r; manual := manual r |}
      else r
  | None => r
  end.

Definition suggest (st : State) : list N :=
  match fixedIndex st with
  | Some j =>
      match suggestFromFixedRow j (rows st) with
      | Some s => s
      | None => suggestFromBank (bank st) (rows st)
      end
  | None => suggestFromBank (bank st) (rows st)
  end.

(** [state.bank = Number(bankInp.value)] *)
Definition readBank (st : State) (v : View) : State :=
  {| n := n st; fixedIndex := fixedIndex st; bank := bankInp v; rows := rows st |}.

Definition mergeSuggested (st : State) (foc : Focus) (suggested : list N) : list Row :=
  imap (mergeRow (fixedIndex st) foc suggested) (rows st).

Definition recalcAndPaint (st0 : State) (v : View) : option (State * View * Output) :=
  let st := readBank (ensureRows st0) v in
  '(ok, errors) ← validate st;
  let suggested := suggest st in
  let rows' := mergeSuggested st (focus v) suggested in
  let os := odds <$> rows' in
  let total := sumStakes rows' in
  let bankText := if bankFocused (focus v) then bankInp v else readFmt2 (fmt2 total) in
  let bank' := if bankFocused (focus v) then bank st else total in
  let payouts := (fun r => round2 (n_max n_zero (stake r) * odds r)) <$> rows' in
  let profits := (fun p => round2 (p - total)) <$> payouts in
  let sInv := invSumOdds os in
  let isArb := sInv <? n_one in
  let roiRow :=
    match fixedIndex st with
    | Some j => j
    | None => default 0%nat (findIndex R rows')
    end in
  let win := default n_zero (payouts !! roiRow) in
  let roi := if total >? n_zero then (win - total) / total else n_zero in
  Some ({| n := n st; fixedIndex := fixedIndex st; bank := bank'; rows := rows' |},
        {| bankInp := bankText; focus := focus v |},
        {| out_ok := ok; out_errors := errors; out_total := total;
           out_payouts := payouts; out_profits := profits;
           out_sInv := sInv; out_isArb := isArb;
           out_roiRow := roiRow; out_roi := roi |}).
End Calculator.

Arguments Row N : clear implicits.
Arguments State N : clear implicits.
Arguments View N : clear implicits.
Arguments Output N : clear implicits.

(** ** What the proofs use of the numbers

    Facts about comparisons, NaN, Infinity and signs that hold of binary64
    and of the exact numbers alike; both are proved below. *)

Class JsNumberLaws (N : Type) `{JsNumber N} : Prop := {
law_nan_zero : n_isNaN n_zero = false;
law_nan_one : n_isNaN n_one = false;
law_nan_max_odds : n_isNaN n_max_odds = false;
(* every comparison with NaN is false *)
law_cmp_nan_l : forall x y, n_isNaN x = true -> n_ltb x y = false /\ n_leb x y = false;
law_cmp_nan_r : forall x y, n_isNaN y = true -> n_ltb x y = false /\ n_leb x y = false;
(* away from NaN the order is total *)
law_leb_ltb : forall x y, n_isNaN x = false -> n_isNaN y = false ->
  n_leb x y = negb (n_ltb y x);
(* Math.max(0, Number(x) || 0) is x for x > 0 *)
law_max_zero_pos : forall x, n_ltb n_zero x = true -> n_max n_zero (orZero x) = x;
(* Math.max(0, NaN) is NaN *)
law_max_zero_nan : forall x, n_isNaN x = true -> n_max n_zero x = x;
(* NaN propagates *)
law_add_nan_l : forall x y, n_isNaN x = true -> n_isNaN (n_add x y) = true;
law_add_nan_r : forall x y, n_isNaN y = true -> n_isNaN (n_add x y) = true;
law_div_nan_r : forall x y, n_isNaN y = true -> n_isNaN (n_div x y) = true;
(* values >= 0 *)
law_nonneg_zero : n_leb n_zero n_zero = true;
law_nonneg_infinity : n_leb n_zero n_infinity = true;
law_nonneg_add : forall x y, n_leb n_zero x = true -> n_leb n_zero y = true ->
  n_leb n_zero (n_add x y) = true;
law_nonneg_inv : forall o, n_ltb n_zero o = true -> n_leb n_zero (n_div n_one o) = true;
(* Infinity absorbs values >= 0 and is not below 1 *)
law_add_infinity_r : forall x, n_leb n_zero x = true -> n_add x n_infinity = n_infinity;
law_add_infinity_l : forall x, n_leb n_zero x = true -> n_add n_infinity x = n_infinity;
law_infinity_ltb_one : n_ltb n_infinity n_one = false;
(* zero *)
law_add_zero : n_add n_zero n_zero = n_zero;
law_ltb_zero_zero : n_ltb n_zero n_zero = false;
law_round2_zero : round2 (n_max n_zero n_zero) = n_zero;
(* a clamped value divided by positive odds needs no second clamp *)
law_max_zero_div : forall a o, n_ltb n_zero o = true ->
  n_max n_zero (n_div (n_max n_zero a) o) = n_div (n_max n_zero a) o;
(* a clamped value rounded to cents is NaN or >= 0 *)
law_round2_nonneg : forall y,
  n_isNaN (round2 (n_max n_zero y)) = true \/ n_leb n_zero (round2 (n_max n_zero y)) = true
}.

(** ** Shape of the state: what [ensureRows] establishes *)

Section Shape.
Context {N : Type} `{JsNumber N}.

(** A normalised state: [n] rows, and a fixed index, if any, below [n]. *)
Definition normal (st : State N) : Prop :=
  length (rows st) = n st /\ forall j, fixedIndex st = Some j -> (j < n st)%nat.

Lemma ensureRows_length (st : State N) : length (rows (ensureRows st)) = n st.
Proof.
  unfold ensureRows; simpl.
  rewrite length_take, length_app, length_replicate. lia.
Qed.

Lemma ensureRows_n (st : State N) : n (ensureRows st) = n st.
Proof. reflexivity. Qed.

Lemma ensureRows_bank (st : State N) : bank (ensureRows st) = bank st.
Proof. reflexivity. Qed.

Lemma ensureRows_fixed (st : State N) (j : nat) :
  fixedIndex (ensureRows st) = Some j <-> fixedIndex st = Some j /\ (j < n st)%nat.
Proof.
  unfold ensureRows; simpl.
  destruct (fixedIndex st) as [j'|];
    [|split; [discriminate|intros [Hj _]; discriminate]].
  destruct (Nat.leb_spec (n st) j'); split; intros Hj.
  - discriminate.
  - destruct Hj as [Hj ?]. injection Hj as ->. lia.
  - injection Hj as ->. auto.
  - destruct Hj as [Hj ?]. injection Hj as ->. reflexivity.
Qed.

Lemma ensureRows_normal (st : State N) : normal (ensureRows st).
Proof.
  split.
  - exact (ensureRows_length st).
  - intros j Hj. apply ensureRows_fixed in Hj. exact (proj2 Hj).
Qed.

Lemma ensureRows_lookup (st : State N) (i : nat) (r : Row N) :
  rows st !! i = Some r -> (i < n st)%nat -> rows (ensureRows st) !! i = Some r.
Proof.
  intros Hr Hi. unfold ensureRows; simpl.
  rewrite lookup_take_lt by lia.
  rewrite lookup_app_l by (eapply lookup_lt_Some; eauto).
  exact Hr.
Qed.

Lemma ensureRows_id (st : State N) : normal st -> ensureRows st = st.
Proof.
  intros [Hlen Hfix]. destruct st as [n0 fi b rs]; simpl in *.
  unfold ensureRows; simpl. f_equal.
  - destruct fi as [j|]; [|reflexivity].
    specialize (Hfix j eq_refl).
    destruct (Nat.leb_spec n0 j); [lia|reflexivity].
  - subst n0. rewrite Nat.sub_diag. simpl. rewrite app_nil_r.
    apply take_ge. lia.
Qed.
End Shape.

(** ** The validator, row by row *)

Section Validator.
Context {N : Type} `{JsNumber N}.
Local Open Scope js_scope.

Definition blankError : RowError := {| err_odds := EmptyString; err_stake := EmptyString |}.

(** The error detail the loop leaves on a row. *)
Definition rowError (r : Row N) : RowError :=
  {| err_odds := if oddsBad r then MSG_ODDS else EmptyString;
     err_stake := if stakeBad r then MSG_STAKE else EmptyString |}.

Definition rowGood (r : Row N) : bool := negb (oddsBad r) && negb (stakeBad r).

Lemma row_errors_step (r : Row N) (l1 l2 : list RowError) :
  (if stakeBad r
   then alter (fun e => {| err_odds := err_odds e; err_stake := MSG_STAKE |}) (length l1)
          (if oddsBad r
           then alter (fun e => {| err_odds := MSG_ODDS; err_stake := err_stake e |}) (length l1)
                  (l1 ++ blankError :: l2)
           else l1 ++ blankError :: l2)
   else if oddsBad r
        then alter (fun e => {| err_odds := MSG_ODDS; err_stake := err_stake e |}) (length l1)
               (l1 ++ blankError :: l2)
        else l1 ++ blankError :: l2)
  = l1 ++ rowError r :: l2.
Proof.
  unfold rowError.
  destruct (oddsBad r), (stakeBad r);
    repeat (rewrite alter_app_r_alt by lia; rewrite Nat.sub_diag; simpl);
    reflexivity.
Qed.

Lemma validateRows_spec (rs : list (Row N)) (k i : nat) (ok : bool) :
  (i + k = length rs)%nat ->
  validateRows rs i k ok ((rowError <$> take i rs) ++ replicate k blankError)
  = Some (ok && forallb rowGood (drop i rs), rowError <$> rs).
Proof.
  revert i ok. induction k as [|k IH]; intros i ok Hlen.
  - simpl. rewrite drop_ge by lia. rewrite take_ge by lia.
    rewrite app_nil_r, andb_true_r. reflexivity.
  - destruct (lookup_lt_is_Some_2 rs i) as [r Hr]; [lia|].
    assert (Hi : length (rowError <$> take i rs) = i).
    { rewrite length_fmap, length_take. lia. }
    pose proof (row_errors_step r (rowError <$> take i rs) (replicate k blankError)) as Hstep.
    rewrite Hi in Hstep.
    cbn [validateRows replicate]. rewrite Hr. cbn [mbind option_bind].
    rewrite Hstep.
    replace ((rowError <$> take i rs) ++ rowError r :: replicate k blankError)
      with ((rowError <$> take (S i) rs) ++ replicate k blankError)
      by (rewrite (take_S_r rs i r Hr), fmap_app; simpl; rewrite <- app_assoc; reflexivity).
    rewrite IH by lia.
    rewrite (drop_S rs r i Hr). cbn [forallb]. unfold rowGood at 2.
    destruct (oddsBad r), (stakeBad r), ok; reflexivity.
Qed.

(** The checks of [validate] outside the loop. *)
Definition bankGood (b : N) : bool := negb (negb (isNum b) || (b <? n_zero)).

Definition hasRecipient (rs : list (Row N)) : bool := existsb R rs.

Definition fixedGood (fi : option nat) (rs : list (Row N)) : bool :=
  match fi with
  | Some j =>
      match rs !! j with
      | Some fr => R fr && negb (negb (isNum (stake fr)) || (stake fr <=? n_zero))
      | None => false
      end
  | None => true
  end.

Lemma filter_R_count (rs : list (Row N)) :
  (length (filter (fun r => R r = true) rs) <? 1)%nat = negb (existsb R rs).
Proof.
  induction rs as [|r rs IH]; [reflexivity|].
  rewrite filter_cons. simpl.
  destruct (decide (R r = true)) as [Hr|Hr].
  - rewrite Hr. reflexivity.
  - apply not_true_is_false in Hr. rewrite Hr. exact IH.
Qed.

(** On a normalised state [validate] raises nothing, and its verdict is
    the conjunction of its checks. *)
Lemma validate_normal (st : State N) :
  normal st ->
  validate st
  = Some (bankGood (bank st) && hasRecipient (rows st)
          && forallb rowGood (rows st) && fixedGood (fixedIndex st) (rows st),
          rowError <$> rows st).
Proof.
  intros [Hlen Hfix]. unfold validate.
  rewrite filter_R_count.
  pose proof (validateRows_spec (rows st) (n st) 0) as Hloop.
  rewrite take_0, drop_0 in Hloop. simpl in Hloop.
  assert (Hblank : (fun _ : Row N => {| err_odds := EmptyString; err_stake := EmptyString |}) <$> rows st
                   = replicate (n st) blankError).
  { rewrite <- Hlen. clear. induction (rows st) as [|r l IH]; simpl; [reflexivity|].
    f_equal. exact IH. }
  rewrite Hblank, Hloop by lia. simpl.
  unfold bankGood, hasRecipient, fixedGood.
  destruct (fixedIndex st) as [j|].
  - destruct (lookup_lt_is_Some_2 (rows st) j) as [fr Hfr]; [rewrite Hlen; auto|].
    rewrite Hfr. simpl. f_equal. f_equal.
    destruct (negb (isNum (bank st)) || (bank st <? n_zero)), (existsb R (rows st)),
      (forallb rowGood (rows st)), (R fr),
      (negb (isNum (stake fr)) || (stake fr <=? n_zero)); reflexivity.
  - f_equal. f_equal.
    destruct (negb (isNum (bank st)) || (bank st <? n_zero)), (existsb R (rows st)),
      (forallb rowGood (rows st)); reflexivity.
Qed.
End Validator.

(** ** The recompute pass: merging the suggested stakes *)

Section Orchestrator.
Context {N : Type} `{JsNumber N}.
Local Open Scope js_scope.

Lemma readBank_normal (st : State N) (v : View N) : normal st -> normal (readBank st v).
Proof. intros Hn. exact Hn. Qed.

(** The metrics the pass derives from the merged rows. *)
Definition metrics (st : State N) (v : View N) (ok : bool) (errors : list RowError)
    (rows' : list (Row N)) : State N * View N * Output N :=
  let total := sumStakes rows' in
  let payouts := (fun r => round2 (n_max n_zero (stake r) * odds r)) <$> rows' in
  let roiRow := match fixedIndex st with
                | Some j => j
                | None => default 0%nat (findIndex R rows')
                end in
  ({| n := n st; fixedIndex := fixedIndex st;
      bank := if bankFocused (focus v) then bank st else total; rows := rows' |},
   {| bankInp := if bankFocused (focus v) then bankInp v else readFmt2 (fmt2 total);
      focus := focus v |},
   {| out_ok := ok; out_errors := errors; out_total := total;
      out_payouts := payouts;
      out_profits := (fun p => round2 (p - total)) <$> payouts;
      out_sInv := invSumOdds (odds <$> rows');
      out_isArb := invSumOdds (odds <$> rows') <? n_one;
      out_roiRow := roiRow;
      out_roi := if total >? n_zero
                 then (default n_zero (payouts !! roiRow) - total) / total
                 else n_zero |}).

(** The pass never raises: it validates a normalised state. *)
Lemma recalcAndPaint_eq (st0 : State N) (v : View N) :
  let st := readBank (ensureRows st0) v in
  recalcAndPaint st0 v
  = Some (metrics st v
            (bankGood (bank st) && hasRecipient (rows st)
             && forallb rowGood (rows st) && fixedGood (fixedIndex st) (rows st))
            (rowError <$> rows st)
            (mergeSuggested st (focus v) (suggest st))).
Proof.
  intros st. unfold recalcAndPaint. fold st.
  rewrite (validate_normal st) by (apply readBank_normal, ensureRows_normal).
  reflexivity.
Qed.

Lemma mergeSuggested_length (st : State N) (foc : Focus) (sg : list N) :
  length (mergeSuggested st foc sg) = length (rows st).
Proof. unfold mergeSuggested. apply length_imap. Qed.

Lemma mergeSuggested_lookup (st : State N) (foc : Focus) (sg : list N) (i : nat) :
  mergeSuggested st foc sg !! i = mergeRow (fixedIndex st) foc sg i <$> rows st !! i.
Proof. unfold mergeSuggested. apply list_lookup_imap. Qed.

(** A row the merge may not touch keeps all its fields. *)
Lemma mergeRow_frame (fi : option nat) (foc : Focus) (sg : list N) (i : nat) (r : Row N) :
  manual r = true \/ fi = Some i \/ foc = FocusStake i ->
  mergeRow fi foc sg i r = r.
Proof.
  intros Hkeep. unfold mergeRow.
  destruct (sg !! i) as [s|]; [|reflexivity].
  destruct Hkeep as [Hm|[Hf|Hf]].
  - rewrite Hm. rewrite andb_false_r. reflexivity.
  - rewrite (bool_decide_eq_true_2 _ Hf). reflexivity.
  - subst foc. simpl. rewrite Nat.eqb_refl. rewrite !andb_false_r. reflexivity.
Qed.

(** A row the merge changes was eligible, and only its stake changes, to
    the suggested one. *)
Lemma mergeRow_changed (fi : option nat) (foc : Focus) (sg : list N) (i : nat) (r : Row N) :
  mergeRow fi foc sg i r <> r ->
  manual r = false /\ fi <> Some i /\ foc <> FocusStake i /\
  exists s, sg !! i = Some s /\ isNum s = true /\
            mergeRow fi foc sg i r = {| odds := odds r; stake := s; R := R r; manual := manual r |}.
Proof.
  unfold mergeRow. intros Hne.
  destruct (sg !! i) as [s|]; [|congruence].
  destruct (bool_decide (fi = Some i)) eqn:Hfix; simpl in *; [congruence|].
  destruct (manual r) eqn:Hman; simpl in *; [congruence|].
  destruct (stakeFocused foc i) eqn:Hfoc; simpl in *; [congruence|].
  destruct (isNum s) eqn:Hs; [|congruence].
  apply bool_decide_eq_false in Hfix.
  split; [reflexivity|]. split; [exact Hfix|]. split.
  - intros ->. simpl in Hfoc. rewrite Nat.eqb_refl in Hfoc. discriminate.
  - exists s. auto.
Qed.
End Orchestrator.

(** ** The laws hold of binary64 *)

Module F64Facts.
Import F64.
Local Open Scope float_scope.

(** Sign of a specification float: [sf_pos] holds of +0, +Infinity and the
    positive finite values. *)
Definition sf_pos (x : spec_float) : bool :=
  match x with
  | S754_zero false | S754_infinity false | S754_finite false _ _ => true
  | _ => false
  end.

Definition sf_nan (x : spec_float) : bool :=
  match x with
  | S754_nan => true
  | _ => false
  end.

Lemma SFcompare_refl (x : spec_float) :
  SFcompare x x = if sf_nan x then None else Some Eq.
Proof.
  destruct x as [s|s| |s m e]; simpl; try reflexivity.
  - destruct s; reflexivity.
  - destruct s; rewrite Z.compare_refl, Pos.compare_cont_refl; reflexivity.
Qed.

Lemma is_nan_spec (x : float) : is_nan x = sf_nan (Prim2SF x).
Proof.
  unfold is_nan. rewrite FloatAxioms.eqb_spec. unfold SFeqb. rewrite SFcompare_refl.
  destruct (sf_nan (Prim2SF x)); reflexivity.
Qed.

Lemma Prim2SF_zero : Prim2SF 0 = S754_zero false.
Proof. reflexivity. Qed.

Lemma Prim2SF_infinity : Prim2SF infinity = S754_infinity false.
Proof. reflexivity. Qed.

Lemma leb_zero_spec (x : float) :
  (0 <=? x) = match Prim2SF x with
              | S754_zero _ | S754_infinity false | S754_finite false _ _ => true
              | _ => false
              end.
Proof.
  rewrite FloatAxioms.leb_spec, Prim2SF_zero. unfold SFleb.
  destruct (Prim2SF x) as [s|s| |s m e]; simpl; try reflexivity; destruct s; reflexivity.
Qed.

Lemma ltb_zero_spec (x : float) :
  (0 <? x) = match Prim2SF x with
             | S754_infinity false | S754_finite false _ _ => true
             | _ => false
             end.
Proof.
  rewrite FloatAxioms.ltb_spec, Prim2SF_zero. unfold SFltb.
  destruct (Prim2SF x) as [s|s| |s m e]; simpl; try reflexivity; destruct s; reflexivity.
Qed.

(** *** The sign of a rounded result *)

Definition has_sign (s : bool) (x : spec_float) : Prop :=
  match x with
  | S754_zero s' | S754_infinity s' | S754_finite s' _ _ => s' = s
  | S754_nan => False
  end.

Lemma shr_1_nonneg (mrs : shr_record) : (0 <= shr_m mrs)%Z -> (0 <= shr_m (shr_1 mrs))%Z.
Proof.
  destruct mrs as [m r s]. simpl.
  destruct m as [|p|p]; simpl; intros Hm; try lia; destruct p; simpl; lia.
Qed.

Lemma iter_shr_1_nonneg (p : positive) (mrs : shr_record) :
  (0 <= shr_m mrs)%Z -> (0 <= shr_m (SpecFloat.iter_pos shr_1 p mrs))%Z.
Proof.
  revert mrs. induction p as [p IH|p IH|]; intros mrs Hm; simpl.
  - apply IH, IH, shr_1_nonneg, Hm.
  - apply IH, IH, Hm.
  - apply shr_1_nonneg, Hm.
Qed.

Lemma shr_fexp_nonneg (m e : Z) (l : location) :
  (0 <= m)%Z -> (0 <= shr_m (fst (shr_fexp prec emax m e l)))%Z.
Proof.
  intros Hm. unfold shr_fexp, shr.
  assert (H0 : (0 <= shr_m (shr_record_of_loc m l))%Z).
  { destruct l as [|[]]; simpl; exact Hm. }
  destruct (fexp prec emax (Zdigits2 m + e) - e)%Z; simpl; auto.
  apply iter_shr_1_nonneg, H0.
Qed.

Lemma round_nearest_even_nonneg (m : Z) (l : location) :
  (0 <= m)%Z -> (0 <= round_nearest_even m l)%Z.
Proof.
  intros Hm. destruct l as [|[]]; simpl; try lia.
  destruct (Z.even m); lia.
Qed.

Lemma binary_round_aux_sign (s : bool) (m e : Z) (l : location) :
  (0 <= m)%Z -> has_sign s (binary_round_aux prec emax s m e l).
Proof.
  intros Hm. unfold binary_round_aux.
  pose proof (shr_fexp_nonneg m e l Hm) as H1.
  destruct (shr_fexp prec emax m e l) as [mrs' e']. simpl in H1.
  pose proof (shr_fexp_nonneg (round_nearest_even (shr_m mrs') (loc_of_shr_record mrs')) e' loc_Exact
                (round_nearest_even_nonneg _ _ H1)) as H2.
  destruct (shr_fexp prec emax _ e' loc_Exact) as [mrs'' e'']. simpl in H2.
  destruct (shr_m mrs'') as [|p|p]; simpl; try reflexivity; try lia.
  destruct (e'' <=? emax - prec)%Z; reflexivity.
Qed.

Lemma binary_normalize_sign (m e : Z) :
  (0 <= m)%Z -> has_sign false (binary_normalize prec emax m e false).
Proof.
  intros Hm. destruct m as [|p|p]; simpl; [reflexivity| |lia].
  unfold binary_round.
  destruct (shl_align p e _) as [mz ez].
  apply binary_round_aux_sign. lia.
Qed.

Lemma has_sign_pos (x : spec_float) : has_sign false x -> sf_pos x = true.
Proof. destruct x as [[]|[]| |[] m e]; simpl; intros Hx; congruence || tauto. Qed.

Lemma sf_pos_has_sign (x : spec_float) : sf_pos x = true -> has_sign false x.
Proof. destruct x as [[]|[]| |[] m e]; simpl; intros Hx; congruence. Qed.

Lemma SFadd_pos (x y : spec_float) :
  sf_pos x = true -> sf_pos y = true -> sf_pos (SFadd prec emax x y) = true.
Proof.
  intros Hx Hy.
  destruct x as [[]|[]| |[] mx ex]; try discriminate Hx;
    destruct y as [[]|[]| |[] my ey]; try discriminate Hy; try reflexivity.
  unfold SFadd. cbv beta iota zeta.
  apply has_sign_pos, binary_normalize_sign.
  unfold cond_Zopp. lia.
Qed.

Lemma SFmul_pos (x y : spec_float) :
  sf_pos x = true -> sf_pos y = true ->
  sf_pos (SFmul prec emax x y) = true \/ sf_nan (SFmul prec emax x y) = true.
Proof.
  intros Hx Hy.
  destruct x as [[]|[]| |[] mx ex]; try discriminate Hx;
    destruct y as [[]|[]| |[] my ey]; try discriminate Hy; auto.
  left. unfold SFmul. cbv beta iota zeta.
  apply has_sign_pos, binary_round_aux_sign. lia.
Qed.

Lemma SFdiv_core_nonneg (m1 m2 : positive) (e1 e2 : Z) :
  (0 <= fst (fst (SFdiv_core_binary prec emax (Z.pos m1) e1 (Z.pos m2) e2)))%Z.
Proof.
  unfold SFdiv_core_binary.
  set (s := (_ - _ - _)%Z).
  set (m' := match s with Z.pos _ => _ | Z0 => _ | Z.neg _ => _ end).
  assert (Hm' : (0 <= m')%Z).
  { subst m'. destruct s; try lia. apply Z.shiftl_nonneg. lia. }
  pose proof (Z_div_mod m' (Z.pos m2) ltac:(lia)) as Hdm.
  destruct (Z.div_eucl m' (Z.pos m2)) as [q r]. simpl.
  destruct Hdm as [Heq Hr]. nia.
Qed.

Lemma SFdiv_pos (x y : spec_float) :
  sf_pos x = true -> sf_pos y = true ->
  sf_pos (SFdiv prec emax x y) = true \/ sf_nan (SFdiv prec emax x y) = true.
Proof.
  intros Hx Hy.
  destruct x as [[]|[]| |[] mx ex]; try discriminate Hx;
    destruct y as [[]|[]| |[] my ey]; try discriminate Hy; auto.
  left. unfold SFdiv. cbv beta iota zeta.
  pose proof (SFdiv_core_nonneg mx my ex ey) as Hq.
  destruct (SFdiv_core_binary prec emax (Z.pos mx) ex (Z.pos my) ey) as [[mz ez] lz].
  simpl in Hq. apply has_sign_pos, binary_round_aux_sign, Hq.
Qed.

(** Zero of either sign, +Infinity and the positive finite values: [x >= 0]. *)
Definition sf_nn (x : spec_float) : bool :=
  match x with
  | S754_zero _ | S754_infinity false | S754_finite false _ _ => true
  | _ => false
  end.

Lemma leb_zero_nn (x : float) : (0 <=? x) = sf_nn (Prim2SF x).
Proof. rewrite leb_zero_spec. reflexivity. Qed.

Lemma sf_pos_nn (x : spec_float) : sf_pos x = true -> sf_nn x = true.
Proof. destruct x as [[]|[]| |[] m e]; simpl; congruence. Qed.

Lemma SFadd_nn (x y : spec_float) :
  sf_nn x = true -> sf_nn y = true -> sf_nn (SFadd prec emax x y) = true.
Proof.
  intros Hx Hy.
  destruct x as [sx|[]| |[] mx ex]; try discriminate Hx;
    destruct y as [sy|[]| |[] my ey]; try discriminate Hy; try reflexivity.
  - destruct sx, sy; reflexivity.
  - apply sf_pos_nn. apply (SFadd_pos (S754_finite false mx ex) (S754_finite false my ey)); reflexivity.
Qed.

Lemma SFcompare_antisym (x y : spec_float) :
  SFcompare y x = CompOpp <$> SFcompare x y.
Proof.
  destruct x as [sx|sx| |sx mx ex], y as [sy|sy| |sy my ey]; simpl;
    try reflexivity; try (destruct sx; reflexivity); try (destruct sy; reflexivity);
    try (destruct sx, sy; reflexivity).
  pose proof (Pos.compare_cont_antisym mx my Eq) as Ha. simpl in Ha.
  destruct sx, sy; try reflexivity; f_equal;
    rewrite (Z.compare_antisym ex ey);
    destruct (ex ?= ey)%Z; simpl; try reflexivity;
    rewrite <- Ha; destruct (Pos.compare_cont Eq mx my); reflexivity.
Qed.

Lemma is_zero_spec (x : float) :
  is_zero x = match Prim2SF x with S754_zero _ => true | _ => false end.
Proof.
  unfold is_zero. rewrite FloatAxioms.eqb_spec. change (Prim2SF zero) with (S754_zero false).
  unfold SFeqb.
  destruct (Prim2SF x) as [s|s| |s m e]; simpl; try reflexivity; destruct s; reflexivity.
Qed.

(** [Math.max(0, y)] is NaN or has the sign bit clear. *)
Definition pos_or_nan (x : float) : Prop :=
  sf_pos (Prim2SF x) = true \/ sf_nan (Prim2SF x) = true.

Lemma max_zero_cases (y : float) :
  (sf_nan (Prim2SF y) = true /\ max 0 y = nan) \/
  (sf_nan (Prim2SF y) = false /\ (0 <? y) = true /\ max 0 y = y) \/
  (sf_nan (Prim2SF y) = false /\ (0 <? y) = false /\ max 0 y = 0).
Proof.
  unfold max. rewrite (is_nan_spec y). change (is_nan 0) with false. simpl.
  destruct (sf_nan (Prim2SF y)) eqn:Hn; [left; auto|].
  destruct (0 <? y) eqn:Hlt; [right; left; auto|].
  right; right. repeat split.
  destruct (y <? 0); reflexivity.
Qed.

Lemma max_zero_pos_or_nan (y : float) : pos_or_nan (max 0 y).
Proof.
  destruct (max_zero_cases y) as [[_ ->]|[(_ & Hlt & ->)|(_ & _ & ->)]].
  - right. reflexivity.
  - left. rewrite ltb_zero_spec in Hlt.
    destruct (Prim2SF y) as [[]|[]| |[] m e]; simpl in *; congruence.
  - left. reflexivity.
Qed.

Lemma add_pos_or_nan (x y : float) :
  pos_or_nan x -> sf_pos (Prim2SF y) = true -> pos_or_nan (x + y).
Proof.
  intros [Hx|Hx] Hy; unfold pos_or_nan; rewrite add_spec.
  - left. apply SFadd_pos; assumption.
  - right. destruct (Prim2SF x); try discriminate Hx. reflexivity.
Qed.

Lemma mul_pos_or_nan (x y : float) :
  pos_or_nan x -> sf_pos (Prim2SF y) = true -> pos_or_nan (x * y).
Proof.
  intros [Hx|Hx] Hy; unfold pos_or_nan; rewrite mul_spec.
  - apply SFmul_pos; assumption.
  - right. destruct (Prim2SF x); try discriminate Hx. reflexivity.
Qed.

Lemma div_pos_or_nan (x y : float) :
  pos_or_nan x -> sf_pos (Prim2SF y) = true -> pos_or_nan (x / y).
Proof.
  intros [Hx|Hx] Hy; unfold pos_or_nan; rewrite div_spec.
  - apply SFdiv_pos; assumption.
  - right. destruct (Prim2SF x); try discriminate Hx. reflexivity.
Qed.

Lemma round_pos_or_nan (x : float) : pos_or_nan x -> pos_or_nan (round x).
Proof.
  intros Hx. unfold round.
  destruct (Prim2SF x) as [s|s| |s m e] eqn:Hsf; try exact Hx.
  destruct (0 <=? e)%Z eqn:He; [exact Hx|]. apply Z.leb_gt in He.
  destruct Hx as [Hx|Hx]; rewrite Hsf in Hx; [|discriminate Hx].
  destruct s; [discriminate Hx|]. simpl cond_Zopp.
  assert (Hr : (0 <= (2 * Z.pos m + 2 ^ (- e)) / 2 ^ (1 - e))%Z).
  { apply Z.div_pos.
    - pose proof (Z.pow_nonneg 2 (- e)). lia.
    - apply Z.pow_pos_nonneg; lia. }
  destruct ((2 * Z.pos m + 2 ^ (- e)) / 2 ^ (1 - e))%Z as [|p|p]; [left; reflexivity| |lia].
  left. rewrite of_uint63_spec. apply has_sign_pos, binary_normalize_sign.
  apply Uint63.to_Z_bounded.
Qed.

Lemma round2_pos_or_nan (y : float) : pos_or_nan (round2 (max 0 y)).
Proof.
  unfold round2. cbn [n_round n_add n_mul n_div n_epsilon n_hundred float_number].
  apply div_pos_or_nan; [|reflexivity].
  apply round_pos_or_nan, mul_pos_or_nan; [|reflexivity].
  apply add_pos_or_nan; [|reflexivity].
  apply max_zero_pos_or_nan.
Qed.

#[export] Instance float_laws : JsNumberLaws float.
Proof.
  split; cbn [n_zero n_one n_max_odds n_infinity n_add n_div n_ltb n_leb n_isNaN n_max float_number].
  - reflexivity.
  - reflexivity.
  - reflexivity.
  - intros x y Hx. rewrite is_nan_spec in Hx.
    rewrite FloatAxioms.ltb_spec, FloatAxioms.leb_spec. unfold SFltb, SFleb.
    destruct (Prim2SF x); try discriminate Hx. auto.
  - intros x y Hy. rewrite is_nan_spec in Hy.
    rewrite FloatAxioms.ltb_spec, FloatAxioms.leb_spec. unfold SFltb, SFleb.
    destruct (Prim2SF y); try discriminate Hy. destruct (Prim2SF x); auto.
  - intros x y Hx Hy. rewrite is_nan_spec in Hx, Hy.
    rewrite FloatAxioms.ltb_spec, FloatAxioms.leb_spec. unfold SFltb, SFleb.
    rewrite (SFcompare_antisym (Prim2SF y) (Prim2SF x)).
    destruct (Prim2SF x) as [sx|sx| |sx mx ex]; try discriminate Hx;
      destruct (Prim2SF y) as [sy|sy| |sy my ey]; try discriminate Hy;
      destruct (SFcompare _ _) as [[]|] eqn:Hc; try reflexivity;
      simpl in Hc; discriminate Hc.
  - intros x Hx.
    assert (Ht : truthy x = true).
    { unfold truthy. rewrite is_nan_spec, is_zero_spec. rewrite ltb_zero_spec in Hx.
      destruct (Prim2SF x) as [[]|[]| |[] m e]; simpl in *; congruence. }
    unfold orZero. cbn [n_truthy float_number]. rewrite Ht.
    destruct (max_zero_cases x) as [[Hn _]|[(_ & _ & ->)|(_ & Hlt & _)]].
    + rewrite ltb_zero_spec in Hx. destruct (Prim2SF x); simpl in *; congruence.
    + reflexivity.
    + congruence.
  - intros x Hx. unfold max. change (is_nan 0) with false. rewrite Hx. simpl.
    apply Prim2SF_inj. rewrite is_nan_spec in Hx.
    destruct (Prim2SF x); try discriminate Hx. reflexivity.
  - intros x y Hx. rewrite is_nan_spec in *. rewrite add_spec.
    destruct (Prim2SF x); try discriminate Hx. reflexivity.
  - intros x y Hy. rewrite is_nan_spec in *. rewrite add_spec.
    destruct (Prim2SF y); try discriminate Hy. destruct (Prim2SF x); reflexivity.
  - intros x y Hy. rewrite is_nan_spec in *. rewrite div_spec.
    destruct (Prim2SF y); try discriminate Hy. destruct (Prim2SF x); reflexivity.
  - reflexivity.
  - reflexivity.
  - intros x y. rewrite !leb_zero_nn, add_spec. apply SFadd_nn.
  - intros o Ho. rewrite ltb_zero_spec in Ho. rewrite leb_zero_nn, div_spec.
    apply sf_pos_nn.
    destruct (SFdiv_pos (Prim2SF 1) (Prim2SF o)) as [Hp|Hn]; [reflexivity| |exact Hp|].
    + destruct (Prim2SF o) as [[]|[]| |[] m e]; simpl in *; congruence.
    + exfalso. change (Prim2SF 1) with (S754_finite false 4503599627370496 (-52)) in Hn.
      destruct (Prim2SF o) as [[]|[]| |[] m e]; try discriminate Ho; try discriminate Hn.
      pose proof (SFdiv_pos (S754_finite false 4503599627370496 (-52)) (S754_finite false m e)
                    eq_refl eq_refl) as Hd.
      unfold SFdiv in Hn, Hd. cbv beta iota zeta in Hn, Hd.
      pose proof (SFdiv_core_nonneg 4503599627370496 m (-52) e) as Hq.
      destruct (SFdiv_core_binary _ _ _ _ _ _) as [[mz ez] lz]. simpl in Hq.
      pose proof (binary_round_aux_sign (xorb false false) mz ez lz Hq) as Hs.
      destruct (binary_round_aux _ _ _ _ _ _); simpl in *; try discriminate Hn. exact Hs.
  - intros x Hx. rewrite leb_zero_nn in Hx. apply Prim2SF_inj. rewrite add_spec.
    change (Prim2SF infinity) with (S754_infinity false).
    destruct (Prim2SF x) as [s|[]| |[] m e]; try discriminate Hx; reflexivity.
  - intros x Hx. rewrite leb_zero_nn in Hx. apply Prim2SF_inj. rewrite add_spec.
    change (Prim2SF infinity) with (S754_infinity false).
    destruct (Prim2SF x) as [s|[]| |[] m e]; try discriminate Hx; reflexivity.
  - reflexivity.
  - reflexivity.
  - reflexivity.
  - vm_compute. reflexivity.
  - intros a o Ho.
    assert (Hq : pos_or_nan (max 0 a / o)).
    { apply div_pos_or_nan; [apply max_zero_pos_or_nan|].
      rewrite ltb_zero_spec in Ho.
      destruct (Prim2SF o) as [[]|[]| |[] m e]; simpl in *; congruence. }
    destruct (max_zero_cases (max 0 a / o)) as [[Hn ->]|[(_ & _ & ->)|(Hn & Hlt & ->)]].
    + apply Prim2SF_inj. destruct (Prim2SF (max 0 a / o)); try discriminate Hn. reflexivity.
    + reflexivity.
    + apply Prim2SF_inj. rewrite ltb_zero_spec in Hlt.
      change (Prim2SF 0) with (S754_zero false).
      destruct Hq as [Hq|Hq]; [|congruence].
      destruct (Prim2SF (max 0 a / o)) as [[]|[]| |[] m e]; simpl in *; congruence.
  - intros y. destruct (round2_pos_or_nan y) as [Hp|Hn].
    + right. change ((0 <=? round2 (max 0 y)) = true). rewrite leb_zero_nn.
      apply sf_pos_nn, Hp.
    + left. change (is_nan (round2 (max 0 y)) = true). rewrite is_nan_spec. exact Hn.
Qed.
End F64Facts.

(** ** The laws hold of the exact numbers *)

Module ExactFacts.
Import Exact.
Local Open Scope Q_scope.

Lemma Qltb_true (a b : Q) : Qltb a b = true <-> a < b.
Proof.
  unfold Qltb. rewrite negb_true_iff. split.
  - intros Hle. apply Qnot_le_lt. intros Hba. apply Qle_bool_iff in Hba. congruence.
  - intros Hlt. destruct (Qle_bool b a) eqn:Hle; [|reflexivity].
    apply Qle_bool_iff in Hle. lra.
Qed.

Lemma Qltb_false (a b : Q) : Qltb a b = false <-> b <= a.
Proof.
  unfold Qltb. rewrite negb_false_iff. apply Qle_bool_iff.
Qed.

Lemma Qis0_true (a : Q) : Qis0 a = true <-> a == 0.
Proof. apply Qeq_bool_iff. Qed.

Lemma Qis0_false (a : Q) : Qis0 a = false <-> ~ a == 0.
Proof.
  unfold Qis0. split.
  - intros Hf He. apply Qeq_bool_iff in He. congruence.
  - intros Hne. destruct (Qeq_bool a 0) eqn:He; [|reflexivity].
    apply Qeq_bool_iff in He. contradiction.
Qed.

Lemma Qred_zero (q : Q) : q == 0 -> Qred q = 0.
Proof. intros Hq. apply (Qred_complete q 0 Hq). Qed.

(** The cent rounding of a rational, as the exact numbers compute it. *)
Definition qround2 (q : Q) : Q :=
  Qred (inject_Z (Qfloor ((q + (1 # 4503599627370496)) * 100 + (1 # 2))) / 100).

Definition qmax0 (q : Q) : Q := if Qltb 0 q then q else 0.

Lemma round2_fin (q : Q) : round2 (XFin q) = XFin (qround2 q).
Proof. reflexivity. Qed.

Lemma max0_fin (q : Q) : n_max n_zero (XFin q) = XFin (qmax0 q).
Proof. unfold qmax0. simpl. unfold max. simpl. destruct (Qltb 0 q); reflexivity. Qed.

Lemma qmax0_nonneg (q : Q) : 0 <= qmax0 q.
Proof.
  unfold qmax0. destruct (Qltb 0 q) eqn:Hq; [|lra].
  apply Qltb_true in Hq. lra.
Qed.

Lemma qround2_nonneg (q : Q) : 0 <= q -> 0 <= qround2 q.
Proof.
  intros Hq. unfold qround2. rewrite Qred_correct.
  assert (Hf : (0 <= Qfloor ((q + (1 # 4503599627370496)) * 100 + (1 # 2)))%Z).
  { change 0%Z with (Qfloor 0). apply Qfloor_resp_le. lra. }
  apply Qle_shift_div_l; [lra|].
  rewrite Qmult_0_l. change 0 with (inject_Z 0). rewrite <- Zle_Qle. exact Hf.
Qed.

#[export] Instance exact_laws : JsNumberLaws xnum.
Proof.
  split; cbn [n_zero n_one n_max_odds n_infinity n_add n_div n_ltb n_leb n_isNaN n_max exact_number].
  - reflexivity.
  - reflexivity.
  - reflexivity.
  - intros [a| | |] y Hx; try discriminate Hx. destruct y; auto.
  - intros x [b| | |] Hy; try discriminate Hy. destruct x; auto.
  - intros [a| | |] [b| | |] Hx Hy; try discriminate Hx; try discriminate Hy; try reflexivity.
    simpl. unfold Qltb. rewrite negb_involutive. reflexivity.
  - intros [a| | |] Hx; try discriminate Hx; [|reflexivity].
    simpl in Hx. apply Qltb_true in Hx.
    unfold orZero. cbn [n_truthy exact_number truthy].
    assert (Hz : Qis0 a = false) by (apply Qis0_false; lra).
    rewrite Hz. simpl. unfold max. simpl.
    assert (Hlt : Qltb 0 a = true) by (apply Qltb_true; lra).
    rewrite Hlt. reflexivity.
  - intros [a| | |] Hx; try discriminate Hx. reflexivity.
  - intros [a| | |] y Hx; try discriminate Hx. reflexivity.
  - intros x [b| | |] Hy; try discriminate Hy. destruct x; reflexivity.
  - intros x [b| | |] Hy; try discriminate Hy. destruct x; reflexivity.
  - reflexivity.
  - reflexivity.
  - intros [a| | |] [b| | |] Hx Hy; try discriminate Hx; try discriminate Hy; try reflexivity.
    simpl in *. apply Qle_bool_iff in Hx, Hy. apply Qle_bool_iff. lra.
  - intros [a| | |] Ho; try discriminate Ho; [|reflexivity].
    simpl in Ho. apply Qltb_true in Ho. simpl.
    assert (Hz : Qis0 a = false) by (apply Qis0_false; lra).
    rewrite Hz. simpl. apply Qle_bool_iff. rewrite Qred_correct.
    apply Qle_shift_div_l; lra.
  - intros [a| | |] Hx; try discriminate Hx; reflexivity.
  - intros [a| | |] Hx; try discriminate Hx; reflexivity.
  - reflexivity.
  - reflexivity.
  - reflexivity.
  - reflexivity.
  - intros a o Ho.
    assert (Hmax : exists c, (n_max n_zero a = XFin c /\ 0 <= c) \/ n_max n_zero a = XPInf
                             \/ n_max n_zero a = XNaN).
    { destruct a as [q| | |].
      - exists (qmax0 q). left. split; [apply max0_fin|apply qmax0_nonneg].
      - exists 0. right; left. reflexivity.
      - exists 0. left. split; [reflexivity|lra].
      - exists 0. right; right. reflexivity. }
    cbn [n_max n_zero exact_number] in Hmax.
    destruct Hmax as [c [[-> Hc]|[->| ->]]].
    + destruct o as [p| | |]; try discriminate Ho; [|reflexivity].
      simpl in Ho. apply Qltb_true in Ho. simpl.
      assert (Hz : Qis0 p = false) by (apply Qis0_false; lra).
      rewrite Hz. unfold max. simpl.
      destruct (Qltb 0 (Qred (c / p))) eqn:Hlt; [reflexivity|].
      apply Qltb_false in Hlt. f_equal. symmetry.
      rewrite <- (Qred_zero (c / p)); [reflexivity|].
      rewrite Qred_correct in Hlt.
      assert (0 <= c / p) by (apply Qle_shift_div_l; lra). lra.
    + destruct o as [p| | |]; try discriminate Ho; [|reflexivity].
      simpl in Ho. apply Qltb_true in Ho. simpl.
      assert (Hlt : Qltb p 0 = false) by (apply Qltb_false; lra).
      rewrite Hlt. reflexivity.
    + destruct o; reflexivity.
  - intros [q| | |].
    + right. rewrite max0_fin, round2_fin. simpl. apply Qle_bool_iff.
      apply qround2_nonneg, qmax0_nonneg.
    + right. reflexivity.
    + right. reflexivity.
    + left. reflexivity.
Qed.
End ExactFacts.

(** ** The claims settled on the structure of the pass alone *)


(** C9: the pass returns, and a row that is manual, or the fixed row, or the
    row whose stake field has the focus, comes out of it unchanged; a row that
    does change was none of these, and only its stake changed, to the stake
    suggested for it. *)
Theorem C9_manual_fixed_focused_rows_keep_their_stake
  {N : Type} `{JsNumber N} (st0 : State N) (v : View N) :
  exists st1 v1 out,
    recalcAndPaint st0 v = Some (st1, v1, out) /\
    (forall i r, rows st0 !! i = Some r -> (i < n st0)%nat ->
       manual r = true \/ fixedIndex st0 = Some i \/ focus v = FocusStake i ->
       rows st1 !! i = Some r) /\
    (forall i r r', rows (ensureRows st0) !! i = Some r -> rows st1 !! i = Some r' ->
       r' <> r ->
       manual r = false /\ fixedIndex (ensureRows st0) <> Some i /\ focus v <> FocusStake i /\
       exists s, suggest (readBank (ensureRows st0) v) !! i = Some s /\
                 r' = mkRow (odds r) s (R r) (manual r)).
Proof.
  pose proof (recalcAndPaint_eq st0 v) as Heq. cbv zeta in Heq.
  unfold metrics in Heq.
  eexists _, _, _. split; [exact Heq|]. cbn [rows]. split.
  - intros i r Hr Hi Hkeep.
    rewrite mergeSuggested_lookup.
    change (rows (readBank (ensureRows st0) v)) with (rows (ensureRows st0)).
    rewrite (ensureRows_lookup st0 i r Hr Hi). simpl. f_equal.
    apply mergeRow_frame.
    destruct Hkeep as [Hm|[Hf|Hf]]; [auto| |auto].
    right; left. apply ensureRows_fixed. auto.
  - intros i r r' Hr Hr' Hne.
    rewrite mergeSuggested_lookup in Hr'.
    change (rows (readBank (ensureRows st0) v)) with (rows (ensureRows st0)) in Hr'.
    rewrite Hr in Hr'. simpl in Hr'.
    injection Hr' as <-.
    destruct (mergeRow_changed _ _ _ _ _ Hne) as (Hm & Hf & Hfoc & s & Hs & _ & Heq').
    repeat split; auto. exists s. auto.
Qed.

(** ** The solvers, row by row *)

Section Solvers.
Context {N : Type} `{JsNumber N}.
Local Open Scope js_scope.

(** The stake in cents the shared formulas give a row, for totals [T], [K]. *)
Definition rowStake (T K : N) (r : Row N) : N :=
  round2 (n_max n_zero
            (if odds r <=? n_zero then n_zero
             else if R r then (T + K) / odds r else T / odds r)).

Lemma zip_odds_R (rs : list (Row N)) :
  zip (odds <$> rs) (R <$> rs) = (fun r => (odds r, R r)) <$> rs.
Proof. induction rs as [|r rs IH]; simpl; [reflexivity|]. f_equal. exact IH. Qed.

Lemma toCents_rawStakes (T K : N) (rs : list (Row N)) :
  toCents (rawStakes T K (odds <$> rs) (R <$> rs)) = rowStake T K <$> rs.
Proof.
  unfold toCents, rawStakes. rewrite zip_odds_R, <- !list_fmap_compose.
  apply list_fmap_ext. intros i r _. reflexivity.
Qed.

(** The bankroll solver's [T] and [K]. *)
Definition bankT (b : N) : N := n_max n_zero (orZero b).

Definition bankK (b : N) (rs : list (Row N)) : N :=
  if invSumR (odds <$> rs) (R <$> rs) >? n_zero
  then bankT b * (n_one - invSumOdds (odds <$> rs)) / invSumR (odds <$> rs) (R <$> rs)
  else n_zero.

(** The residual correction of the bankroll solver. *)
Definition bankDelta (b : N) (stakes : list N) : N :=
  round2 (bankT b - round2 (foldl n_add n_zero stakes)).

Lemma suggestFromBank_eq (b : N) (rs : list (Row N)) :
  suggestFromBank b rs =
  let stakes := rowStake (bankT b) (bankK b rs) <$> rs in
  if n_abs (bankDelta b stakes) >=? n_cent then
    match findIndex R rs with
    | Some k => alter (fun sk => round2 (n_max n_zero (sk + bankDelta b stakes))) k stakes
    | None => stakes
    end
  else stakes.
Proof.
  unfold suggestFromBank. cbv zeta. rewrite toCents_rawStakes. reflexivity.
Qed.

(** The fixed-row solver's [T] and [K]. *)
Definition fixedTK (fr : Row N) (j : nat) (rs : list (Row N)) : N * N :=
  let os := odds <$> rs in
  let A := invSumOdds os in
  let AR := invSumR os (R <$> rs) in
  let sj := n_max n_zero (orZero (stake fr)) in
  let oj := default n_nan (os !! j) in
  let denom := n_one - A + AR in
  if n_abs denom <? n_tiny then (sj * oj, n_zero)
  else (sj * oj * AR / denom, sj * oj - sj * oj * AR / denom).

Lemma suggestFromFixedRow_eq (j : nat) (rs : list (Row N)) (fr : Row N) :
  rs !! j = Some fr -> R fr = true ->
  suggestFromFixedRow j rs =
  Some (<[j := round2 (n_max n_zero (orZero (stake fr)))]>
          (rowStake (fixedTK fr j rs).1 (fixedTK fr j rs).2 <$> rs)).
Proof.
  intros Hfr HR. unfold suggestFromFixedRow, fixedTK. rewrite Hfr, HR. cbv zeta. simpl negb.
  cbv iota.
  destruct (n_abs _ <? n_tiny); simpl; rewrite toCents_rawStakes; reflexivity.
Qed.

Lemma suggestFromBank_length (b : N) (rs : list (Row N)) :
  length (suggestFromBank b rs) = length rs.
Proof.
  rewrite suggestFromBank_eq. cbv zeta.
  destruct (n_abs _ >=? n_cent); [destruct (findIndex R rs)|];
    rewrite ?length_alter, length_fmap; reflexivity.
Qed.

Lemma suggestFromFixedRow_length (j : nat) (rs : list (Row N)) (s : list N) :
  suggestFromFixedRow j rs = Some s -> length s = length rs.
Proof.
  unfold suggestFromFixedRow. destruct (rs !! j) as [fr|]; [|discriminate].
  destruct (R fr); [|discriminate]. simpl.
  destruct (n_abs _ <? n_tiny); intros Hs; injection Hs as <-;
    rewrite length_insert; unfold toCents, rawStakes;
    rewrite !length_fmap, length_zip, !length_fmap; lia.
Qed.

Lemma findIndex_Some {A : Type} (p : A -> bool) (l : list A) (k : nat) :
  findIndex p l = Some k ->
  exists x, l !! k = Some x /\ p x = true /\ forall i y, (i < k)%nat -> l !! i = Some y -> p y = false.
Proof.
  revert k. induction l as [|x l IH]; intros k; simpl; [discriminate|].
  destruct (p x) eqn:Hpx.
  - intros [= <-]. exists x. repeat split; auto. intros i y Hi. lia.
  - destruct (findIndex p l) as [k'|]; [|discriminate]. simpl. intros [= <-].
    destruct (IH k' eq_refl) as (x' & Hx' & Hp' & Hbefore).
    exists x'. repeat split; auto.
    intros [|i] y Hi Hy; simpl in Hy.
    + injection Hy as <-. exact Hpx.
    + apply (Hbefore i y); [lia|exact Hy].
Qed.

Lemma findIndex_None {A : Type} (p : A -> bool) (l : list A) :
  findIndex p l = None <-> existsb p l = false.
Proof.
  induction l as [|x l IH]; simpl; [tauto|].
  destruct (p x); simpl; [split; discriminate|].
  rewrite <- IH. destruct (findIndex p l); simpl; split; congruence.
Qed.

(** The merge keeps the odds and the flags of every row. *)
Lemma mergeSuggested_odds (st : State N) (foc : Focus) (sg : list N) :
  odds <$> mergeSuggested st foc sg = odds <$> rows st.
Proof.
  apply list_eq. intros i. rewrite !list_lookup_fmap, mergeSuggested_lookup.
  destruct (rows st !! i) as [r|]; [|reflexivity]. simpl. f_equal.
  unfold mergeRow. destruct (sg !! i); [|reflexivity].
  destruct (_ && _); reflexivity.
Qed.

Lemma mergeSuggested_R (st : State N) (foc : Focus) (sg : list N) :
  R <$> mergeSuggested st foc sg = R <$> rows st.
Proof.
  apply list_eq. intros i. rewrite !list_lookup_fmap, mergeSuggested_lookup.
  destruct (rows st !! i) as [r|]; [|reflexivity]. simpl. f_equal.
  unfold mergeRow. destruct (sg !! i); [|reflexivity].
  destruct (_ && _); reflexivity.
Qed.
End Solvers.

(** ** The validator in the words of its rules *)

Section Rules.
Context {N : Type} `{JsNumberLaws N}.
Local Open Scope js_scope.

(** The rules as the specification words them. *)
Definition oddsInRange (o : N) : bool := isNum o && (n_one <? o) && (o <? n_max_odds).
Definition stakeInRange (s : N) : bool := isNum s && (n_zero <=? s).
Definition bankInRange (b : N) : bool := isNum b && (n_zero <=? b).
Definition fixedStakeInRange (s : N) : bool := isNum s && (n_zero <? s).

Lemma isNum_not_nan (x : N) : isNum x = true -> n_isNaN x = false.
Proof. unfold isNum. intros Hx. apply andb_true_iff in Hx. apply negb_true_iff, Hx. Qed.

Lemma oddsBad_rule (r : Row N) : negb (oddsBad r) = oddsInRange (odds r).
Proof.
  unfold oddsBad, oddsInRange.
  destruct (isNum (odds r)) eqn:Hn; simpl; [|reflexivity].
  apply isNum_not_nan in Hn.
  rewrite (law_leb_ltb (odds r) n_one Hn law_nan_one).
  rewrite (law_leb_ltb n_max_odds (odds r) law_nan_max_odds Hn).
  rewrite negb_orb, !negb_involutive. reflexivity.
Qed.

Lemma stakeBad_rule (r : Row N) : negb (stakeBad r) = stakeInRange (stake r).
Proof.
  unfold stakeBad, stakeInRange.
  destruct (isNum (stake r)) eqn:Hn; simpl; [|reflexivity].
  apply isNum_not_nan in Hn.
  rewrite (law_leb_ltb n_zero (stake r) law_nan_zero Hn). reflexivity.
Qed.

Lemma bankGood_rule (b : N) : bankGood b = bankInRange b.
Proof.
  unfold bankGood, bankInRange.
  destruct (isNum b) eqn:Hn; simpl; [|reflexivity].
  apply isNum_not_nan in Hn.
  rewrite (law_leb_ltb n_zero b law_nan_zero Hn). reflexivity.
Qed.

Lemma fixedGood_rule (fi : option nat) (rs : list (Row N)) :
  fixedGood fi rs = true <->
  forall j, fi = Some j ->
    exists fr, rs !! j = Some fr /\ R fr = true /\ fixedStakeInRange (stake fr) = true.
Proof.
  unfold fixedGood, fixedStakeInRange. destruct fi as [j|].
  - destruct (rs !! j) as [fr|] eqn:Hfr.
    + assert (Hst : negb (negb (isNum (stake fr)) || (stake fr <=? n_zero))
                    = isNum (stake fr) && (n_zero <? stake fr)).
      { destruct (isNum (stake fr)) eqn:Hn; simpl; [|reflexivity].
        apply isNum_not_nan in Hn.
        rewrite (law_leb_ltb (stake fr) n_zero Hn law_nan_zero).
        apply negb_involutive. }
      rewrite Hst. split.
      * intros Hg j' [= <-]. apply andb_true_iff in Hg. exists fr.
        split; [exact Hfr|exact Hg].
      * intros Hall. destruct (Hall j eq_refl) as (fr' & Hfr' & HR & Hs).
        rewrite Hfr in Hfr'. injection Hfr' as <-.
        rewrite HR, Hs. reflexivity.
    + split; [discriminate|]. intros Hall.
      destruct (Hall j eq_refl) as (fr' & Hfr' & _). congruence.
  - split; [|reflexivity]. intros _ j Hj. discriminate.
Qed.

(** The verdict and the error detail the rules ask for. *)
Definition verdict (st : State N) (ok : bool) (errors : list RowError) : Prop :=
  (ok = true <->
     bankInRange (bank st) = true /\
     (exists r, r ∈ rows st /\ R r = true) /\
     (forall r, r ∈ rows st ->
        oddsInRange (odds r) = true /\ stakeInRange (stake r) = true) /\
     (forall j, fixedIndex st = Some j ->
        exists fr, rows st !! j = Some fr /\ R fr = true /\
                   fixedStakeInRange (stake fr) = true)) /\
  length errors = length (rows st) /\
  (forall i r, rows st !! i = Some r ->
     exists e, errors !! i = Some e /\
       (err_odds e = EmptyString <-> oddsInRange (odds r) = true) /\
       (err_stake e = EmptyString <-> stakeInRange (stake r) = true)).

(** C6: on a normalised state the validator returns a verdict [ok] that is
    the conjunction of its rules (bankroll finite and at least 0; some
    recipient row; every row's odds finite and strictly between 1 and 100000,
    and stake finite and at least 0; a designated fixed row is a recipient
    with a finite stake above 0), and every row gets its own error detail:
    the odds message exactly when its odds break the rule, the stake message
    exactly when its stake does. *)
Theorem C6_validator_verdict_is_the_conjunction_of_its_rules (st : State N) :
  normal st -> exists ok errors, validate st = Some (ok, errors) /\ verdict st ok errors.
Proof.
  intros Hn. eexists _, _. split; [apply (validate_normal st Hn)|].
  unfold verdict. split; [|split].
  - rewrite !andb_true_iff, bankGood_rule, fixedGood_rule.
    unfold hasRecipient. rewrite existsb_exists, forallb_forall.
    split.
    + intros [[[Hb (r & Hin & HR)] Hrows] Hfix].
      split; [exact Hb|]. split; [|split; [|exact Hfix]].
      * exists r. split; [apply list_elem_of_In, Hin|exact HR].
      * intros r' Hin'. apply list_elem_of_In, Hrows in Hin'.
        unfold rowGood in Hin'. apply andb_true_iff in Hin'.
        rewrite <- oddsBad_rule, <- stakeBad_rule. exact Hin'.
    + intros (Hb & (r & Hin & HR) & Hrows & Hfix).
      split; [split; [split; [exact Hb|]|]|exact Hfix].
      * exists r. split; [apply list_elem_of_In, Hin|exact HR].
      * intros r' Hin'. apply list_elem_of_In, Hrows in Hin'.
        unfold rowGood. rewrite oddsBad_rule, stakeBad_rule.
        apply andb_true_iff. exact Hin'.
  - apply length_fmap.
  - intros i r Hr. exists (rowError r). rewrite list_lookup_fmap, Hr. split; [reflexivity|].
    unfold rowError. simpl. rewrite <- oddsBad_rule, <- stakeBad_rule.
    destruct (oddsBad r), (stakeBad r); simpl; unfold MSG_ODDS, MSG_STAKE;
      split; split; intros Hx; try reflexivity; discriminate Hx.
Qed.

(** A valid position in fixed-row mode: the fixed row is a recipient with a
    positive stake, which the solver's clamp leaves as it is. *)
Lemma fixed_stake_kept (fr : Row N) :
  fixedStakeInRange (stake fr) = true -> n_max n_zero (orZero (stake fr)) = stake fr.
Proof.
  unfold fixedStakeInRange. intros Hs. apply andb_true_iff in Hs.
  apply law_max_zero_pos, Hs.
Qed.

(** C3: in a valid position with fixed row [j], the fixed-row solver returns
    a stake vector whose entry [j] is the fixed row's input stake rounded to
    cents, whatever the other entries round to, and the pass leaves the fixed
    row as it was. *)
Theorem C3_fixed_row_stake_is_its_input_rounded_to_cents
  (st : State N) (v : View N) (j : nat) (errs : list RowError) :
  normal st -> fixedIndex st = Some j ->
  validate (readBank st v) = Some (true, errs) ->
  exists fr stakes st1 v1 out,
    rows st !! j = Some fr /\
    suggestFromFixedRow j (rows st) = Some stakes /\
    stakes !! j = Some (round2 (stake fr)) /\
    recalcAndPaint st v = Some (st1, v1, out) /\
    out_ok out = true /\
    rows st1 !! j = Some fr.
Proof.
  intros Hn Hj Hval.
  pose proof (readBank_normal st v Hn) as Hn'.
  rewrite (validate_normal _ Hn') in Hval.
  injection Hval as Hok _. pose proof Hok as Hok'.
  apply andb_true_iff in Hok. destruct Hok as [_ Hfix].
  cbn [fixedIndex rows readBank] in Hfix.
  destruct (proj1 (fixedGood_rule _ _) Hfix j Hj) as (fr & Hfr & HR & Hs).
  pose proof (recalcAndPaint_eq st v) as Heq. cbv zeta in Heq.
  rewrite (ensureRows_id st Hn) in Heq. unfold metrics in Heq.
  eexists fr, _, _, _, _.
  split; [exact Hfr|]. split; [apply (suggestFromFixedRow_eq j _ fr Hfr HR)|].
  split; [|split; [exact Heq|split]].
  - rewrite list_lookup_insert_eq.
    + rewrite (fixed_stake_kept fr Hs). reflexivity.
    + rewrite length_fmap. eapply lookup_lt_Some, Hfr.
  - exact Hok'.
  - cbn [rows]. rewrite mergeSuggested_lookup. cbn [rows readBank fixedIndex].
    rewrite Hfr. simpl. f_equal. apply mergeRow_frame. right; left. exact Hj.
Qed.
End Rules.

(** ** The arbitrage indicator *)

Section Arbitrage.
Context {N : Type} `{JsNumberLaws N}.
Local Open Scope js_scope.

(** The inverse-odds sum in the specification's words: a row with
    [odds <= 0] contributes +Infinity, any other row [1/odds]. *)
Definition specInvTerm (o : N) : N :=
  if o <=? n_zero then n_infinity else n_one / o.

Definition specInvSum (os : list N) : N :=
  foldl (fun s o => s + specInvTerm o) n_zero os.

Lemma nonneg_not_nan (x : N) : (n_zero <=? x) = true -> n_isNaN x = false.
Proof.
  intros Hx. destruct (n_isNaN x) eqn:Hn; [|reflexivity].
  destruct (law_cmp_nan_r n_zero x Hn) as [_ Hle]. congruence.
Qed.

Lemma invTerm_nonneg (o : N) : (n_zero <=? invTerm o) = true.
Proof.
  unfold invTerm. destruct (o >? n_zero) eqn:Ho.
  - apply law_nonneg_inv, Ho.
  - apply law_nonneg_infinity.
Qed.

Lemma invTerm_spec (o : N) : n_isNaN o = false -> specInvTerm o = invTerm o.
Proof.
  intros Ho. unfold specInvTerm, invTerm.
  rewrite (law_leb_ltb o n_zero Ho law_nan_zero).
  destruct (o >? n_zero); reflexivity.
Qed.

Lemma invTerm_nan (o : N) :
  n_isNaN o = true -> invTerm o = n_infinity /\ n_isNaN (specInvTerm o) = true.
Proof.
  intros Ho. unfold specInvTerm, invTerm.
  destruct (law_cmp_nan_r n_zero o Ho) as [-> _].
  destruct (law_cmp_nan_l o n_zero Ho) as [_ ->].
  split; [reflexivity|]. apply law_div_nan_r, Ho.
Qed.

(** The two sums agree until the specification's sum meets a NaN; from
    there the program's sum is +Infinity. *)
Lemma invSum_simulation (os : list N) (a a' : N) :
  (a = a' /\ (n_zero <=? a) = true) \/ (a = n_infinity /\ n_isNaN a' = true) ->
  let c := foldl (fun s o => s + invTerm o) a os in
  let s := foldl (fun s o => s + specInvTerm o) a' os in
  (c = s /\ (n_zero <=? c) = true) \/ (c = n_infinity /\ n_isNaN s = true).
Proof.
  revert a a'. induction os as [|o os IH]; intros a a' Hinv; simpl; [exact Hinv|].
  apply IH.
  destruct (n_isNaN o) eqn:Ho.
  - destruct (invTerm_nan o Ho) as [-> Hs]. right.
    destruct Hinv as [[<- Ha]|[-> Ha]].
    + split; [apply law_add_infinity_r, Ha|apply law_add_nan_r, Hs].
    + split; [apply law_add_infinity_l, law_nonneg_infinity|apply law_add_nan_r, Hs].
  - rewrite (invTerm_spec o Ho).
    destruct Hinv as [[<- Ha]|[-> Ha]].
    + left. split; [reflexivity|]. apply law_nonneg_add; [exact Ha|apply invTerm_nonneg].
    + right. split; [apply law_add_infinity_l, invTerm_nonneg|apply law_add_nan_l, Ha].
Qed.

Lemma isArb_spec (os : list N) : (invSumOdds os <? n_one) = (specInvSum os <? n_one).
Proof.
  destruct (invSum_simulation os n_zero n_zero) as [[Heq _]|[Hinf Hnan]].
  - left. split; [reflexivity|apply law_nonneg_zero].
  - unfold invSumOdds, specInvSum. rewrite Heq. reflexivity.
  - unfold invSumOdds, specInvSum. rewrite Hinf, law_infinity_ltb_one.
    destruct (law_cmp_nan_l _ n_one Hnan) as [-> _]. reflexivity.
Qed.

Lemma invSum_nonneg (os : list N) (a : N) :
  (n_zero <=? a) = true -> (n_zero <=? foldl (fun s o => s + invTerm o) a os) = true.
Proof.
  revert a. induction os as [|o os IH]; intros a Ha; simpl; [exact Ha|].
  apply IH, law_nonneg_add; [exact Ha|apply invTerm_nonneg].
Qed.

Lemma invSum_infinity (os : list N) :
  foldl (fun s o => s + invTerm o) n_infinity os = n_infinity.
Proof.
  induction os as [|o os IH]; simpl; [reflexivity|].
  rewrite (law_add_infinity_l _ (invTerm_nonneg o)). exact IH.
Qed.

Lemma invSumOdds_nonpositive (os : list N) (o : N) :
  o ∈ os -> (o <=? n_zero) = true -> invSumOdds os = n_infinity.
Proof.
  intros Hin Ho. apply list_elem_of_split in Hin. destruct Hin as (l1 & l2 & ->).
  unfold invSumOdds. rewrite foldl_app. simpl.
  assert (Hterm : invTerm o = n_infinity).
  { unfold invTerm. destruct (n_isNaN o) eqn:Hn.
    - destruct (law_cmp_nan_l o n_zero Hn) as [_ Hle]. congruence.
    - rewrite (law_leb_ltb o n_zero Hn law_nan_zero) in Ho.
      apply negb_true_iff in Ho. rewrite Ho. reflexivity. }
  rewrite Hterm, law_add_infinity_r by (apply invSum_nonneg, law_nonneg_zero).
  apply invSum_infinity.
Qed.

End Arbitrage.

(** ** Totality and shape of the solvers' output *)

Section SolverShape.
Context {N : Type} `{JsNumberLaws N}.
Local Open Scope js_scope.

(** A stake as the solvers produce it: a clamped value rounded to cents. *)
Definition clampedCents (x : N) : Prop := exists y, x = round2 (n_max n_zero y).

(** Two decimals and no sign: [Math.round(m) / 100] for some [m], and NaN
    or at least 0. *)
Definition centsOrNaN (x : N) : Prop :=
  (exists m, x = n_round m / n_hundred) /\
  (n_isNaN x = true \/ (n_zero <=? x) = true).

Lemma clampedCents_centsOrNaN (x : N) : clampedCents x -> centsOrNaN x.
Proof.
  intros [y ->]. split.
  - eexists. reflexivity.
  - apply law_round2_nonneg.
Qed.

Lemma rowStake_clamped (T K : N) (r : Row N) : clampedCents (rowStake T K r).
Proof. eexists. reflexivity. Qed.

Lemma suggestFromBank_clamped (b : N) (rs : list (Row N)) (x : N) :
  x ∈ suggestFromBank b rs -> clampedCents x.
Proof.
  rewrite suggestFromBank_eq. cbv zeta.
  assert (Hbase : forall y, y ∈ rowStake (bankT b) (bankK b rs) <$> rs -> clampedCents y).
  { intros y Hy. apply list_elem_of_fmap in Hy. destruct Hy as (r & -> & _).
    apply rowStake_clamped. }
  destruct (n_abs _ >=? n_cent); [|apply Hbase].
  destruct (findIndex R rs) as [k|]; [|apply Hbase].
  intros Hx. apply list_elem_of_lookup in Hx. destruct Hx as [i Hi].
  destruct (decide (k = i)) as [->|Hne].
  - rewrite list_lookup_alter_eq in Hi.
    destruct (_ !! i) as [sk|]; [|discriminate]. simpl in Hi. injection Hi as <-.
    eexists. reflexivity.
  - rewrite list_lookup_alter_ne in Hi by exact Hne.
    apply Hbase. eapply list_elem_of_lookup_2, Hi.
Qed.

Lemma suggestFromFixedRow_clamped (j : nat) (rs : list (Row N)) (s : list N) (x : N) :
  suggestFromFixedRow j rs = Some s -> x ∈ s -> clampedCents x.
Proof.
  intros Hs Hx.
  destruct (rs !! j) as [fr|] eqn:Hfr; [|unfold suggestFromFixedRow in Hs; rewrite Hfr in Hs; discriminate].
  destruct (R fr) eqn:HR; [|unfold suggestFromFixedRow in Hs; rewrite Hfr, HR in Hs; discriminate].
  rewrite (suggestFromFixedRow_eq j rs fr Hfr HR) in Hs. injection Hs as <-.
  apply list_elem_of_lookup in Hx. destruct Hx as [i Hi].
  destruct (decide (j = i)) as [->|Hne].
  - rewrite list_lookup_insert_eq in Hi.
    + injection Hi as <-. eexists. reflexivity.
    + rewrite length_fmap. eapply lookup_lt_Some, Hfr.
  - rewrite list_lookup_insert_ne in Hi by exact Hne.
    rewrite list_lookup_fmap in Hi. destruct (rs !! i) as [r|]; [|discriminate].
    injection Hi as <-. apply rowStake_clamped.
Qed.

(** A row with odds at most 0 gets 0 from the shared formulas. *)
Lemma rowStake_nonpositive_odds (T K : N) (r : Row N) :
  (odds r <=? n_zero) = true -> rowStake T K r = n_zero.
Proof. intros Ho. unfold rowStake. rewrite Ho. apply law_round2_zero. Qed.

(** Without recipients the recipients' inverse-odds sum is 0. *)
Lemma invSumR_no_recipient (rs : list (Row N)) :
  existsb R rs = false -> invSumR (odds <$> rs) (R <$> rs) = n_zero.
Proof.
  unfold invSumR. rewrite zip_odds_R.
  induction rs as [|r rs IH]; simpl; [reflexivity|].
  intros Hno. apply orb_false_iff in Hno. destruct Hno as [Hr Hno].
  rewrite Hr, law_add_zero. apply IH, Hno.
Qed.

Lemma bankT_div_clamped (b o : N) :
  (o <=? n_zero) = false -> n_max n_zero (bankT b / o) = bankT b / o.
Proof.
  intros Ho. destruct (n_isNaN o) eqn:Hn.
  - apply law_max_zero_nan, law_div_nan_r, Hn.
  - apply law_max_zero_div.
    rewrite (law_leb_ltb o n_zero Hn law_nan_zero) in Ho.
    apply negb_false_iff, Ho.
Qed.

(** C10 (as amended): both solvers return on every input, a vector with one
    entry per row (the fixed-row solver possibly no vector at all); without
    recipients the bankroll solver has K = 0 and its stakes are 0 for a row
    with odds at most 0 and round2(T/odds) for any other row; a row with
    odds at most 0 gets stake 0 from the bankroll solver unless it is the
    first recipient, and from the fixed-row solver unless it is the fixed
    row; every entry has the form Math.round(m)/100 and is NaN or at least
    0. *)
Theorem C10_solvers_total (b : N) (rs : list (Row N)) :
  length (suggestFromBank b rs) = length rs /\
  (forall j, suggestFromFixedRow j rs = None \/
             exists s, suggestFromFixedRow j rs = Some s /\ length s = length rs) /\
  (existsb R rs = false ->
     bankK b rs = n_zero /\
     suggestFromBank b rs =
       (fun r => if odds r <=? n_zero then n_zero
                 else round2 (n_max n_zero (orZero b) / odds r)) <$> rs) /\
  (forall i r, rs !! i = Some r -> (odds r <=? n_zero) = true ->
     findIndex R rs <> Some i -> suggestFromBank b rs !! i = Some n_zero) /\
  (forall j s i r, suggestFromFixedRow j rs = Some s -> rs !! i = Some r ->
     (odds r <=? n_zero) = true -> i <> j -> s !! i = Some n_zero) /\
  (forall x, x ∈ suggestFromBank b rs -> centsOrNaN x) /\
  (forall j s x, suggestFromFixedRow j rs = Some s -> x ∈ s -> centsOrNaN x).
Proof.
  split; [apply suggestFromBank_length|].
  split.
  { intros j. destruct (suggestFromFixedRow j rs) as [s|] eqn:Hs; [right|left; reflexivity].
    exists s. split; [reflexivity|]. eapply suggestFromFixedRow_length, Hs. }
  split.
  { intros Hno.
    assert (HK : bankK b rs = n_zero).
    { unfold bankK. rewrite (invSumR_no_recipient rs Hno), law_ltb_zero_zero. reflexivity. }
    split; [exact HK|].
    rewrite suggestFromBank_eq. cbv zeta.
    rewrite (proj2 (findIndex_None R rs) Hno).
    assert (Hst : rowStake (bankT b) (bankK b rs) <$> rs
                  = (fun r => if odds r <=? n_zero then n_zero
                              else round2 (n_max n_zero (orZero b) / odds r)) <$> rs).
    { apply list_fmap_ext. intros i r Hr.
      assert (HR : R r = false).
      { destruct (R r) eqn:HR; [|reflexivity].
        assert (Hex : existsb R rs = true).
        { apply existsb_exists. exists r. split; [|exact HR].
          apply list_elem_of_In. eapply list_elem_of_lookup_2, Hr. }
        congruence. }
      unfold rowStake. rewrite HR.
      destruct (odds r <=? n_zero) eqn:Ho; [apply law_round2_zero|].
      rewrite (bankT_div_clamped b (odds r) Ho). reflexivity. }
    rewrite Hst. destruct (n_abs _ >=? n_cent); reflexivity. }
  split.
  { intros i r Hr Ho Hk.
    rewrite suggestFromBank_eq. cbv zeta.
    assert (Hbase : (rowStake (bankT b) (bankK b rs) <$> rs) !! i = Some n_zero).
    { rewrite list_lookup_fmap, Hr. simpl. f_equal. apply rowStake_nonpositive_odds, Ho. }
    destruct (n_abs _ >=? n_cent); [|exact Hbase].
    destruct (findIndex R rs) as [k|]; [|exact Hbase].
    rewrite list_lookup_alter_ne by congruence. exact Hbase. }
  split.
  { intros j s i r Hs Hr Ho Hij.
    destruct (rs !! j) as [fr|] eqn:Hfr;
      [|unfold suggestFromFixedRow in Hs; rewrite Hfr in Hs; discriminate].
    destruct (R fr) eqn:HR;
      [|unfold suggestFromFixedRow in Hs; rewrite Hfr, HR in Hs; discriminate].
    rewrite (suggestFromFixedRow_eq j rs fr Hfr HR) in Hs. injection Hs as <-.
    rewrite list_lookup_insert_ne by congruence.
    rewrite list_lookup_fmap, Hr. simpl. f_equal. apply rowStake_nonpositive_odds, Ho. }
  split.
  { intros x Hx. eapply clampedCents_centsOrNaN, suggestFromBank_clamped, Hx. }
  { intros j s x Hs Hx. eapply clampedCents_centsOrNaN, suggestFromFixedRow_clamped; eauto. }
Qed.
End SolverShape.

(** ** Running the pass twice *)

Section Twice.
Context {N : Type} `{JsNumberLaws N}.
Local Open Scope js_scope.

Lemma findIndex_R_ext (rs rs' : list (Row N)) :
  R <$> rs = R <$> rs' -> findIndex R rs = findIndex R rs'.
Proof.
  revert rs'. induction rs as [|r rs IH]; intros [|r' rs'] Heq; simpl in *;
    try discriminate; [reflexivity|].
  injection Heq as Hr Hrs. rewrite Hr, (IH rs' Hrs). reflexivity.
Qed.

Lemma hasRecipient_ext (rs rs' : list (Row N)) :
  R <$> rs = R <$> rs' -> hasRecipient rs = hasRecipient rs'.
Proof.
  unfold hasRecipient.
  revert rs'. induction rs as [|r rs IH]; intros [|r' rs'] Heq; simpl in *;
    try discriminate; [reflexivity|].
  injection Heq as Hr Hrs. rewrite Hr, (IH rs' Hrs). reflexivity.
Qed.

(** The bankroll solver reads the odds and the recipient flags only. *)
Lemma suggestFromBank_ext (b : N) (rs rs' : list (Row N)) :
  odds <$> rs = odds <$> rs' -> R <$> rs = R <$> rs' ->
  suggestFromBank b rs = suggestFromBank b rs'.
Proof.
  intros Ho HR. unfold suggestFromBank.
  rewrite Ho, HR, (findIndex_R_ext rs rs' HR). reflexivity.
Qed.

(** The fixed-row solver reads, besides, the fixed row itself. *)
Lemma suggestFromFixedRow_ext (j : nat) (rs rs' : list (Row N)) :
  odds <$> rs = odds <$> rs' -> R <$> rs = R <$> rs' -> rs !! j = rs' !! j ->
  suggestFromFixedRow j rs = suggestFromFixedRow j rs'.
Proof.
  intros Ho HR Hj. unfold suggestFromFixedRow.
  rewrite Ho, HR, Hj. reflexivity.
Qed.

Lemma mergeRow_idem (fi : option nat) (foc : Focus) (sg : list N) (i : nat) (r : Row N) :
  mergeRow fi foc sg i (mergeRow fi foc sg i r) = mergeRow fi foc sg i r.
Proof.
  unfold mergeRow. destruct (sg !! i) as [s|]; [|reflexivity].
  destruct (negb (bool_decide (fi = Some i)) && negb (manual r)
            && negb (stakeFocused foc i) && isNum s) eqn:Hc; simpl; rewrite Hc; reflexivity.
Qed.

Lemma mergeSuggested_fixed (st : State N) (foc : Focus) (sg : list N) (j : nat) :
  fixedIndex st = Some j -> mergeSuggested st foc sg !! j = rows st !! j.
Proof.
  intros Hj. rewrite mergeSuggested_lookup.
  destruct (rows st !! j) as [r|]; [|reflexivity]. simpl. f_equal.
  apply mergeRow_frame. auto.
Qed.

(** What the solvers suggest for a state, and for the state after the merge
    with another bankroll. *)
Definition solvesFromFixedRow (st : State N) : Prop :=
  exists j s, fixedIndex st = Some j /\ suggestFromFixedRow j (rows st) = Some s.

Lemma suggest_after_merge (st : State N) (foc : Focus) (sg : list N) (b' : N) :
  solvesFromFixedRow st \/ b' = bank st ->
  suggest {| n := n st; fixedIndex := fixedIndex st; bank := b';
             rows := mergeSuggested st foc sg |}
  = suggest st.
Proof.
  intros Hcase. unfold suggest. cbn [fixedIndex rows bank].
  pose proof (mergeSuggested_odds st foc sg) as Ho.
  pose proof (mergeSuggested_R st foc sg) as HR.
  destruct (fixedIndex st) as [j|] eqn:Hj.
  - rewrite (suggestFromFixedRow_ext j _ (rows st) Ho HR (mergeSuggested_fixed st foc sg j Hj)).
    destruct (suggestFromFixedRow j (rows st)) as [s|] eqn:Hs; [reflexivity|].
    destruct Hcase as [(j' & s' & Hj' & Hs')| -> ].
    + congruence.
    + apply suggestFromBank_ext; assumption.
  - destruct Hcase as [(j' & s' & Hj' & Hs')| -> ]; [congruence|].
    apply suggestFromBank_ext; assumption.
Qed.

Lemma mergeSuggested_idem (st : State N) (foc : Focus) (sg : list N) (b' : N) :
  mergeSuggested {| n := n st; fixedIndex := fixedIndex st; bank := b';
                    rows := mergeSuggested st foc sg |} foc sg
  = mergeSuggested st foc sg.
Proof.
  apply list_eq. intros i. rewrite !mergeSuggested_lookup. cbn [rows fixedIndex].
  rewrite mergeSuggested_lookup.
  destruct (rows st !! i) as [r|]; [|reflexivity]. simpl. f_equal. apply mergeRow_idem.
Qed.

(** The figures a pass paints, the verdict and the error texts apart. *)
Definition figures (o : Output N) : N * list N * list N * N * bool * nat * N :=
  (out_total o, out_payouts o, out_profits o, out_sInv o, out_isArb o, out_roiRow o, out_roi o).

(** A row that passes the validator still passes after the merge. *)
Lemma mergeRow_good (fi : option nat) (foc : Focus) (sg : list N) (i : nat) (r : Row N) :
  (forall x, x ∈ sg -> clampedCents x) ->
  rowGood r = true -> rowGood (mergeRow fi foc sg i r) = true.
Proof.
  intros Hsg Hr. unfold mergeRow.
  destruct (sg !! i) as [s|] eqn:Hs; [|exact Hr].
  destruct (negb (bool_decide (fi = Some i)) && negb (manual r)
            && negb (stakeFocused foc i) && isNum s) eqn:Hc; [|exact Hr].
  apply andb_true_iff in Hc. destruct Hc as [_ Hnum].
  unfold rowGood in *. apply andb_true_iff in Hr. destruct Hr as [Ho _].
  apply andb_true_iff. split; [exact Ho|].
  unfold stakeBad. cbn [stake]. rewrite Hnum. simpl.
  destruct (clampedCents_centsOrNaN s (Hsg s (list_elem_of_lookup_2 _ _ _ Hs))) as [_ [Hn|Hn]].
  - rewrite (isNum_not_nan s Hnum) in Hn. discriminate.
  - rewrite (law_leb_ltb n_zero s law_nan_zero (isNum_not_nan s Hnum)) in Hn.
    rewrite Hn. reflexivity.
Qed.

Lemma suggest_clamped (st : State N) (x : N) : x ∈ suggest st -> clampedCents x.
Proof.
  unfold suggest. destruct (fixedIndex st) as [j|].
  - destruct (suggestFromFixedRow j (rows st)) as [s|] eqn:Hs.
    + apply (suggestFromFixedRow_clamped j (rows st) s x Hs).
    + apply suggestFromBank_clamped.
  - apply suggestFromBank_clamped.
Qed.

Lemma rowError_good (r : Row N) : rowGood r = true -> rowError r = blankError.
Proof.
  unfold rowGood, rowError. intros Hr. apply andb_true_iff in Hr.
  destruct Hr as [Ho Hs]. apply negb_true_iff in Ho, Hs. rewrite Ho, Hs. reflexivity.
Qed.

End Twice.

(** ** The solvers' denominator and the fixed-row total *)

Section Totals.
Context {N : Type} `{JsNumber N}.

(** The denominator [1 - A + AR] of the solvers, as the program computes it. *)
Definition slack (rs : list (Row N)) : N :=
  n_add (n_sub n_one (invSumOdds (odds <$> rs))) (invSumR (odds <$> rs) (R <$> rs)).

(** The total the fixed-row solver derives from the fixed stake [sj] at
    odds [oj]: [sj * oj * AR / (1 - A + AR)]. *)
Definition derivedTotal (fr : Row N) (rs : list (Row N)) : N :=
  n_div (n_mul (n_mul (stake fr) (odds fr)) (invSumR (odds <$> rs) (R <$> rs))) (slack rs).
End Totals.

(** ** Cents and sums of cents in exact arithmetic *)

Module Cents.
Import Exact ExactFacts.
Local Open Scope Q_scope.

(** Number.EPSILON, and the most a rounding to cents moves a number. *)
Definition eps : Q := 1 # 4503599627370496.
Definition tol : Q := (1 # 200) + eps.

Lemma tol_pos : 0 < tol.
Proof. reflexivity. Qed.

Lemma Qfloor_unique (x : Q) (k : Z) :
  inject_Z k <= x -> x < inject_Z k + 1 -> Qfloor x = k.
Proof.
  intros Hlo Hhi.
  pose proof (Qfloor_le x) as Hfl. pose proof (Qlt_floor x) as Hfu.
  rewrite inject_Z_plus in Hfu. change (inject_Z 1) with 1 in Hfu.
  assert (H1 : inject_Z (Qfloor x) < inject_Z k + 1) by lra.
  assert (H2 : inject_Z k < inject_Z (Qfloor x) + 1) by lra.
  change 1 with (inject_Z 1) in H1, H2. rewrite <- inject_Z_plus in H1, H2.
  rewrite <- Zlt_Qlt in H1, H2. lia.
Qed.

Lemma qround2_value (q : Q) :
  qround2 q == inject_Z (Qfloor ((q + eps) * 100 + (1 # 2))) / 100.
Proof. unfold qround2. apply Qred_correct. Qed.

Lemma qround2_near (q : Q) : q - tol <= qround2 q /\ qround2 q <= q + tol.
Proof.
  rewrite qround2_value. unfold tol.
  set (x := (q + eps) * 100 + (1 # 2)).
  pose proof (Qfloor_le x) as Hfl. pose proof (Qlt_floor x) as Hfu.
  rewrite inject_Z_plus in Hfu. change (inject_Z 1) with 1 in Hfu.
  set (f := inject_Z (Qfloor x)) in *.
  assert (Hx : x == (q + eps) * 100 + (1 # 2)) by reflexivity. clearbody x.
  assert (Heps : eps == 1 # 4503599627370496) by reflexivity.
  split.
  - apply Qle_shift_div_l; [reflexivity|]. lra.
  - apply Qle_shift_div_r; [reflexivity|]. lra.
Qed.

Lemma qround2_proper (a b : Q) : a == b -> qround2 a = qround2 b.
Proof.
  intros Hab. unfold qround2. apply Qred_complete.
  assert (Hf : Qfloor ((a + (1 # 4503599627370496)) * 100 + (1 # 2))
               = Qfloor ((b + (1 # 4503599627370496)) * 100 + (1 # 2))).
  { apply Qfloor_comp. rewrite Hab. reflexivity. }
  rewrite Hf. reflexivity.
Qed.

(** A whole number of cents. *)
Definition cent (q : Q) : Prop := exists k : Z, q == inject_Z k / 100.

Lemma cent_qround2 (q : Q) : cent (qround2 q).
Proof. eexists. apply qround2_value. Qed.

Lemma cent_zero : cent 0.
Proof. exists 0%Z. reflexivity. Qed.

Lemma cent_plus (a b : Q) : cent a -> cent b -> cent (a + b).
Proof.
  intros [ka Ha] [kb Hb]. exists (ka + kb)%Z.
  rewrite Ha, Hb, inject_Z_plus. field.
Qed.

Lemma cent_opp (a : Q) : cent a -> cent (- a).
Proof.
  intros [ka Ha]. exists (- ka)%Z.
  rewrite Ha, inject_Z_opp. field.
Qed.

Lemma cent_proper (a b : Q) : a == b -> cent a -> cent b.
Proof. intros Hab [k Hk]. exists k. rewrite <- Hab. exact Hk. Qed.

Lemma qround2_cent (q : Q) : cent q -> qround2 q == q.
Proof.
  intros [k Hk]. rewrite qround2_value.
  assert (Hf : Qfloor ((q + eps) * 100 + (1 # 2)) = k).
  { assert (Hq : q * 100 == inject_Z k) by (rewrite Hk; field).
    assert (Heps : eps == 1 # 4503599627370496) by reflexivity.
    apply Qfloor_unique; lra. }
  rewrite Hf. symmetry. exact Hk.
Qed.

(** A whole number of cents below one cent in size is 0. *)
Lemma cent_small (d : Q) : cent d -> Qabs d < 1 # 100 -> d == 0.
Proof.
  intros [k Hk] Hd.
  assert (Hk0 : k = 0%Z).
  { apply Qabs_Qlt_condition in Hd. destruct Hd as [Hlo Hhi].
    rewrite Hk in Hlo, Hhi.
    assert (Hdiv : inject_Z k / 100 == inject_Z k * (1 # 100)) by field.
    rewrite Hdiv in Hlo, Hhi.
    assert (H1 : inject_Z (-1) < inject_Z k).
    { change (inject_Z (-1)) with (-1). lra. }
    assert (H2 : inject_Z k < inject_Z 1).
    { change (inject_Z 1) with 1. lra. }
    rewrite <- Zlt_Qlt in H1, H2. lia. }
  rewrite Hk, Hk0. reflexivity.
Qed.

(** The clamp at 0. *)
Lemma qmax0_ge (q : Q) : q <= qmax0 q.
Proof.
  unfold qmax0. destruct (Qltb 0 q) eqn:Hq; [lra|].
  apply Qltb_false in Hq. exact Hq.
Qed.

Lemma qmax0_id (q : Q) : 0 <= q -> qmax0 q == q.
Proof.
  intros Hq. unfold qmax0. destruct (Qltb 0 q) eqn:Hlt; [reflexivity|].
  apply Qltb_false in Hlt. lra.
Qed.

Lemma qmax0_neg (q : Q) : q <= 0 -> qmax0 q = 0.
Proof.
  intros Hq. unfold qmax0. destruct (Qltb 0 q) eqn:Hlt; [|reflexivity].
  apply Qltb_true in Hlt. lra.
Qed.

Lemma qmax0_cases (q : Q) : (0 <= q /\ qmax0 q == q) \/ (q <= 0 /\ qmax0 q == 0).
Proof.
  destruct (Qlt_le_dec 0 q) as [Hq|Hq].
  - left. split; [lra|]. apply qmax0_id. lra.
  - right. split; [exact Hq|]. rewrite (qmax0_neg q Hq). reflexivity.
Qed.

Lemma qmax0_proper (a b : Q) : a == b -> qmax0 a == qmax0 b.
Proof.
  intros Hab. destruct (qmax0_cases a) as [[Ha ->]|[Ha ->]];
    destruct (qmax0_cases b) as [[Hb ->]|[Hb ->]]; lra.
Qed.

Lemma cent_qmax0 (q : Q) : cent q -> cent (qmax0 q).
Proof.
  intros Hq. unfold qmax0. destruct (Qltb 0 q); [exact Hq|apply cent_zero].
Qed.

(** Sums. *)
Definition Qsum (l : list Q) : Q := foldr Qplus 0 l.

Lemma foldl_Qplus (l : list Q) (a : Q) : foldl Qplus a l == a + Qsum l.
Proof.
  revert a. induction l as [|x l IH]; intros a; [simpl; ring|].
  cbn [foldl]. rewrite IH. unfold Qsum. cbn [foldr]. ring.
Qed.

Lemma foldl_Qplus_map {A : Type} (f : A -> Q) (l : list A) (a : Q) :
  foldl (fun s x => s + f x) a l == a + Qsum (f <$> l).
Proof.
  revert a. induction l as [|x l IH]; intros a; [simpl; ring|].
  rewrite fmap_cons. cbn [foldl]. rewrite IH. unfold Qsum. cbn [foldr]. ring.
Qed.

Lemma cent_Qsum (l : list Q) : Forall cent l -> cent (Qsum l).
Proof.
  induction 1 as [|x l Hx Hl IH]; simpl; [apply cent_zero|].
  apply cent_plus; assumption.
Qed.

Lemma Qsum_near (xs ys : list Q) (t : Q) :
  Forall2 (fun x y => y - t <= x /\ x <= y + t) xs ys ->
  Qsum ys - inject_Z (Z.of_nat (length xs)) * t <= Qsum xs /\
  Qsum xs <= Qsum ys + inject_Z (Z.of_nat (length xs)) * t.
Proof.
  induction 1 as [|x y xs ys [Hlo Hhi] Hrest [IHlo IHhi]].
  - unfold Qsum. cbn [foldr length]. change (inject_Z (Z.of_nat 0)) with 0. split; lra.
  - unfold Qsum in *. cbn [foldr length].
    rewrite Nat2Z.inj_succ, <- Z.add_1_r, inject_Z_plus.
    change (inject_Z 1) with 1.
    set (N := inject_Z (Z.of_nat (length xs))) in *. clearbody N.
    set (sx := foldr Qplus 0 xs) in *. set (sy := foldr Qplus 0 ys) in *.
    clearbody sx sy. split; lra.
Qed.

Lemma Qsum_le (xs ys : list Q) :
  Forall2 Qle xs ys -> Qsum xs <= Qsum ys.
Proof.
  induction 1 as [|x y xs ys Hxy Hrest IH]; unfold Qsum in *; cbn [foldr]; [lra|].
  set (sx := foldr Qplus 0 xs) in *. set (sy := foldr Qplus 0 ys) in *.
  clearbody sx sy. lra.
Qed.

Lemma Qsum_alter (f : Q -> Q) (l : list Q) (k : nat) (x : Q) :
  l !! k = Some x -> Qsum (alter f k l) == Qsum l - x + f x.
Proof.
  unfold Qsum.
  revert k. induction l as [|y l IH]; intros [|k] Hk; try discriminate Hk.
  - injection Hk as ->. cbn [alter list_alter foldr]. ring.
  - cbn [alter list_alter foldr]. change (list_alter f k l) with (alter f k l).
    rewrite (IH k Hk). ring.
Qed.
End Cents.

(** ** The solvers on the exact numbers *)

Module ExactSolver.
Import Exact ExactFacts Cents.
Local Open Scope Q_scope.

(** The odds of a row as a rational (0 when they are not finite). *)
Definition qodds (r : Row xnum) : Q :=
  match odds r with
  | XFin o => o
  | _ => 0
  end.

(** A row with finite odds above 0. *)
Definition posOdds (r : Row xnum) : Prop := odds r = XFin (qodds r) /\ 0 < qodds r.

Definition qinv (r : Row xnum) : Q := Qred (1 / qodds r).

Lemma invTerm_pos (r : Row xnum) : posOdds r -> invTerm (odds r) = XFin (qinv r).
Proof.
  intros [Ho Hpos]. unfold invTerm, qinv. rewrite Ho. simpl.
  assert (Hlt : Qltb 0 (qodds r) = true) by (apply Qltb_true; exact Hpos).
  assert (Hz : Qis0 (qodds r) = false) by (apply Qis0_false; lra).
  rewrite Hlt, Hz. reflexivity.
Qed.

Lemma invSumOdds_exact (rs : list (Row xnum)) :
  Forall posOdds rs ->
  invSumOdds (odds <$> rs) = XFin (foldl (fun s r => s + qinv r) 0 rs).
Proof.
  intros Hrs. unfold invSumOdds. change n_zero with (XFin 0). generalize 0.
  induction Hrs as [|r rs Hr Hrs IH]; intros a; [reflexivity|].
  rewrite fmap_cons. cbn [foldl]. rewrite (invTerm_pos r Hr). apply IH.
Qed.

Lemma invSumR_exact_from (rs : list (Row xnum)) (a : Q) :
  Forall posOdds rs ->
  foldl (fun s '(o, r) => n_add s (if r : bool then invTerm o else n_zero)) (XFin a)
        ((fun r => (odds r, R r)) <$> rs)
  = XFin (foldl (fun s r => s + (if R r then qinv r else 0)) a rs).
Proof.
  intros Hrs. revert a.
  induction Hrs as [|r rs Hr Hrs IH]; intros a; [reflexivity|].
  rewrite fmap_cons. cbn [foldl]. rewrite <- IH.
  destruct (R r); [rewrite (invTerm_pos r Hr)|]; reflexivity.
Qed.

Lemma invSumR_exact (rs : list (Row xnum)) :
  Forall posOdds rs ->
  invSumR (odds <$> rs) (R <$> rs)
  = XFin (foldl (fun s r => s + (if R r then qinv r else 0)) 0 rs).
Proof.
  intros Hrs. unfold invSumR. rewrite zip_odds_R.
  apply (invSumR_exact_from rs 0 Hrs).
Qed.

(** The inverse-odds sums: all rows, recipients, the others. *)
Definition sA (rs : list (Row xnum)) : Q := Qsum ((fun r => / qodds r) <$> rs).
Definition sR (rs : list (Row xnum)) : Q :=
  Qsum ((fun r => if R r then / qodds r else 0) <$> rs).
Definition sN (rs : list (Row xnum)) : Q :=
  Qsum ((fun r => if R r then 0 else / qodds r) <$> rs).

Lemma Qsum_ext {A : Type} (f g : A -> Q) (l : list A) :
  (forall x, f x == g x) -> Qsum (f <$> l) == Qsum (g <$> l).
Proof.
  intros Hfg. unfold Qsum. induction l as [|x l IH]; [reflexivity|].
  rewrite !fmap_cons. cbn [foldr]. rewrite IH, (Hfg x). reflexivity.
Qed.

Lemma qinv_value (r : Row xnum) : qinv r == / qodds r.
Proof. unfold qinv. rewrite Qred_correct. unfold Qdiv. ring. Qed.

Lemma invSum_value (rs : list (Row xnum)) :
  foldl (fun s r => s + qinv r) 0 rs == sA rs.
Proof.
  rewrite foldl_Qplus_map, Qplus_0_l. apply Qsum_ext. apply qinv_value.
Qed.

Lemma invSumR_value (rs : list (Row xnum)) :
  foldl (fun s r => s + (if R r then qinv r else 0)) 0 rs == sR rs.
Proof.
  rewrite (foldl_Qplus_map (fun r => if R r then qinv r else 0)), Qplus_0_l.
  apply Qsum_ext. intros r. destruct (R r); [apply qinv_value|reflexivity].
Qed.

Lemma sA_split (rs : list (Row xnum)) : sA rs == sR rs + sN rs.
Proof.
  unfold sA, sR, sN, Qsum. induction rs as [|r rs IH]; [reflexivity|].
  rewrite !fmap_cons. cbn [foldr]. rewrite IH. destruct (R r); ring.
Qed.

Lemma sN_nonneg (rs : list (Row xnum)) : Forall posOdds rs -> 0 <= sN rs.
Proof.
  unfold sN, Qsum. induction 1 as [|r rs [_ Hr] Hrs IH]; [apply Qle_refl|].
  rewrite fmap_cons. cbn [foldr].
  assert (0 < / qodds r) by (apply Qinv_lt_0_compat; exact Hr).
  destruct (R r); lra.
Qed.

Lemma sR_nonneg (rs : list (Row xnum)) : Forall posOdds rs -> 0 <= sR rs.
Proof.
  unfold sR, Qsum. induction 1 as [|r rs [_ Hr] Hrs IH]; [apply Qle_refl|].
  rewrite fmap_cons. cbn [foldr].
  assert (0 < / qodds r) by (apply Qinv_lt_0_compat; exact Hr).
  destruct (R r); lra.
Qed.

Lemma sR_pos (rs : list (Row xnum)) :
  Forall posOdds rs -> hasRecipient rs = true -> 0 < sR rs.
Proof.
  unfold hasRecipient. intros Hrs. induction Hrs as [|r rs [Ho Hr] Hrs IH]; [discriminate|].
  cbn [existsb]. intros Hex.
  unfold sR, Qsum. rewrite fmap_cons. cbn [foldr].
  pose proof (sR_nonneg rs Hrs) as Hnn. unfold sR, Qsum in Hnn, IH.
  assert (0 < / qodds r) by (apply Qinv_lt_0_compat; exact Hr).
  destruct (R r); [lra|]. simpl in Hex. specialize (IH Hex). lra.
Qed.

(** A row's stake in cents from totals [T] and [K]. *)
Definition qstake (T K : Q) (r : Row xnum) : Q :=
  qround2 (qmax0 (if R r then Qred ((T + K) / qodds r) else Qred (T / qodds r))).

Lemma rowStake_exact (T K : Q) (r : Row xnum) :
  posOdds r -> rowStake (XFin T) (XFin K) r = XFin (qstake T K r).
Proof.
  intros [Ho Hpos]. unfold rowStake, qstake. rewrite Ho.
  assert (Hle : n_leb (XFin (qodds r)) n_zero = false).
  { simpl. destruct (Qle_bool (qodds r) 0) eqn:Hle; [|reflexivity].
    apply Qle_bool_iff in Hle. lra. }
  rewrite Hle.
  assert (Hz : Qis0 (qodds r) = false) by (apply Qis0_false; lra).
  destruct (R r); cbn [n_add n_div exact_number add div]; rewrite Hz;
    rewrite max0_fin, round2_fin; reflexivity.
Qed.

Lemma rowStakes_exact (T K : Q) (rs : list (Row xnum)) :
  Forall posOdds rs -> rowStake (XFin T) (XFin K) <$> rs = XFin <$> (qstake T K <$> rs).
Proof.
  intros Hrs. rewrite <- list_fmap_compose. apply Forall_fmap_ext_1.
  eapply Forall_impl; [exact Hrs|]. intros r Hr. simpl. apply rowStake_exact, Hr.
Qed.

(** The bankroll solver's [T]. *)
Definition qT (b : Q) : Q := qmax0 (if negb (Qis0 b) then b else 0).

Lemma bankT_exact (b : Q) : bankT (XFin b) = XFin (qT b).
Proof.
  unfold bankT, qT, orZero. cbn [n_truthy exact_number truthy].
  destruct (negb (Qis0 b)); apply max0_fin.
Qed.

Lemma qT_value (b : Q) : 0 <= b -> qT b == b.
Proof.
  intros Hb. unfold qT. destruct (Qis0 b) eqn:Hz; simpl.
  - apply Qis0_true in Hz. rewrite Hz. reflexivity.
  - apply qmax0_id, Hb.
Qed.

(** Summing a vector of finite numbers. *)
Lemma sum_exact (l : list Q) :
  foldl n_add n_zero (XFin <$> l) = XFin (foldl Qplus 0 l).
Proof.
  change n_zero with (XFin 0). generalize 0.
  induction l as [|x l IH]; intros a; [reflexivity|].
  rewrite fmap_cons. cbn [foldl]. apply IH.
Qed.

(** The residual correction on the rationals. *)
Definition qDelta (T : Q) (l : list Q) : Q := qround2 (T + - qround2 (foldl Qplus 0 l)).

Definition qAdjust (T : Q) (rs : list (Row xnum)) (l : list Q) : list Q :=
  if Qle_bool (1 # 100) (Qabs (qDelta T l)) then
    match findIndex R rs with
    | Some k => alter (fun sk => qround2 (qmax0 (sk + qDelta T l))) k l
    | None => l
    end
  else l.

Lemma bankDelta_exact (b : Q) (l : list Q) :
  bankDelta (XFin b) (XFin <$> l) = XFin (qDelta (qT b) l).
Proof.
  unfold bankDelta, qDelta. rewrite bankT_exact, sum_exact, round2_fin. reflexivity.
Qed.

Lemma suggestFromBank_exact (b K : Q) (rs : list (Row xnum)) :
  Forall posOdds rs -> bankK (XFin b) rs = XFin K ->
  suggestFromBank (XFin b) rs = XFin <$> qAdjust (qT b) rs (qstake (qT b) K <$> rs).
Proof.
  intros Hrs HK. rewrite suggestFromBank_eq. cbv zeta.
  rewrite HK, bankT_exact, (rowStakes_exact _ _ rs Hrs).
  rewrite bankDelta_exact.
  unfold qAdjust. cbn [n_abs n_leb n_cent exact_number abs leb].
  destruct (Qle_bool (1 # 100) (Qabs _)); [|reflexivity].
  destruct (findIndex R rs) as [k|]; [|reflexivity].
  symmetry. apply list_fmap_alter. apply Forall_forall. intros x _.
  cbn [n_add exact_number add]. rewrite max0_fin, round2_fin. reflexivity.
Qed.

Lemma bankK_exact (b : Q) (rs : list (Row xnum)) :
  Forall posOdds rs -> hasRecipient rs = true ->
  exists K, bankK (XFin b) rs = XFin K /\ K * sR rs == qT b * (1 - sA rs).
Proof.
  intros Hrs Hrec. unfold bankK.
  rewrite (invSumR_exact rs Hrs), (invSumOdds_exact rs Hrs), bankT_exact.
  pose proof (invSumR_value rs) as HR. pose proof (invSum_value rs) as HA.
  pose proof (sR_pos rs Hrs Hrec) as Hpos.
  set (ar := foldl (fun s r => s + (if R r then qinv r else 0)) 0 rs) in *.
  set (a := foldl (fun s r => s + qinv r) 0 rs) in *.
  assert (Hlt : Qltb 0 ar = true) by (apply Qltb_true; lra).
  assert (Hz : Qis0 ar = false) by (apply Qis0_false; lra).
  cbn [n_ltb n_zero n_one n_sub n_mul n_div exact_number ltb sub mul div add opp].
  rewrite Hlt, Hz. eexists. split; [reflexivity|].
  rewrite Qred_correct, <- HR, <- HA. field. lra.
Qed.
End ExactSolver.

(** ** How far the cent stakes are from the ideal ones *)

Module StakeBounds.
Import Exact ExactFacts Cents ExactSolver.
Local Open Scope Q_scope.

(** The number of rows, as a rational. *)
Definition qlen {A : Type} (l : list A) : Q := inject_Z (Z.of_nat (length l)).

Lemma qlen_nonneg {A : Type} (l : list A) : 0 <= qlen l.
Proof. unfold qlen. change 0 with (inject_Z 0). rewrite <- Zle_Qle. lia. Qed.

Lemma qlen_pos {A : Type} (l : list A) (i : nat) (x : A) : l !! i = Some x -> 1 <= qlen l.
Proof.
  intros Hi. apply lookup_lt_Some in Hi. unfold qlen.
  change 1 with (inject_Z 1). rewrite <- Zle_Qle. lia.
Qed.

Section Ideal.
Variables (rs : list (Row xnum)) (T K : Q).
Hypothesis Hrs : Forall posOdds rs.
Hypothesis HT : 0 <= T.
Hypothesis HK : K * sR rs == T * (1 - sA rs).

(** The stake the formulas ask for, before and after the clamp at 0. *)
Definition raw (r : Row xnum) : Q := (if R r then T + K else T) / qodds r.
Definition ideal (r : Row xnum) : Q := qmax0 (raw r).

Lemma raw_sum_split (l : list (Row xnum)) :
  Qsum (raw <$> l) == T * sN l + (T + K) * sR l.
Proof.
  unfold sN, sR, Qsum. induction l as [|r l IH]; [simpl; ring|].
  rewrite !fmap_cons. cbn [foldr]. rewrite IH. unfold raw, Qdiv.
  destruct (R r); ring.
Qed.

(** The unclamped stakes add up to the total. *)
Lemma raw_sum : Qsum (raw <$> rs) == T.
Proof.
  rewrite raw_sum_split. pose proof (sA_split rs) as Hsplit.
  assert (Hexp : T * sN rs + (T + K) * sR rs == T * sN rs + T * sR rs + K * sR rs) by ring.
  rewrite Hexp, HK, Hsplit. ring.
Qed.

Lemma qstake_ideal (r : Row xnum) : qstake T K r = qround2 (ideal r).
Proof.
  unfold qstake, ideal, raw. apply qround2_proper, qmax0_proper.
  destruct (R r); apply Qred_correct.
Qed.

Lemma qstake_near (r : Row xnum) :
  ideal r - tol <= qstake T K r /\ qstake T K r <= ideal r + tol.
Proof. rewrite qstake_ideal. apply qround2_near. Qed.

Lemma ideal_nonneg (r : Row xnum) : 0 <= ideal r.
Proof. apply qmax0_nonneg. Qed.

Lemma qstake_nonneg (r : Row xnum) : 0 <= qstake T K r.
Proof. rewrite qstake_ideal. apply qround2_nonneg, ideal_nonneg. Qed.

Lemma qstake_cent (r : Row xnum) : cent (qstake T K r).
Proof. apply cent_qround2. Qed.

(** The cent stakes before the residual correction. *)
Definition cents0 : list Q := qstake T K <$> rs.

Lemma cents0_near :
  Forall2 (fun x y => y - tol <= x /\ x <= y + tol) cents0 (ideal <$> rs).
Proof.
  unfold cents0. apply Forall2_fmap, Forall_Forall2_diag, Forall_forall.
  intros r _. apply qstake_near.
Qed.

Lemma cents0_length : length cents0 = length rs.
Proof. unfold cents0. apply length_fmap. Qed.

Lemma ideal_sum_ge : T <= Qsum (ideal <$> rs).
Proof.
  rewrite <- raw_sum. apply Qsum_le, Forall2_fmap, Forall_Forall2_diag, Forall_forall.
  intros r _. apply qmax0_ge.
Qed.

Lemma raw_nonneg (r : Row xnum) : posOdds r -> 0 <= T + K -> 0 <= raw r.
Proof.
  intros [_ Ho] HV. unfold raw. apply Qle_shift_div_l; [exact Ho|].
  destruct (R r); lra.
Qed.

Lemma ideal_raw_sum (l : list (Row xnum)) :
  Forall posOdds l -> 0 <= T + K -> Qsum (ideal <$> l) == Qsum (raw <$> l).
Proof.
  intros Hl HV. unfold Qsum.
  induction Hl as [|r l Hr Hl IH]; [reflexivity|].
  rewrite !fmap_cons. cbn [foldr]. rewrite IH.
  unfold ideal. rewrite (qmax0_id _ (raw_nonneg r Hr HV)). reflexivity.
Qed.

Lemma ideal_sum_feasible : 0 <= T + K -> Qsum (ideal <$> rs) == T.
Proof. intros HV. rewrite (ideal_raw_sum rs Hrs HV). apply raw_sum. Qed.

(** The cent stakes add up to the total, give or take a rounding per row. *)
Lemma cents0_sum_lower : T - qlen rs * tol <= Qsum cents0.
Proof.
  pose proof (Qsum_near _ _ _ cents0_near) as [Hlo _].
  rewrite cents0_length in Hlo. fold (qlen rs) in Hlo.
  pose proof ideal_sum_ge. lra.
Qed.

Lemma cents0_sum_upper : 0 <= T + K -> Qsum cents0 <= T + qlen rs * tol.
Proof.
  intros HV. pose proof (Qsum_near _ _ _ cents0_near) as [_ Hhi].
  rewrite cents0_length in Hhi. fold (qlen rs) in Hhi.
  rewrite (ideal_sum_feasible HV) in Hhi. exact Hhi.
Qed.

Lemma cents0_cent : Forall cent cents0.
Proof. unfold cents0. apply Forall_fmap, Forall_forall. intros r _. apply qstake_cent. Qed.

Lemma cents0_total : qround2 (foldl Qplus 0 cents0) == Qsum cents0.
Proof.
  rewrite (qround2_proper _ (Qsum cents0)).
  - apply qround2_cent, cent_Qsum, cents0_cent.
  - rewrite foldl_Qplus. ring.
Qed.

(** The residual. *)
Definition delta : Q := qDelta T cents0.

Lemma delta_cent : cent delta.
Proof. apply cent_qround2. Qed.

Lemma delta_near :
  T - Qsum cents0 - tol <= delta /\ delta <= T - Qsum cents0 + tol.
Proof.
  unfold delta, qDelta.
  pose proof (qround2_near (T + - qround2 (foldl Qplus 0 cents0))) as [Hlo Hhi].
  pose proof cents0_total as Htot.
  set (tot := qround2 (foldl Qplus 0 cents0)) in *. clearbody tot.
  set (d := qround2 (T + - tot)) in *. clearbody d. lra.
Qed.

Lemma delta_upper : delta <= (qlen rs + 1) * tol.
Proof. pose proof delta_near. pose proof cents0_sum_lower. lra. Qed.

Lemma delta_lower : 0 <= T + K -> - ((qlen rs + 1) * tol) <= delta.
Proof. intros HV. pose proof delta_near. pose proof (cents0_sum_upper HV). lra. Qed.

(** The stakes the bankroll solver returns. *)
Definition final : list Q := qAdjust T rs cents0.

Lemma final_length : length final = length rs.
Proof.
  unfold final, qAdjust.
  destruct (Qle_bool _ _); [destruct (findIndex R rs)|];
    rewrite ?length_alter; apply cents0_length.
Qed.

Lemma adjusted_value (x : Q) :
  cent x -> qround2 (qmax0 (x + delta)) == qmax0 (x + delta).
Proof.
  intros Hx. apply qround2_cent, cent_qmax0, cent_plus; [exact Hx|apply delta_cent].
Qed.

(** Every row but the first recipient keeps its cent stake. *)
Lemma final_other (i : nat) (r : Row xnum) :
  rs !! i = Some r -> findIndex R rs <> Some i -> final !! i = Some (qstake T K r).
Proof.
  intros Hr Hk. unfold final, qAdjust.
  assert (Hbase : cents0 !! i = Some (qstake T K r)).
  { unfold cents0. rewrite list_lookup_fmap, Hr. reflexivity. }
  destruct (Qle_bool _ _); [|exact Hbase].
  destruct (findIndex R rs) as [k|]; [|exact Hbase].
  rewrite list_lookup_alter_ne by congruence. exact Hbase.
Qed.

(** An infeasible position clamps every recipient's cent stake to 0. *)
Lemma qstake_infeasible (r : Row xnum) :
  posOdds r -> R r = true -> T + K < 0 -> qstake T K r = 0.
Proof.
  intros [_ Ho] HR HV. rewrite qstake_ideal. unfold ideal.
  rewrite qmax0_neg; [reflexivity|].
  unfold raw. rewrite HR. apply Qle_shift_div_r; [exact Ho|]. lra.
Qed.

(** The first recipient ends within the residual of its cent stake. *)
Lemma final_first (k : nat) (r : Row xnum) :
  findIndex R rs = Some k -> rs !! k = Some r ->
  exists f, final !! k = Some f /\ cent f /\ 0 <= f /\
            qstake T K r - (qlen rs + 1) * tol <= f /\
            f <= qstake T K r + (qlen rs + 1) * tol.
Proof.
  intros Hk Hr.
  assert (Hbase : cents0 !! k = Some (qstake T K r)).
  { unfold cents0. rewrite list_lookup_fmap, Hr. reflexivity. }
  assert (Hpos : posOdds r).
  { eapply Forall_forall in Hrs; [exact Hrs|]. eapply list_elem_of_lookup_2, Hr. }
  assert (HRr : R r = true).
  { destruct (findIndex_Some R rs k Hk) as (x & Hx & HRx & _). congruence. }
  pose proof (qlen_nonneg rs) as Hn. pose proof tol_pos as Htol.
  assert (Hslack : 0 <= (qlen rs + 1) * tol).
  { apply Qmult_le_0_compat; lra. }
  pose proof (qstake_nonneg r) as Hlk. pose proof (qstake_cent r) as Hck.
  unfold final, qAdjust. fold delta.
  destruct (Qle_bool (1 # 100) (Qabs delta)).
  - rewrite Hk, list_lookup_alter_eq, Hbase. simpl. eexists. split; [reflexivity|].
    pose proof (adjusted_value (qstake T K r) Hck) as Hval.
    split; [apply cent_qround2|].
    pose proof delta_upper as Hup.
    set (f := qround2 (qmax0 (qstake T K r + delta))) in *. clearbody f.
    destruct (qmax0_cases (qstake T K r + delta)) as [[Hge Hmax]|[Hle Hmax]];
      rewrite Hmax in Hval.
    + destruct (Qlt_le_dec (T + K) 0) as [HV|HV].
      * rewrite (qstake_infeasible r Hpos HRr HV) in *. lra.
      * pose proof (delta_lower HV). lra.
    + destruct (Qlt_le_dec (T + K) 0) as [HV|HV].
      * rewrite (qstake_infeasible r Hpos HRr HV) in *. lra.
      * pose proof (delta_lower HV). lra.
  - exists (qstake T K r). split; [exact Hbase|]. split; [exact Hck|]. lra.
Qed.

Lemma final_cent_nonneg : Forall (fun f => cent f /\ 0 <= f) final.
Proof.
  apply Forall_lookup. intros i f Hi.
  assert (Hi' : is_Some (rs !! i)).
  { apply lookup_lt_is_Some. rewrite <- final_length. eapply lookup_lt_Some, Hi. }
  destruct Hi' as [r Hr].
  destruct (decide (findIndex R rs = Some i)) as [Hk|Hk].
  - destruct (final_first i r Hk Hr) as (f' & Hf' & Hc & Hnn & _).
    rewrite Hi in Hf'. injection Hf' as <-. auto.
  - rewrite (final_other i r Hr Hk) in Hi. injection Hi as <-.
    split; [apply qstake_cent|apply qstake_nonneg].
Qed.

(** Conservation: in a feasible position the returned stakes add up to
    the bankroll, give or take a rounding per row. *)
Lemma final_sum :
  0 <= T + K ->
  T - qlen rs * tol <= Qsum final /\ Qsum final <= T + qlen rs * tol.
Proof.
  intros HV.
  pose proof cents0_sum_lower as Hlo. pose proof (cents0_sum_upper HV) as Hhi.
  unfold final, qAdjust. fold delta.
  destruct (Qle_bool (1 # 100) (Qabs delta)); [|split; assumption].
  destruct (findIndex R rs) as [k|] eqn:Hk; [|split; assumption].
  destruct (findIndex_Some R rs k Hk) as (r & Hr & _ & _).
  assert (Hbase : cents0 !! k = Some (qstake T K r)).
  { unfold cents0. rewrite list_lookup_fmap, Hr. reflexivity. }
  rewrite (Qsum_alter _ _ k _ Hbase).
  pose proof (adjusted_value (qstake T K r) (qstake_cent r)) as Hval.
  pose proof (qstake_nonneg r) as Hlk.
  pose proof delta_near as [Hdlo Hdhi].
  pose proof (qlen_pos rs k r Hr) as Hn. pose proof tol_pos as Htol.
  assert (Hnt : tol <= qlen rs * tol).
  { assert (Hm : 0 <= (qlen rs - 1) * tol) by (apply Qmult_le_0_compat; lra).
    lra. }
  set (f := qround2 (qmax0 (qstake T K r + delta))) in *. clearbody f.
  destruct (qmax0_cases (qstake T K r + delta)) as [[Hge Hmax]|[Hle Hmax]];
    rewrite Hmax in Hval; split; lra.
Qed.
End Ideal.
End StakeBounds.

(** ** The pass on the exact numbers *)

Module ExactPass.
Import Exact ExactFacts Cents ExactSolver StakeBounds.
Local Open Scope Q_scope.

(** What the validator's verdict says of exact numbers. *)
Lemma rowGood_exact (r : Row xnum) :
  rowGood r = true ->
  posOdds r /\ 1 < qodds r /\ exists s, stake r = XFin s /\ 0 <= s.
Proof.
  unfold rowGood, oddsBad, stakeBad, posOdds, qodds. intros Hg.
  apply andb_true_iff in Hg. destruct Hg as [Ho Hs].
  apply negb_true_iff in Ho, Hs.
  apply orb_false_iff in Ho. destruct Ho as [Ho _].
  apply orb_false_iff in Ho. destruct Ho as [Hnum Hle].
  apply orb_false_iff in Hs. destruct Hs as [Hsnum Hslt].
  destruct (odds r) as [o| | |]; try discriminate Hnum.
  destruct (stake r) as [s| | |]; try discriminate Hsnum.
  simpl in Hle, Hslt.
  assert (H1 : 1 < o).
  { destruct (Qle_bool o 1) eqn:Hb; [discriminate|].
    apply Qnot_le_lt. intros Hc. apply Qle_bool_iff in Hc. congruence. }
  apply Qltb_false in Hslt.
  split; [split; [reflexivity|lra]|]. split; [exact H1|]. exists s. auto.
Qed.

Lemma bankGood_exact (b : xnum) : bankGood b = true -> exists q, b = XFin q /\ 0 <= q.
Proof.
  unfold bankGood. intros Hb. apply negb_true_iff, orb_false_iff in Hb.
  destruct Hb as [Hnum Hlt]. destruct b as [q| | |]; try discriminate Hnum.
  simpl in Hlt. apply Qltb_false in Hlt. exists q. auto.
Qed.

Lemma rows_good (rs : list (Row xnum)) :
  forallb rowGood rs = true -> Forall posOdds rs.
Proof.
  rewrite forallb_forall. intros Hall. apply Forall_forall. intros r Hr.
  apply list_elem_of_In, Hall, rowGood_exact in Hr. tauto.
Qed.

(** The rows once every one of them took its suggested stake. *)
Definition stakedRows (rs : list (Row xnum)) (F : list Q) : list (Row xnum) :=
  zip_with (fun r f => mkRow (odds r) (XFin f) (R r) (manual r)) rs F.

Lemma merge_all (st : State xnum) (foc : Focus) (F : list Q) :
  fixedIndex st = None -> Forall (fun r => manual r = false) (rows st) ->
  (forall i, foc <> FocusStake i) -> length F = length (rows st) ->
  mergeSuggested st foc (XFin <$> F) = stakedRows (rows st) F.
Proof.
  intros Hfix Hman Hfoc Hlen. apply list_eq. intros i.
  rewrite mergeSuggested_lookup. unfold stakedRows. rewrite lookup_zip_with.
  destruct (rows st !! i) as [r|] eqn:Hr; [|reflexivity]. simpl.
  destruct (lookup_lt_is_Some_2 F i) as [f Hf].
  { rewrite Hlen. eapply lookup_lt_Some, Hr. }
  rewrite Hf. simpl. f_equal.
  unfold mergeRow. rewrite list_lookup_fmap, Hf, Hfix. simpl.
  assert (Hm : manual r = false).
  { eapply Forall_forall in Hman; [exact Hman|]. eapply list_elem_of_lookup_2, Hr. }
  rewrite Hm.
  assert (Hsf : stakeFocused foc i = false).
  { destruct foc as [| |j]; try reflexivity. simpl.
    destruct (Nat.eqb_spec i j) as [->|]; [|reflexivity]. exfalso. eapply Hfoc. reflexivity. }
  rewrite Hsf. reflexivity.
Qed.

Lemma sumStakes_staked_from (rs : list (Row xnum)) (F : list Q) (a : Q) :
  foldl (fun s r => n_add s (if isNum (stake r) then n_max n_zero (stake r) else n_zero))
        (XFin a) (stakedRows rs F)
  = XFin (foldl (fun s f => s + qmax0 f) a (take (length rs) F)).
Proof.
  revert F a. induction rs as [|r rs IH]; intros F a; [reflexivity|].
  destruct F as [|f F]; [reflexivity|].
  cbn [stakedRows zip_with foldl length take stake]. fold (stakedRows rs F).
  change (isNum (XFin f)) with true. cbv iota. rewrite max0_fin.
  apply (IH F (a + qmax0 f)).
Qed.

Lemma sumStakes_staked (rs : list (Row xnum)) (F : list Q) :
  length F = length rs ->
  sumStakes (stakedRows rs F) = XFin (qround2 (foldl (fun s f => s + qmax0 f) 0 F)).
Proof.
  intros Hlen. unfold sumStakes.
  pose proof (sumStakes_staked_from rs F 0) as Hs.
  change (XFin 0) with (@n_zero xnum exact_number) in Hs.
  rewrite Hs, round2_fin, <- Hlen, firstn_all. reflexivity.
Qed.

Lemma clamped_sum (F : list Q) :
  Forall (fun f => cent f /\ 0 <= f) F -> Qsum (qmax0 <$> F) == Qsum F.
Proof.
  unfold Qsum. induction 1 as [|f F [_ Hf] HF IH]; [reflexivity|].
  rewrite fmap_cons. cbn [foldr]. rewrite IH, (qmax0_id f Hf). reflexivity.
Qed.

(** The total the pass shows is the sum of the stakes. *)
Lemma total_value (F : list Q) :
  Forall (fun f => cent f /\ 0 <= f) F ->
  qround2 (foldl (fun s f => s + qmax0 f) 0 F) == Qsum F.
Proof.
  intros HF.
  rewrite (qround2_proper _ (Qsum F)).
  - apply qround2_cent, cent_Qsum. eapply Forall_impl; [exact HF|]. intros f Hf. apply Hf.
  - rewrite (foldl_Qplus_map qmax0), Qplus_0_l. apply clamped_sum, HF.
Qed.

(** Payout and profit of a row. *)
Definition qpayout (f o : Q) : Q := qround2 (qmax0 f * o).
Definition qprofit (pay tot : Q) : Q := qround2 (pay + - tot).

Lemma profit_exact (pay tot : Q) :
  round2 (n_sub (XFin pay) (XFin tot)) = XFin (qprofit pay tot).
Proof. reflexivity. Qed.

Lemma payout_lookup (rs : list (Row xnum)) (F : list Q) (i : nat) (r : Row xnum) (f : Q) :
  rs !! i = Some r -> F !! i = Some f -> posOdds r ->
  ((fun r => round2 (n_mul (n_max n_zero (stake r)) (odds r))) <$> stakedRows rs F) !! i
  = Some (XFin (qpayout f (qodds r))).
Proof.
  intros Hr Hf [Ho _]. unfold stakedRows.
  rewrite list_lookup_fmap, lookup_zip_with, Hr, Hf.
  cbn [fmap option_fmap option_map mbind option_bind stake odds]. f_equal.
  rewrite max0_fin, Ho. reflexivity.
Qed.

Lemma qpayout_near (f o : Q) :
  0 <= f -> f * o - tol <= qpayout f o /\ qpayout f o <= f * o + tol.
Proof.
  intros Hf. unfold qpayout.
  pose proof (qround2_near (qmax0 f * o)) as Hn.
  assert (Hm : qmax0 f * o == f * o) by (rewrite (qmax0_id f Hf); reflexivity).
  set (p := qround2 (qmax0 f * o)) in *. clearbody p.
  rewrite Hm in Hn. exact Hn.
Qed.

Lemma qprofit_value (pay tot : Q) : cent pay -> cent tot -> qprofit pay tot == pay - tot.
Proof.
  intros Hp Ht. unfold qprofit.
  rewrite qround2_cent; [ring|]. apply cent_plus; [exact Hp|apply cent_opp, Ht].
Qed.
End ExactPass.

(** ** Bankroll mode: profits of a valid position *)

Module BankProfits.
Import Exact ExactFacts Cents ExactSolver StakeBounds ExactPass.
Local Open Scope Q_scope.

Lemma slack_exact (rs : list (Row xnum)) :
  Forall posOdds rs -> exists d, slack rs = XFin d /\ d == 1 - sA rs + sR rs.
Proof.
  intros Hrs. unfold slack.
  rewrite (invSumOdds_exact rs Hrs), (invSumR_exact rs Hrs).
  eexists. split; [reflexivity|].
  rewrite (invSum_value rs), (invSumR_value rs). ring.
Qed.

Lemma scale_bound (x t o : Q) :
  - t <= x -> x <= t -> 0 <= o -> - (o * t) <= x * o /\ x * o <= o * t.
Proof. intros Hlo Hhi Ho. split; nra. Qed.

Lemma feasible_of_slack (T K ar a : Q) :
  0 <= T -> 0 < ar -> K * ar == T * (1 - a) -> 0 <= 1 - a + ar -> 0 <= T + K.
Proof.
  intros HT Har HK Hs.
  assert (H1 : (T + K) * ar == T * (1 - a + ar)).
  { assert (He : (T + K) * ar == T * ar + K * ar) by ring. rewrite He, HK. ring. }
  assert (H2 : 0 <= T * (1 - a + ar)) by (apply Qmult_le_0_compat; assumption).
  destruct (Qlt_le_dec (T + K) 0) as [Hneg|Hpos]; [|exact Hpos].
  exfalso. assert (H3 : (T + K) * ar < 0) by nra. lra.
Qed.

(** A valid position in bankroll mode: the solver's totals and stakes. *)
Lemma bank_solver_valid (st : State xnum) (v : View xnum) (errs : list RowError) :
  normal st -> validate (readBank st v) = Some (true, errs) ->
  exists b T K,
    bankInp v = XFin b /\ 0 <= b /\ T == b /\ 0 <= T /\
    Forall posOdds (rows st) /\ 0 < sR (rows st) /\
    K * sR (rows st) == T * (1 - sA (rows st)) /\
    suggestFromBank (bankInp v) (rows st) = XFin <$> final (rows st) T K.
Proof.
  intros Hn Hval.
  rewrite (validate_normal _ (readBank_normal st v Hn)) in Hval.
  injection Hval as Hok _. cbn [bank rows fixedIndex readBank] in Hok.
  apply andb_true_iff in Hok. destruct Hok as [Hok _].
  apply andb_true_iff in Hok. destruct Hok as [Hok Hgood].
  apply andb_true_iff in Hok. destruct Hok as [Hbank Hrec].
  destruct (bankGood_exact _ Hbank) as (b & Hb & Hb0).
  pose proof (rows_good _ Hgood) as Hpos.
  rewrite Hb.
  destruct (bankK_exact b (rows st) Hpos Hrec) as (K & HK & HKeq).
  exists b, (qT b), K.
  pose proof (qT_value b Hb0) as HT.
  split; [reflexivity|]. split; [exact Hb0|]. split; [exact HT|].
  split; [rewrite HT; exact Hb0|]. split; [exact Hpos|].
  split; [apply sR_pos; assumption|]. split; [exact HKeq|].
  apply suggestFromBank_exact; assumption.
Qed.

(** The profits the pass shows when every row takes the solver's stake. *)
Lemma bank_pass_profits (st : State xnum) (v : View xnum) (F : list Q) :
  normal st -> fixedIndex st = None ->
  Forall (fun r => manual r = false) (rows st) ->
  (forall i, focus v <> FocusStake i) ->
  Forall posOdds (rows st) ->
  length F = length (rows st) ->
  Forall (fun f => cent f /\ 0 <= f) F ->
  suggestFromBank (bankInp v) (rows st) = XFin <$> F ->
  exists st1 v1 out tot,
    recalcAndPaint st v = Some (st1, v1, out) /\
    tot == Qsum F /\ cent tot /\
    forall i r f, rows st !! i = Some r -> F !! i = Some f ->
      out_profits out !! i = Some (XFin (qprofit (qpayout f (qodds r)) tot)).
Proof.
  intros Hn Hfix Hman Hfoc Hpos Hlen HF Hsg.
  pose proof (recalcAndPaint_eq st v) as Heq. cbv zeta in Heq.
  rewrite (ensureRows_id st Hn) in Heq.
  assert (Hsuggest : suggest (readBank st v) = XFin <$> F).
  { unfold suggest. cbn [fixedIndex readBank rows bank]. rewrite Hfix. exact Hsg. }
  rewrite Hsuggest in Heq.
  assert (Hmerge : mergeSuggested (readBank st v) (focus v) (XFin <$> F)
                   = stakedRows (rows st) F).
  { apply (merge_all (readBank st v) (focus v) F); assumption. }
  rewrite Hmerge in Heq. unfold metrics in Heq.
  rewrite (sumStakes_staked (rows st) F Hlen) in Heq.
  eexists _, _, _, _. split; [exact Heq|]. cbn [out_profits].
  split; [apply total_value, HF|]. split; [apply cent_qround2|].
  intros i r f Hr Hf.
  assert (Hp : posOdds r).
  { eapply Forall_forall in Hpos; [exact Hpos|]. eapply list_elem_of_lookup_2, Hr. }
  rewrite list_lookup_fmap, (payout_lookup _ _ i r f Hr Hf Hp).
  cbn [fmap option_fmap option_map].
  apply (f_equal Some), profit_exact.
Qed.

Lemma ideal_payout (T K : Q) (r : Row xnum) :
  posOdds r -> R r = true -> ideal T K r * qodds r == qmax0 (T + K).
Proof.
  intros [_ Ho] HR. unfold ideal, raw. rewrite HR.
  destruct (qmax0_cases (T + K)) as [[HV ->]|[HV ->]].
  - rewrite qmax0_id; [field; lra|]. apply Qle_shift_div_l; lra.
  - rewrite qmax0_neg; [ring|]. apply Qle_shift_div_r; lra.
Qed.

Lemma ideal_payout_other (T K : Q) (r : Row xnum) :
  posOdds r -> R r = false -> 0 <= T -> ideal T K r * qodds r == T.
Proof.
  intros [_ Ho] HR HT. unfold ideal, raw. rewrite HR.
  rewrite qmax0_id; [field; lra|]. apply Qle_shift_div_l; lra.
Qed.

Lemma qpayout_cent (f o : Q) : cent (qpayout f o).
Proof. apply cent_qround2. Qed.

Lemma not_first_recipient (rs : list (Row xnum)) (i : nat) (r : Row xnum) :
  rs !! i = Some r -> R r = false -> findIndex R rs <> Some i.
Proof.
  intros Hr HR Hk. destruct (findIndex_Some R rs i Hk) as (x & Hx & HRx & _). congruence.
Qed.

(** How far a row's payout is from [ideal * odds], given how far its stake
    is from the ideal one. *)
Lemma payout_bound (f x o c : Q) :
  0 <= f -> 0 <= o -> 0 <= c -> x - c * tol <= f -> f <= x + c * tol ->
  x * o - (o * c + 1) * tol <= qpayout f o /\ qpayout f o <= x * o + (o * c + 1) * tol.
Proof.
  intros Hf Ho Hc Hlo Hhi.
  pose proof (qpayout_near f o Hf) as [Hplo Hphi].
  destruct (scale_bound (f - x) (c * tol) o) as [Hslo Hshi]; [lra|lra|exact Ho|].
  assert (He : f * o == (f - x) * o + x * o) by ring.
  assert (He2 : (o * c + 1) * tol == o * (c * tol) + tol) by ring.
  set (p := qpayout f o) in *. clearbody p.
  set (X := (f - x) * o) in *. clearbody X.
  set (Y := x * o) in *. set (Z := f * o) in *. set (U := o * (c * tol)) in *.
  set (V := (o * c + 1) * tol) in *. clearbody Y Z U V. split; lra.
Qed.


End BankProfits.

(** ** Conservation in both modes *)

Module Conservation.
Import Exact ExactFacts Cents ExactSolver StakeBounds ExactPass BankProfits.
Local Open Scope Q_scope.

Lemma fixed_valid (st : State xnum) (v : View xnum) (errs : list RowError) (j : nat) :
  normal st -> validate (readBank st v) = Some (true, errs) -> fixedIndex st = Some j ->
  Forall posOdds (rows st) /\ 0 < sR (rows st) /\
  exists fr sj, rows st !! j = Some fr /\ R fr = true /\ posOdds fr /\
                stake fr = XFin sj /\ 0 < sj.
Proof.
  intros Hn Hval Hj.
  rewrite (validate_normal _ (readBank_normal st v Hn)) in Hval.
  injection Hval as Hok _. cbn [bank rows fixedIndex readBank] in Hok.
  apply andb_true_iff in Hok. destruct Hok as [Hok Hfix].
  apply andb_true_iff in Hok. destruct Hok as [Hok Hgood].
  apply andb_true_iff in Hok. destruct Hok as [_ Hrec].
  pose proof (rows_good _ Hgood) as Hpos.
  split; [exact Hpos|]. split; [apply sR_pos; assumption|].
  unfold fixedGood in Hfix. rewrite Hj in Hfix.
  destruct (rows st !! j) as [fr|] eqn:Hfr; [|discriminate].
  apply andb_true_iff in Hfix. destruct Hfix as [HR Hs].
  apply negb_true_iff, orb_false_iff in Hs. destruct Hs as [Hnum Hle].
  exists fr. destruct (stake fr) as [sj| | |] eqn:Hst; try discriminate Hnum.
  exists sj. split; [reflexivity|]. split; [exact HR|].
  split; [eapply Forall_forall in Hpos; [exact Hpos|]; eapply list_elem_of_lookup_2, Hfr|].
  split; [reflexivity|].
  simpl in Hle. apply Qnot_le_lt. intros Hc. apply Qle_bool_iff in Hc. congruence.
Qed.

(** The fixed-row solver on a valid position whose denominator is at least
    1e-12: its totals and its stakes. *)
Lemma fixed_solver_exact (rs : list (Row xnum)) (j : nat) (fr : Row xnum) (sj : Q) :
  Forall posOdds rs -> 0 < sR rs -> rs !! j = Some fr -> R fr = true ->
  stake fr = XFin sj -> 0 < sj ->
  n_leb n_tiny (slack rs) = true ->
  exists T K,
    derivedTotal fr rs = XFin T /\ 0 <= T /\ T + K == sj * qodds fr /\
    K * sR rs == T * (1 - sA rs) /\
    suggestFromFixedRow j rs = Some (XFin <$> (<[j := qround2 sj]> (cents0 rs T K))).
Proof.
  intros Hpos HsR Hfr HR Hst Hsj Hslack.
  assert (Hp : posOdds fr).
  { eapply Forall_forall in Hpos; [exact Hpos|]. eapply list_elem_of_lookup_2, Hfr. }
  destruct Hp as [Ho Hopos].
  destruct (slack_exact rs Hpos) as (d & Hd & Hdv).
  rewrite Hd in Hslack. simpl in Hslack. apply Qle_bool_iff in Hslack.
  assert (Hdpos : 0 < d) by (assert (0 < 1 # 1000000000000) by reflexivity; lra).
  rewrite (suggestFromFixedRow_eq j rs fr Hfr HR).
  assert (Hsj' : n_max n_zero (orZero (stake fr)) = XFin sj).
  { rewrite Hst. apply (law_max_zero_pos (XFin sj)). simpl. apply Qltb_true, Hsj. }
  assert (HTK : fixedTK fr j rs
                = (XFin (Qred (sj * qodds fr
                               * foldl (fun s r => s + (if R r then qinv r else 0)) 0 rs / d)),
                   XFin (sj * qodds fr
                         + - Qred (sj * qodds fr
                                   * foldl (fun s r => s + (if R r then qinv r else 0)) 0 rs / d)))).
  { unfold fixedTK. cbv zeta. rewrite Hsj'.
    rewrite list_lookup_fmap, Hfr. cbn [fmap option_fmap option_map default from_option id].
    fold (slack rs). rewrite Hd, (invSumR_exact rs Hpos), Ho.
    cbn [n_abs n_ltb n_tiny exact_number abs ltb].
    assert (Hnd : Qltb (Qabs d) (1 # 1000000000000) = false).
    { apply Qltb_false. rewrite Qabs_pos; lra. }
    rewrite Hnd.
    assert (Hz : Qis0 d = false) by (apply Qis0_false; lra).
    cbn [n_mul n_div n_sub exact_number mul div sub add opp]. rewrite Hz. reflexivity. }
  rewrite HTK. cbn [fst snd].
  pose proof (invSumR_value rs) as Har.
  set (ar := foldl (fun s r => s + (if R r then qinv r else 0)) 0 rs) in *.
  set (T := Qred (sj * qodds fr * ar / d)).
  assert (HTv : T == sj * qodds fr * ar / d) by apply Qred_correct.
  exists T, (sj * qodds fr + - T).
  split.
  { unfold derivedTotal. rewrite Hd, (invSumR_exact rs Hpos), Hst, Ho.
    assert (Hz : Qis0 d = false) by (apply Qis0_false; lra).
    cbn [n_mul n_div exact_number mul div]. rewrite Hz. reflexivity. }
  split.
  { rewrite HTv. apply Qle_shift_div_l; [exact Hdpos|].
    rewrite Qmult_0_l. repeat apply Qmult_le_0_compat; lra. }
  split; [ring|].
  split.
  { assert (HTd : T * d == sj * qodds fr * ar) by (rewrite HTv; field; lra).
    rewrite Hdv, Har in HTd. 
    assert (He : (sj * qodds fr + - T) * sR rs
                 == sj * qodds fr * sR rs - T * sR rs) by ring.
    rewrite He, <- HTd. ring. }
  f_equal. rewrite Hsj', round2_fin, (rowStakes_exact _ _ rs Hpos).
  symmetry. apply list_fmap_insert.
Qed.

Lemma Qsum_insert (l : list Q) (k : nat) (x y : Q) :
  l !! k = Some x -> Qsum (<[k := y]> l) == Qsum l - x + y.
Proof.
  intros Hk. rewrite list_insert_alter. apply (Qsum_alter (fun _ => y) l k x Hk).
Qed.

End Conservation.

(** ** The specification's scenarios, on binary64 *)

Section Scenarios.
Import F64 F64Facts.
Local Open Scope float_scope.

(** Scenario C: odds 2 and 3, row 0 a recipient fixed at 600, row 1 not a
    recipient. *)
Definition scenarioC : State float :=
  mkState 2 (Some 0%nat) 900 [mkRow 2 600 true true; mkRow 3 0 false false].

Definition viewC : View float := mkView 900 FocusElsewhere.

Lemma scenarioC_normal : normal scenarioC.
Proof.
  split; [reflexivity|]. intros j Hj. injection Hj as <-. simpl. lia.
Defined.

Lemma C3_witness :
  exists fr stakes st1 v1 out,
    rows scenarioC !! 0%nat = Some fr /\
    suggestFromFixedRow 0 (rows scenarioC) = Some stakes /\
    stakes !! 0%nat = Some (round2 (stake fr)) /\
    recalcAndPaint scenarioC viewC = Some (st1, v1, out) /\
    out_ok out = true /\
    rows st1 !! 0%nat = Some fr.
Proof.
  apply (C3_fixed_row_stake_is_its_input_rounded_to_cents
           scenarioC viewC 0 [blankError; blankError]).
  - exact scenarioC_normal.
  - reflexivity.
  - vm_compute. reflexivity.
Defined.


Lemma C6_witness :
  exists ok errors, validate scenarioC = Some (ok, errors) /\ verdict scenarioC ok errors.
Proof.
  apply (C6_validator_verdict_is_the_conjunction_of_its_rules scenarioC).
  exact scenarioC_normal.
Defined.
End Scenarios.

Section Scenarios2.
Import F64 F64Facts.
Local Open Scope float_scope.

(** Two binary64 numbers that differ are different. *)
Lemma float_neq (x y : float) : PrimFloat.Leibniz.eqb x y = false -> x <> y.
Proof.
  intros Hne Heq. apply FloatAxioms.Leibniz.eqb_spec in Heq. congruence.
Qed.

(** Scenario A after one pass: odds 2 and 2, both recipients, bankroll 1000. *)
Definition scenarioA : State float :=
  mkState 2 None 1000 [mkRow 2 500 true false; mkRow 2 500 true false].

Definition viewA : View float := mkView 1000 FocusElsewhere.

Definition outputA : Output float :=
  mkOutput true [blankError; blankError] 1000 [1000; 1000] [0; 0] 1 false 0 0.


(** A manual stake of 100 beside an automatic row, bankroll field at 1000. *)
Definition manualRows : State float :=
  mkState 2 None 1000 [mkRow 2 100 true true; mkRow 2 0 true false].


(** Rows with odds 0: a recipient beside a non-recipient, and two recipients. *)
Definition zeroOddsRecipient : list (Row float) :=
  [mkRow 0 0 true false; mkRow 2 0 false false].

Definition zeroOddsRecipients : list (Row float) :=
  [mkRow 0 0 true false; mkRow 2 0 true false].

(** C10 as stated fails: the bankroll solver gives the first row, whose
    odds are 0, the stake 500 (it absorbs the residual), the fixed-row solver
    leaves a fixed row of odds 0 its 600, and both return a NaN entry when
    two recipients include one of odds 0. *)
Lemma C10_counterexample :
  ~ (forall i r, zeroOddsRecipient !! i = Some r -> n_leb (odds r) n_zero = true ->
       suggestFromBank 1000 zeroOddsRecipient !! i = Some n_zero) /\
  suggestFromBank 1000 zeroOddsRecipient = [500; 500] /\
  ~ (forall x, x ∈ suggestFromBank 1000 zeroOddsRecipients ->
       n_isNaN x = false /\ n_leb n_zero x = true) /\
  suggestFromBank 1000 zeroOddsRecipients = [0; nan] /\
  suggestFromFixedRow 0 [mkRow 0 600 true false; mkRow 2 0 true false] = Some [600; nan].
Proof.
  split; [|split; [vm_compute; reflexivity|split; [|split; vm_compute; reflexivity]]].
  - intros Hc. specialize (Hc 0%nat (mkRow 0 0 true false) eq_refl eq_refl).
    vm_compute in Hc. apply (f_equal (default 0)) in Hc. simpl in Hc.
    revert Hc. apply float_neq. reflexivity.
  - intros Hc. destruct (Hc nan) as [Hn _]; [|vm_compute in Hn; discriminate Hn].
    change (suggestFromBank 1000 zeroOddsRecipients) with [0; nan].
    apply list_elem_of_In. right. left. reflexivity.
Qed.

Lemma C10_witness :
  length (suggestFromBank 1000 zeroOddsRecipient) = length zeroOddsRecipient /\
  (forall j, suggestFromFixedRow j zeroOddsRecipient = None \/
             exists s, suggestFromFixedRow j zeroOddsRecipient = Some s /\
                       length s = length zeroOddsRecipient) /\
  (existsb R zeroOddsRecipient = false ->
     bankK 1000 zeroOddsRecipient = n_zero /\
     suggestFromBank 1000 zeroOddsRecipient =
       (fun r => if n_leb (odds r) n_zero then n_zero
                 else round2 (n_div (n_max n_zero (orZero 1000)) (odds r))) <$> zeroOddsRecipient) /\
  (forall i r, zeroOddsRecipient !! i = Some r -> n_leb (odds r) n_zero = true ->
     findIndex R zeroOddsRecipient <> Some i ->
     suggestFromBank 1000 zeroOddsRecipient !! i = Some n_zero) /\
  (forall j s i r, suggestFromFixedRow j zeroOddsRecipient = Some s ->
     zeroOddsRecipient !! i = Some r ->
     n_leb (odds r) n_zero = true -> i <> j -> s !! i = Some n_zero) /\
  (forall x, x ∈ suggestFromBank 1000 zeroOddsRecipient -> centsOrNaN x) /\
  (forall j s x, suggestFromFixedRow j zeroOddsRecipient = Some s -> x ∈ s -> centsOrNaN x).
Proof.
  apply (C10_solvers_total 1000 zeroOddsRecipient).
Defined.
End Scenarios2.

(** ** Positions where rounding and clamping show, on binary64 and exactly *)

Section Positions.
Import F64 F64Facts.
Local Open Scope float_scope.

(** Bankroll 1004, a non-recipient row at odds 1000 and a recipient at 1.5. *)
Definition steepOdds : State float :=
  mkState 2 None 1004 [mkRow 1000 0 false false; mkRow 1.5 0 true false].

(** Bankroll 1000, two non-recipient rows at odds 1.5 (their inverse odds
    add up to 4/3) and a recipient at odds 2. *)
Definition overround : State float :=
  mkState 3 None 1000
    [mkRow 1.5 0 false false; mkRow 1.5 0 false false; mkRow 2 0 true false].

(** The same rows, the recipient fixed at a stake of 100. *)
Definition overroundFixed : State float :=
  mkState 3 (Some 2%nat) 1000
    [mkRow 1.5 0 false false; mkRow 1.5 0 false false; mkRow 2 100 true false].

(** Bankroll 1004, two recipients at odds 1.5 and 1000. *)
Definition farOdds : State float :=
  mkState 2 None 1004 [mkRow 1.5 0 true false; mkRow 1000 0 true false].

Definition idle (b : float) : View float := mkView b FocusElsewhere.



End Positions.

(** ** The same positions in exact arithmetic *)

Section ExactPositions.
Import Exact ExactFacts Cents ExactSolver StakeBounds ExactPass BankProfits Conservation.
Local Open Scope Q_scope.

Definition row (o s : Q) (isR : bool) : Row xnum := mkRow (XFin o) (XFin s) isR false.

Definition steepOddsX : State xnum :=
  mkState 2 None (XFin 1004) [row 1000 0 false; row (3 # 2) 0 true].

Definition overroundX : State xnum :=
  mkState 3 None (XFin 1000) [row (3 # 2) 0 false; row (3 # 2) 0 false; row 2 0 true].

Definition farOddsX : State xnum :=
  mkState 2 None (XFin 1004) [row (3 # 2) 0 true; row 1000 0 true].

(** Scenario C of the specification with a feasible fixed row: odds 2 and
    3, the recipient at odds 2 fixed at 600. *)
Definition fixedX : State xnum :=
  mkState 2 (Some 0%nat) (XFin 900) [row 2 600 true; row 3 0 false].

Definition idleX (b : Q) : View xnum := mkView (XFin b) FocusElsewhere.

Lemma steepOddsX_normal : normal steepOddsX.
Proof. split; [reflexivity|]. intros j Hj. discriminate Hj. Defined.

Lemma farOddsX_normal : normal farOddsX.
Proof. split; [reflexivity|]. intros j Hj. discriminate Hj. Defined.

Lemma fixedX_normal : normal fixedX.
Proof. split; [reflexivity|]. intros j Hj. injection Hj as <-. simpl. lia. Defined.

(** The failures above are not an effect of binary rounding: computed
    exactly, the same positions show the profits -4, -333.33 and the pair
    499.75, 496. *)
Lemma profits_off_in_exact_arithmetic :
  exists st1 v1 o1 st2 v2 o2 st3 v3 o3,
    recalcAndPaint steepOddsX (idleX 1004) = Some (st1, v1, o1) /\
    recalcAndPaint overroundX (idleX 1000) = Some (st2, v2, o2) /\
    recalcAndPaint farOddsX (idleX 1004) = Some (st3, v3, o3) /\
    out_ok o1 = true /\ out_ok o2 = true /\ out_ok o3 = true /\
    out_profits o1 = [XFin (-4); XFin (1001 # 2)] /\
    out_total o2 = XFin (66667 # 50) /\
    out_profits o2 = [XFin (-33333 # 100); XFin (-33333 # 100); XFin (-66667 # 50)] /\
    out_profits o3 = [XFin (1999 # 4); XFin 496].
Proof.
  eexists _, _, _, _, _, _, _, _, _.
  split; [vm_compute; reflexivity|].
  split; [vm_compute; reflexivity|].
  split; [vm_compute; reflexivity|].
  repeat split; vm_compute; reflexivity.
Qed.



End ExactPositions.

(** ** The event handlers and the functions that rebuild the page *)

Section Handlers.
Context {N : Type} `{JsNumber N}.
Local Open Scope js_scope.

(** [setFixedIndex]: the assignment to [state.fixedIndex]; the boxes follow
    in [syncFixedCheckboxesUI]. *)
Definition setFixedIndex (idx : option nat) (st : State N) : State N :=
  {| n := n st; fixedIndex := idx; bank := bank st; rows := rows st |}.

(** [syncFixedCheckboxesUI]: the checked flags it leaves on the F boxes of
    the page, in order ([None]: the page has no rows element, nothing is
    done). *)
Definition syncFixedCheckboxesUI (st : State N) (fEls : option (list bool))
  : option (list bool) :=
  imap (fun idx _ => bool_decide (fixedIndex st = Some idx)) <$> fEls.

(** [state.rows[i].field = value]: an assignment to a field of row [i];
    a missing row raises (a TypeError), which is [None]. *)
Definition updateRow (i : nat) (f : Row N -> Row N) (st : State N) : option (State N) :=
  r ← rows st !! i;
  Some {| n := n st; fixedIndex := fixedIndex st; bank := bank st;
          rows := <[i := f r]> (rows st) |}.

(** [state.rows.forEach((r, idx) => { if (keep !== idx) r.manual = false; })] *)
Definition clearManualExcept (keep : option nat) (rs : list (Row N)) : list (Row N) :=
  imap (fun idx r =>
          if bool_decide (keep = Some idx) then r
          else {| odds := odds r; stake := stake r; R := R r; manual := false |}) rs.

(** The [input] listener of the odds field of row [i]; [x] is
    [Number(oddsInp.value)]. *)
Definition onOddsInput (i : nat) (x : N) (st : State N) (v : View N)
  : option (State N * View N * Output N) :=
  st1 ← updateRow i (fun r => {| odds := x; stake := stake r; R := R r; manual := manual r |}) st;
  recalcAndPaint st1 v.

(** The [input] listener of the stake field of row [i]. *)
Definition onStakeInput (i : nat) (x : N) (st : State N) (v : View N)
  : option (State N * View N * Output N) :=
  st1 ← updateRow i (fun r => {| odds := odds r; stake := x; R := R r; manual := manual r |}) st;
  st2 ← updateRow i (fun r => {| odds := odds r; stake := stake r; R := R r; manual := true |}) st1;
  recalcAndPaint st2 v.

(** The [change] listener of the R box of row [i]. *)
Definition onRChange (i : nat) (checked : bool) (st : State N) (v : View N)
  : option (State N * View N * Output N) :=
  st1 ← updateRow i (fun r => {| odds := odds r; stake := stake r; R := checked;
                                 manual := manual r |}) st;
  r ← rows st1 !! i;
  let st2 := if negb (R r) && bool_decide (fixedIndex st1 = Some i)
             then setFixedIndex None st1 else st1 in
  recalcAndPaint st2 v.

(** The [change] listener of the F box of row [i]. *)
Definition onFChange (i : nat) (checked : bool) (st : State N) (v : View N)
  : option (State N * View N * Output N) :=
  let st1 :=
    if checked then
      let st' := setFixedIndex (Some i) st in
      {| n := n st'; fixedIndex := fixedIndex st'; bank := bank st';
         rows := clearManualExcept (Some i) (rows st') |}
    else if bool_decide (fixedIndex st = Some i) then setFixedIndex None st
    else st in
  recalcAndPaint st1 v.

(** The [input] listener of the bank field. *)
Definition onBankInput (st : State N) (v : View N)
  : option (State N * View N * Output N) :=
  let st1 := {| n := n st; fixedIndex := fixedIndex st; bank := bankInp v;
                rows := clearManualExcept (fixedIndex st) (rows st) |} in
  recalcAndPaint st1 v.

(** The view once the rows of the page are built anew: a stake field that
    had the focus is gone, and the new fields do not have it. *)
Definition rebuiltView (v : View N) : View N :=
  {| bankInp := bankInp v;
     focus := match focus v with
              | FocusStake _ => FocusElsewhere
              | f => f
              end |}.

(** [renderRowsOnce]: one row of the page is built per index below
    [state.n]; building row [i] reads [state.rows[i]] and raises on a
    missing one. *)
Definition renderRowsOnce (st : State N) (v : View N) : option (View N) :=
  if (n st <=? length (rows st))%nat then Some (rebuiltView v) else None.

Definition setN (k : nat) (st : State N) (v : View N)
  : option (State N * View N * Output N) :=
  let st1 := ensureRows {| n := k; fixedIndex := fixedIndex st; bank := bank st;
                           rows := rows st |} in
  v1 ← renderRowsOnce st1 v;
  recalcAndPaint st1 v1.

(** [init], from the state the script declares ([n: 2, fixedIndex: null,
    bank: 1000, rows: []]), which is [st]. *)
Definition init (st : State N) (v : View N) : option (State N * View N * Output N) :=
  let st1 := ensureRows {| n := n st; fixedIndex := fixedIndex st; bank := bank st;
                           rows := [defaultRow; defaultRow] |} in
  v1 ← renderRowsOnce st1 v;
  recalcAndPaint st1 v1.

(** What the user does, and the listener it runs. *)
Inductive Event : Type :=
| OddsInput (i : nat) (x : N)
| StakeInput (i : nat) (x : N)
| RChange (i : nat) (checked : bool)
| FChange (i : nat) (checked : bool)
| BankInput
| OutcomesClick (k : nat).

Definition handle (e : Event) (st : State N) (v : View N)
  : option (State N * View N * Output N) :=
  match e with
  | OddsInput i x => onOddsInput i x st v
  | StakeInput i x => onStakeInput i x st v
  | RChange i c => onRChange i c st v
  | FChange i c => onFChange i c st v
  | BankInput => onBankInput st v
  | OutcomesClick k => setN k st v
  end.

(** The listeners of row [i] exist while the page shows row [i]. *)
Definition onPage (e : Event) (st : State N) : Prop :=
  match e with
  | OddsInput i _ | StakeInput i _ | RChange i _ | FChange i _ => (i < n st)%nat
  | BankInput | OutcomesClick _ => True
  end.
End Handlers.

(** ** What every pass keeps *)

Section PassShape.
Context {N : Type} `{JsNumber N}.
Local Open Scope js_scope.

Lemma ensureRows_padding (st : State N) (i : nat) :
  (length (rows st) <= i < n st)%nat -> rows (ensureRows st) !! i = Some defaultRow.
Proof.
  intros [Hlo Hhi]. unfold ensureRows; cbn [rows].
  rewrite lookup_take_lt by lia.
  rewrite lookup_app_r by lia.
  apply lookup_replicate_2. lia.
Qed.

(** X1: after [ensureRows] the state has exactly [n] rows; [n] and the
    bankroll are untouched; a row below [n] is the row that was there, a
    missing one is the default row (odds 2, stake 0, recipient, not manual);
    the fixed index survives exactly when it is below [n]. *)
Theorem ensureRows_shape (st : State N) :
  length (rows (ensureRows st)) = n st /\
  n (ensureRows st) = n st /\
  bank (ensureRows st) = bank st /\
  (forall i r, (i < n st)%nat -> rows st !! i = Some r ->
     rows (ensureRows st) !! i = Some r) /\
  (forall i, (length (rows st) <= i < n st)%nat ->
     rows (ensureRows st) !! i = Some defaultRow) /\
  (forall j, fixedIndex (ensureRows st) = Some j <->
     fixedIndex st = Some j /\ (j < n st)%nat).
Proof.
  split; [apply ensureRows_length|]. split; [reflexivity|]. split; [reflexivity|].
  split; [intros i r Hi Hr; apply ensureRows_lookup; assumption|].
  split; [apply ensureRows_padding|]. apply ensureRows_fixed.
Qed.

(** X2: [ensureRows] is idempotent. *)
Theorem ensureRows_idempotent (st : State N) :
  ensureRows (ensureRows st) = ensureRows st.
Proof. apply ensureRows_id, ensureRows_normal. Qed.

Lemma mergeRow_fields (fi : option nat) (foc : Focus) (sg : list N) (i : nat) (r : Row N) :
  odds (mergeRow fi foc sg i r) = odds r /\
  R (mergeRow fi foc sg i r) = R r /\
  manual (mergeRow fi foc sg i r) = manual r.
Proof.
  unfold mergeRow. destruct (sg !! i); [|auto].
  destruct (_ && _); auto.
Qed.

Lemma mergeSuggested_manual (st : State N) (foc : Focus) (sg : list N) :
  manual <$> mergeSuggested st foc sg = manual <$> rows st.
Proof.
  apply list_eq. intros i. rewrite !list_lookup_fmap, mergeSuggested_lookup.
  destruct (rows st !! i) as [r|]; [|reflexivity]. simpl. f_equal.
  apply mergeRow_fields.
Qed.

(** The pass on a normalised state. *)
Lemma pass_normal (st : State N) (v : View N) :
  normal st ->
  recalcAndPaint st v
  = Some (metrics (readBank st v) v
            (bankGood (bankInp v) && hasRecipient (rows st)
             && forallb rowGood (rows st) && fixedGood (fixedIndex st) (rows st))
            (rowError <$> rows st)
            (mergeSuggested (readBank st v) (focus v) (suggest (readBank st v)))).
Proof.
  intros Hn. pose proof (recalcAndPaint_eq st v) as Heq. cbv zeta in Heq.
  rewrite (ensureRows_id st Hn) in Heq. exact Heq.
Qed.

(** The state a pass leaves is normalised. *)
Lemma pass_result_normal (st st1 : State N) (v v1 : View N) (out : Output N) :
  recalcAndPaint st v = Some (st1, v1, out) ->
  normal st1 /\ n st1 = n st /\ fixedIndex st1 = fixedIndex (ensureRows st).
Proof.
  rewrite recalcAndPaint_eq. cbv zeta. unfold metrics. intros Heq.
  injection Heq as <- _ _. cbn [n fixedIndex rows readBank].
  split; [|auto]. split; cbn [n fixedIndex rows].
  - rewrite mergeSuggested_length. apply ensureRows_length.
  - intros j Hj. apply ensureRows_fixed in Hj. apply Hj.
Qed.

(** X3: the pass returns on every state and view (no read of a missing row
    raises); it leaves [n] as it was, exactly [n] rows, the fixed index of
    [ensureRows], the focus where it was, and it computes one error record,
    one payout and one profit per row. *)
Theorem recalcAndPaint_returns (st : State N) (v : View N) :
  exists st1 v1 out,
    recalcAndPaint st v = Some (st1, v1, out) /\
    n st1 = n st /\ length (rows st1) = n st /\
    fixedIndex st1 = fixedIndex (ensureRows st) /\
    focus v1 = focus v /\
    length (out_errors out) = n st /\
    length (out_payouts out) = n st /\
    length (out_profits out) = n st.
Proof.
  pose proof (recalcAndPaint_eq st v) as Heq. cbv zeta in Heq. unfold metrics in Heq.
  eexists _, _, _. split; [exact Heq|].
  cbn [n rows fixedIndex focus out_errors out_payouts out_profits readBank].
  rewrite !length_fmap, mergeSuggested_length. cbn [rows readBank].
  rewrite ensureRows_length. auto 10.
Qed.

(** X4: the pass writes stakes only: the odds, the recipient flags and the
    manual flags of the rows it leaves are those of the rows [ensureRows]
    gave it. *)
Theorem recalcAndPaint_keeps_odds_and_flags (st : State N) (v : View N) :
  exists st1 v1 out,
    recalcAndPaint st v = Some (st1, v1, out) /\
    odds <$> rows st1 = odds <$> rows (ensureRows st) /\
    R <$> rows st1 = R <$> rows (ensureRows st) /\
    manual <$> rows st1 = manual <$> rows (ensureRows st).
Proof.
  pose proof (recalcAndPaint_eq st v) as Heq. cbv zeta in Heq. unfold metrics in Heq.
  eexists _, _, _. split; [exact Heq|]. cbn [rows].
  rewrite mergeSuggested_odds, mergeSuggested_R, mergeSuggested_manual. auto.
Qed.

Lemma findIndex_lt {A : Type} (p : A -> bool) (l : list A) (k : nat) :
  findIndex p l = Some k -> (k < length l)%nat.
Proof.
  intros Hk. destruct (findIndex_Some p l k Hk) as (x & Hx & _).
  eapply lookup_lt_Some, Hx.
Qed.

(** X5: the row whose payout gives the ROI is the fixed row if there is
    one, else the first recipient, else row 0; when the position has rows it
    is one of them, so the payout read for it exists and the fallback
    [?? 0] is taken only on a position without rows. *)
Theorem roi_row_is_a_row (st : State N) (v : View N) :
  exists st1 v1 out,
    recalcAndPaint st v = Some (st1, v1, out) /\
    out_roiRow out
    = match fixedIndex (ensureRows st) with
      | Some j => j
      | None => default 0%nat (findIndex R (rows (ensureRows st)))
      end /\
    ((0 < n st)%nat ->
       (out_roiRow out < n st)%nat /\
       exists r, rows st1 !! out_roiRow out = Some r /\
         out_payouts out !! out_roiRow out
         = Some (round2 (n_max n_zero (stake r) * odds r))).
Proof.
  pose proof (recalcAndPaint_eq st v) as Heq. cbv zeta in Heq. unfold metrics in Heq.
  eexists _, _, _. split; [exact Heq|].
  cbn [out_roiRow out_payouts rows fixedIndex readBank].
  set (st' := ensureRows st).
  set (rows' := mergeSuggested _ _ _).
  assert (Hlen : length rows' = n st).
  { unfold rows'. rewrite mergeSuggested_length. apply ensureRows_length. }
  assert (Hfind : findIndex R rows' = findIndex R (rows st')).
  { apply findIndex_R_ext. unfold rows'. exact (mergeSuggested_R (readBank st' v) _ _). }
  rewrite Hfind. split; [reflexivity|].
  intros Hpos.
  assert (Hlt : (match fixedIndex st' with
                 | Some j => j
                 | None => default 0%nat (findIndex R (rows st'))
                 end < n st)%nat).
  { destruct (fixedIndex st') as [j|] eqn:Hj.
    - apply ensureRows_fixed in Hj. apply Hj.
    - destruct (findIndex R (rows st')) as [k|] eqn:Hk; [|exact Hpos].
      apply findIndex_lt in Hk. unfold st' in Hk. rewrite ensureRows_length in Hk.
      exact Hk. }
  split; [exact Hlt|].
  destruct (lookup_lt_is_Some_2 rows' _ ltac:(rewrite Hlen; exact Hlt)) as [r Hr].
  exists r. split; [exact Hr|].
  rewrite list_lookup_fmap, Hr. reflexivity.
Qed.
End PassShape.

(** ** The listeners: what an edit leaves in the state *)

Section HandlerFacts.
Context {N : Type} `{JsNumber N}.
Local Open Scope js_scope.

(** The state with other rows. *)
Definition setRows (st : State N) (rs : list (Row N)) : State N :=
  {| n := n st; fixedIndex := fixedIndex st; bank := bank st; rows := rs |}.

Lemma updateRow_eq (i : nat) (f : Row N -> Row N) (st : State N) (r : Row N) :
  rows st !! i = Some r -> updateRow i f st = Some (setRows st (<[i := f r]> (rows st))).
Proof. intros Hr. unfold updateRow. rewrite Hr. reflexivity. Qed.

Lemma setRows_normal (st : State N) (rs : list (Row N)) :
  normal st -> length rs = length (rows st) -> normal (setRows st rs).
Proof. intros [Hlen Hfix] Hrs. split; cbn [rows n fixedIndex setRows]; [lia|exact Hfix]. Qed.

Lemma setFixedIndex_normal (st : State N) (idx : option nat) :
  normal st -> (forall j, idx = Some j -> (j < n st)%nat) -> normal (setFixedIndex idx st).
Proof. intros [Hlen _] Hidx. split; [exact Hlen|exact Hidx]. Qed.

Lemma clearManualExcept_length (keep : option nat) (rs : list (Row N)) :
  length (clearManualExcept keep rs) = length rs.
Proof. apply length_imap. Qed.

Lemma clearManualExcept_lookup (keep : option nat) (rs : list (Row N)) (i : nat) :
  clearManualExcept keep rs !! i
  = (fun r => if bool_decide (keep = Some i) then r
              else {| odds := odds r; stake := stake r; R := R r; manual := false |})
      <$> rs !! i.
Proof. unfold clearManualExcept. apply list_lookup_imap. Qed.

Lemma forallb_false_lookup {A : Type} (p : A -> bool) (l : list A) (i : nat) (x : A) :
  l !! i = Some x -> p x = false -> forallb p l = false.
Proof.
  intros Hx Hp. destruct (forallb p l) eqn:Hall; [|reflexivity].
  rewrite forallb_forall in Hall.
  rewrite <- Hp. symmetry. apply Hall, list_elem_of_In. eapply list_elem_of_lookup_2, Hx.
Qed.

(** The verdict of a pass is negative when some row fails a row check. *)
Lemma pass_bad_row (st st1 : State N) (v v1 : View N) (out : Output N) (i : nat) (r : Row N) :
  normal st -> recalcAndPaint st v = Some (st1, v1, out) ->
  rows st !! i = Some r ->
  out_errors out !! i = Some (rowError r) /\
  (rowGood r = false -> out_ok out = false).
Proof.
  intros Hn Hpass Hr. rewrite (pass_normal st v Hn) in Hpass. unfold metrics in Hpass.
  injection Hpass as _ _ <-. cbn [out_errors out_ok]. split.
  - rewrite list_lookup_fmap, Hr. reflexivity.
  - intros Hbad. rewrite (forallb_false_lookup rowGood (rows st) i r Hr Hbad).
    rewrite andb_false_r. reflexivity.
Qed.

(** The rows a pass leaves, on a normalised state. *)
Lemma pass_rows (st st1 : State N) (v v1 : View N) (out : Output N) :
  normal st -> recalcAndPaint st v = Some (st1, v1, out) ->
  rows st1 = mergeSuggested (readBank st v) (focus v) (suggest (readBank st v)) /\
  fixedIndex st1 = fixedIndex st /\ n st1 = n st.
Proof.
  intros Hn Hpass. rewrite (pass_normal st v Hn) in Hpass. unfold metrics in Hpass.
  injection Hpass as <- _ _. auto.
Qed.

Lemma pass_row (st st1 : State N) (v v1 : View N) (out : Output N) (i : nat) (r : Row N) :
  normal st -> recalcAndPaint st v = Some (st1, v1, out) ->
  rows st !! i = Some r ->
  rows st1 !! i
  = Some (mergeRow (fixedIndex st) (focus v) (suggest (readBank st v)) i r).
Proof.
  intros Hn Hpass Hr. destruct (pass_rows st st1 v v1 out Hn Hpass) as (-> & _ & _).
  rewrite mergeSuggested_lookup. cbn [rows fixedIndex readBank]. rewrite Hr. reflexivity.
Qed.

Lemma pass_exists (st : State N) (v : View N) :
  exists st1 v1 out, recalcAndPaint st v = Some (st1, v1, out).
Proof.
  pose proof (recalcAndPaint_eq st v) as Heq. cbv zeta in Heq.
  destruct (metrics _ _ _ _ _) as [[st1 v1] out]. eauto.
Qed.

(** *** Typing a stake *)

Lemma onStakeInput_eq (i : nat) (x : N) (st : State N) (v : View N) (r : Row N) :
  rows st !! i = Some r ->
  onStakeInput i x st v
  = recalcAndPaint
      (setRows st (<[i := {| odds := odds r; stake := x; R := R r; manual := true |}]> (rows st)))
      v.
Proof.
  intros Hr. unfold onStakeInput.
  rewrite (updateRow_eq i _ st r Hr). cbn [mbind option_bind].
  erewrite updateRow_eq
    by (cbn [rows setRows]; apply list_lookup_insert_eq; eapply lookup_lt_Some, Hr).
  cbn [mbind option_bind rows setRows odds stake R manual].
  rewrite list_insert_insert_eq. reflexivity.
Qed.

(** X6: typing a stake [x] in row [i] (any number, or NaN for a text that
    is no number) returns, marks the row manual and leaves exactly [x] as
    its stake after the pass, whatever the solver suggests; the row's stake
    error is set exactly when [x] is not a finite number or is below 0, and
    then the position is invalid. *)
Theorem stake_input_is_kept (i : nat) (x : N) (st : State N) (v : View N) :
  normal st -> (i < n st)%nat ->
  exists st1 v1 out r e,
    onStakeInput i x st v = Some (st1, v1, out) /\
    rows st !! i = Some r /\
    rows st1 !! i = Some {| odds := odds r; stake := x; R := R r; manual := true |} /\
    out_errors out !! i = Some e /\
    err_stake e = (if negb (isNum x) || (x <? n_zero) then MSG_STAKE else EmptyString) /\
    (negb (isNum x) || (x <? n_zero) = true -> out_ok out = false).
Proof.
  intros Hn Hi.
  destruct (lookup_lt_is_Some_2 (rows st) i) as [r Hr]; [rewrite (proj1 Hn); exact Hi|].
  set (r' := {| odds := odds r; stake := x; R := R r; manual := true |}).
  set (st2 := setRows st (<[i := r']> (rows st))).
  assert (Hn2 : normal st2) by (apply setRows_normal; [exact Hn|apply length_insert]).
  assert (Hr2 : rows st2 !! i = Some r').
  { cbn [rows st2 setRows]. apply list_lookup_insert_eq. eapply lookup_lt_Some, Hr. }
  destruct (pass_exists st2 v) as (st1 & v1 & out & Hpass).
  exists st1, v1, out, r, (rowError r').
  split; [rewrite (onStakeInput_eq i x st v r Hr); exact Hpass|].
  split; [exact Hr|].
  split.
  { rewrite (pass_row st2 st1 v v1 out i r' Hn2 Hpass Hr2). f_equal.
    apply mergeRow_frame. left. reflexivity. }
  destruct (pass_bad_row st2 st1 v v1 out i r' Hn2 Hpass Hr2) as [He Hok].
  split; [exact He|]. split; [reflexivity|].
  intros Hbad. apply Hok. unfold rowGood.
  change (stakeBad r') with (negb (isNum x) || (x <? n_zero)). rewrite Hbad.
  apply andb_false_r.
Qed.
End HandlerFacts.

(** ** The listeners of the odds field, the bank field and the boxes *)

Section HandlerFacts2.
Context {N : Type} `{JsNumber N}.
Local Open Scope js_scope.

Lemma pass_fields (st st1 : State N) (v v1 : View N) (out : Output N) :
  normal st -> recalcAndPaint st v = Some (st1, v1, out) ->
  odds <$> rows st1 = odds <$> rows st /\
  R <$> rows st1 = R <$> rows st /\
  manual <$> rows st1 = manual <$> rows st.
Proof.
  intros Hn Hpass. destruct (pass_rows st st1 v v1 out Hn Hpass) as (-> & _ & _).
  rewrite mergeSuggested_odds, mergeSuggested_R, mergeSuggested_manual. auto.
Qed.

Lemma pass_isArb (st st1 : State N) (v v1 : View N) (out : Output N) :
  normal st -> recalcAndPaint st v = Some (st1, v1, out) ->
  out_sInv out = invSumOdds (odds <$> rows st) /\
  out_isArb out = (invSumOdds (odds <$> rows st) <? n_one).
Proof.
  intros Hn Hpass. rewrite (pass_normal st v Hn) in Hpass. unfold metrics in Hpass.
  injection Hpass as _ _ <-. cbn [out_sInv out_isArb].
  rewrite (mergeSuggested_odds (readBank st v)). auto.
Qed.

Lemma onOddsInput_eq (i : nat) (x : N) (st : State N) (v : View N) (r : Row N) :
  rows st !! i = Some r ->
  onOddsInput i x st v
  = recalcAndPaint
      (setRows st (<[i := {| odds := x; stake := stake r; R := R r; manual := manual r |}]>
                     (rows st)))
      v.
Proof.
  intros Hr. unfold onOddsInput. rewrite (updateRow_eq i _ st r Hr). reflexivity.
Qed.

(** X7: typing odds [x] in row [i] returns; the pass then works with [x] in
    row [i] and the other odds as they were (the arbitrage indicator is
    that of the new odds), no recipient or manual flag changes; the row's
    odds error is set exactly when [x] is not a finite number, is at most 1
    or is at least 100000, and then the position is invalid. *)
Theorem odds_input_is_checked (i : nat) (x : N) (st : State N) (v : View N) :
  normal st -> (i < n st)%nat ->
  exists st1 v1 out e,
    onOddsInput i x st v = Some (st1, v1, out) /\
    odds <$> rows st1 = <[i := x]> (odds <$> rows st) /\
    R <$> rows st1 = R <$> rows st /\
    manual <$> rows st1 = manual <$> rows st /\
    out_isArb out = (invSumOdds (<[i := x]> (odds <$> rows st)) <? n_one) /\
    out_errors out !! i = Some e /\
    err_odds e = (if negb (isNum x) || (x <=? n_one) || (x >=? n_max_odds)
                  then MSG_ODDS else EmptyString) /\
    (negb (isNum x) || (x <=? n_one) || (x >=? n_max_odds) = true -> out_ok out = false).
Proof.
  intros Hn Hi.
  destruct (lookup_lt_is_Some_2 (rows st) i) as [r Hr]; [rewrite (proj1 Hn); exact Hi|].
  set (r' := {| odds := x; stake := stake r; R := R r; manual := manual r |}).
  set (st2 := setRows st (<[i := r']> (rows st))).
  assert (Hn2 : normal st2) by (apply setRows_normal; [exact Hn|apply length_insert]).
  assert (Hr2 : rows st2 !! i = Some r').
  { cbn [rows st2 setRows]. apply list_lookup_insert_eq. eapply lookup_lt_Some, Hr. }
  assert (Hodds : odds <$> rows st2 = <[i := x]> (odds <$> rows st)).
  { cbn [rows st2 setRows]. rewrite list_fmap_insert. reflexivity. }
  assert (HR : R <$> rows st2 = R <$> rows st).
  { cbn [rows st2 setRows]. rewrite list_fmap_insert. cbn [R r'].
    apply list_insert_id. rewrite list_lookup_fmap, Hr. reflexivity. }
  assert (Hman : manual <$> rows st2 = manual <$> rows st).
  { cbn [rows st2 setRows]. rewrite list_fmap_insert. cbn [manual r'].
    apply list_insert_id. rewrite list_lookup_fmap, Hr. reflexivity. }
  destruct (pass_exists st2 v) as (st1 & v1 & out & Hpass).
  destruct (pass_fields st2 st1 v v1 out Hn2 Hpass) as (Ho1 & HR1 & Hm1).
  destruct (pass_isArb st2 st1 v v1 out Hn2 Hpass) as (_ & Harb).
  destruct (pass_bad_row st2 st1 v v1 out i r' Hn2 Hpass Hr2) as [He Hok].
  exists st1, v1, out, (rowError r').
  split; [rewrite (onOddsInput_eq i x st v r Hr); exact Hpass|].
  split; [congruence|]. split; [congruence|]. split; [congruence|].
  split; [rewrite Harb, Hodds; reflexivity|].
  split; [exact He|]. split; [reflexivity|].
  intros Hbad. apply Hok. unfold rowGood.
  change (oddsBad r') with (negb (isNum x) || (x <=? n_one) || (x >=? n_max_odds)).
  rewrite Hbad. reflexivity.
Qed.

(** *** Typing a bankroll *)

Lemma clearManualExcept_fields (keep : option nat) (rs : list (Row N)) :
  odds <$> clearManualExcept keep rs = odds <$> rs /\
  R <$> clearManualExcept keep rs = R <$> rs /\
  stake <$> clearManualExcept keep rs = stake <$> rs.
Proof.
  repeat split; apply list_eq; intros i;
    rewrite !list_lookup_fmap, clearManualExcept_lookup;
    destruct (rs !! i) as [r|]; try reflexivity; simpl;
    destruct (bool_decide _); reflexivity.
Qed.

Lemma clearManualExcept_kept (keep : option nat) (rs : list (Row N)) (j : nat) :
  keep = Some j -> clearManualExcept keep rs !! j = rs !! j.
Proof.
  intros Hk. rewrite clearManualExcept_lookup, (bool_decide_eq_true_2 _ Hk).
  destruct (rs !! j); reflexivity.
Qed.

Lemma clearManualExcept_cleared (keep : option nat) (rs : list (Row N)) (i : nat) (r : Row N) :
  keep <> Some i -> clearManualExcept keep rs !! i = Some r -> manual r = false.
Proof.
  intros Hk. rewrite clearManualExcept_lookup, (bool_decide_eq_false_2 _ Hk).
  destruct (rs !! i); [|discriminate]. simpl. intros [= <-]. reflexivity.
Qed.

(** The suggestion reads the odds, the recipient flags, the bankroll, the
    fixed index and the fixed row. *)
Lemma suggest_ext (st st' : State N) :
  fixedIndex st = fixedIndex st' -> bank st = bank st' ->
  odds <$> rows st = odds <$> rows st' -> R <$> rows st = R <$> rows st' ->
  (forall j, fixedIndex st = Some j -> rows st !! j = rows st' !! j) ->
  suggest st = suggest st'.
Proof.
  intros Hf Hb Ho HR Hj. unfold suggest. rewrite <- Hf, <- Hb.
  rewrite (suggestFromBank_ext (bank st) (rows st) (rows st') Ho HR).
  destruct (fixedIndex st) as [j|]; [|reflexivity].
  rewrite (suggestFromFixedRow_ext j (rows st) (rows st') Ho HR (Hj j eq_refl)).
  reflexivity.
Qed.

Lemma mergeRow_takes (fi : option nat) (foc : Focus) (sg : list N) (i : nat) (r : Row N) (s : N) :
  fi <> Some i -> manual r = false -> foc <> FocusStake i ->
  sg !! i = Some s -> isNum s = true ->
  mergeRow fi foc sg i r = {| odds := odds r; stake := s; R := R r; manual := false |}.
Proof.
  intros Hfi Hm Hfoc Hs Hnum. unfold mergeRow. rewrite Hs, Hm, Hnum.
  rewrite (bool_decide_eq_false_2 _ Hfi).
  assert (Hsf : stakeFocused foc i = false).
  { destruct foc as [| |k]; try reflexivity. simpl.
    apply Nat.eqb_neq. intros ->. apply Hfoc. reflexivity. }
  rewrite Hsf. reflexivity.
Qed.

(** X8: typing a bankroll returns and clears the manual flag of every row
    but the fixed one, which is kept as it is; every other row that has not
    the focus takes the stake the solver suggests for the typed bankroll
    (where that is a number), a stake typed before included; and while the
    bank field has the focus its text is left alone and the state holds the
    typed bankroll. *)
Theorem bank_input_resets_manual_stakes (st : State N) (v : View N) :
  normal st ->
  exists st1 v1 out,
    onBankInput st v = Some (st1, v1, out) /\
    (forall i r1, rows st1 !! i = Some r1 -> fixedIndex st <> Some i -> manual r1 = false) /\
    (forall j, fixedIndex st = Some j -> rows st1 !! j = rows st !! j) /\
    (forall i r1 s, rows st1 !! i = Some r1 ->
       suggest (readBank st v) !! i = Some s -> isNum s = true ->
       fixedIndex st <> Some i -> focus v <> FocusStake i -> stake r1 = s) /\
    (focus v = FocusBank -> bankInp v1 = bankInp v /\ bank st1 = bankInp v) /\
    (focus v <> FocusBank -> bank st1 = out_total out).
Proof.
  intros Hn.
  set (st2 := {| n := n st; fixedIndex := fixedIndex st; bank := bankInp v;
                 rows := clearManualExcept (fixedIndex st) (rows st) |}).
  assert (Hn2 : normal st2).
  { split; cbn [rows n fixedIndex st2];
      [rewrite clearManualExcept_length; apply Hn|apply Hn]. }
  destruct (clearManualExcept_fields (fixedIndex st) (rows st)) as (Ho & HR & Hs).
  assert (Hsg : suggest (readBank st2 v) = suggest (readBank st v)).
  { apply suggest_ext; try reflexivity; cbn [rows readBank st2 fixedIndex]; try assumption.
    intros j Hj. apply clearManualExcept_kept, Hj. }
  destruct (pass_exists st2 v) as (st1 & v1 & out & Hpass).
  exists st1, v1, out. split; [exact Hpass|].
  destruct (pass_fields st2 st1 v v1 out Hn2 Hpass) as (_ & _ & Hm1).
  split.
  { intros i r1 Hr1 Hfi.
    assert (Hm : (manual <$> rows st1) !! i = Some (manual r1))
      by (rewrite list_lookup_fmap, Hr1; reflexivity).
    rewrite Hm1, list_lookup_fmap in Hm. cbn [rows st2] in Hm.
    destruct (clearManualExcept (fixedIndex st) (rows st) !! i) as [r2|] eqn:Hr2;
      [|discriminate].
    injection Hm as <-. eapply clearManualExcept_cleared; eauto. }
  split.
  { intros j Hj.
    destruct (pass_rows st2 st1 v v1 out Hn2 Hpass) as (-> & _ & _).
    rewrite (mergeSuggested_fixed (readBank st2 v) _ _ j Hj).
    cbn [rows readBank st2]. apply clearManualExcept_kept, Hj. }
  split.
  { intros i r1 s Hr1 Hs1 Hnum Hfi Hfoc.
    destruct (clearManualExcept (fixedIndex st) (rows st) !! i) as [r2|] eqn:Hr2.
    - rewrite (pass_row st2 st1 v v1 out i r2 Hn2 Hpass Hr2) in Hr1.
      rewrite Hsg in Hr1. cbn [fixedIndex st2] in Hr1.
      rewrite (mergeRow_takes _ _ _ i r2 s Hfi
                 (clearManualExcept_cleared _ _ i r2 Hfi Hr2) Hfoc Hs1 Hnum) in Hr1.
      injection Hr1 as <-. reflexivity.
    - destruct (pass_rows st2 st1 v v1 out Hn2 Hpass) as (Hrows & _ & _).
      rewrite Hrows, mergeSuggested_lookup in Hr1. cbn [rows readBank st2] in Hr1.
      rewrite Hr2 in Hr1. discriminate. }
  rewrite (pass_normal st2 v Hn2) in Hpass. unfold metrics in Hpass.
  injection Hpass as <- <- <-. cbn [bankInp bank out_total readBank st2].
  split.
  - intros ->. cbn [bankFocused]. auto.
  - intros Hnb. destruct (focus v); try reflexivity. congruence.
Qed.
End HandlerFacts2.

(** ** The boxes, the number of outcomes, and the states the page reaches *)

Section HandlerFacts3.
Context {N : Type} `{JsNumber N}.
Local Open Scope js_scope.

Lemma onRChange_eq (i : nat) (c : bool) (st : State N) (v : View N) (r : Row N) :
  rows st !! i = Some r ->
  onRChange i c st v
  = recalcAndPaint
      {| n := n st;
         fixedIndex := if negb c && bool_decide (fixedIndex st = Some i)
                       then None else fixedIndex st;
         bank := bank st;
         rows := <[i := {| odds := odds r; stake := stake r; R := c; manual := manual r |}]>
                   (rows st) |}
      v.
Proof.
  intros Hr. unfold onRChange. rewrite (updateRow_eq i _ st r Hr).
  cbn [mbind option_bind rows setRows].
  rewrite list_lookup_insert_eq by (eapply lookup_lt_Some, Hr).
  cbn [mbind option_bind R fixedIndex setRows].
  destruct (negb c && bool_decide (fixedIndex st = Some i)); reflexivity.
Qed.

Lemma released_normal (st : State N) (c : bool) (i : nat) (rs : list (Row N)) :
  normal st -> length rs = length (rows st) ->
  normal {| n := n st;
            fixedIndex := if c then None else fixedIndex st;
            bank := bank st; rows := rs |}.
Proof.
  intros [Hlen Hfix] Hrs. split; cbn [rows n fixedIndex]; [lia|].
  intros j Hj. destruct c; [discriminate|]. apply Hfix, Hj.
Qed.

(** X9: ticking or unticking the R box of row [i] returns; the row's
    recipient flag is the box, no odds, other recipient flag or manual flag
    changes; and the fixed index is released exactly when the box was
    unticked on the fixed row. *)
Theorem recipient_change_releases_the_fixed_row (i : nat) (c : bool) (st : State N) (v : View N) :
  normal st -> (i < n st)%nat ->
  exists st1 v1 out,
    onRChange i c st v = Some (st1, v1, out) /\
    R <$> rows st1 = <[i := c]> (R <$> rows st) /\
    odds <$> rows st1 = odds <$> rows st /\
    manual <$> rows st1 = manual <$> rows st /\
    fixedIndex st1 = (if negb c && bool_decide (fixedIndex st = Some i)
                      then None else fixedIndex st).
Proof.
  intros Hn Hi.
  destruct (lookup_lt_is_Some_2 (rows st) i) as [r Hr]; [rewrite (proj1 Hn); exact Hi|].
  rewrite (onRChange_eq i c st v r Hr).
  set (r' := {| odds := odds r; stake := stake r; R := c; manual := manual r |}).
  set (st2 := {| n := n st; fixedIndex := _; bank := bank st; rows := <[i := r']> (rows st) |}).
  assert (Hn2 : normal st2) by (apply released_normal; [exact i|exact Hn|apply length_insert]).
  destruct (pass_exists st2 v) as (st1 & v1 & out & Hpass).
  destruct (pass_fields st2 st1 v v1 out Hn2 Hpass) as (Ho1 & HR1 & Hm1).
  destruct (pass_rows st2 st1 v v1 out Hn2 Hpass) as (_ & Hf1 & _).
  exists st1, v1, out. split; [exact Hpass|].
  rewrite Ho1, HR1, Hm1, Hf1. cbn [rows fixedIndex st2].
  rewrite !list_fmap_insert. cbn [odds R manual r'].
  split; [reflexivity|].
  split; [apply list_insert_id; rewrite list_lookup_fmap, Hr; reflexivity|].
  split; [apply list_insert_id; rewrite list_lookup_fmap, Hr; reflexivity|].
  reflexivity.
Qed.

(** *** The F box *)

Lemma pass_fixed_verdict (st st1 : State N) (v v1 : View N) (out : Output N) (j : nat) (fr : Row N) :
  normal st -> recalcAndPaint st v = Some (st1, v1, out) ->
  fixedIndex st = Some j -> rows st !! j = Some fr ->
  out_roiRow out = j /\
  (out_ok out = true ->
     R fr = true /\ isNum (stake fr) = true /\ (stake fr <=? n_zero) = false).
Proof.
  intros Hn Hpass Hj Hfr. rewrite (pass_normal st v Hn) in Hpass. unfold metrics in Hpass.
  injection Hpass as _ _ <-. cbn [out_roiRow out_ok fixedIndex readBank]. rewrite Hj.
  split; [reflexivity|].
  intros Hok. apply andb_true_iff in Hok. destruct Hok as [_ Hfix].
  unfold fixedGood in Hfix. rewrite Hfr in Hfix.
  apply andb_true_iff in Hfix. destruct Hfix as [HR Hs].
  apply negb_true_iff, orb_false_iff in Hs. destruct Hs as [Hnum Hle].
  apply negb_false_iff in Hnum. auto.
Qed.

(** X10: ticking the F box of row [i] returns and fixes row [i] whatever
    the row is: the pass leaves the row as it was (its stake is not the
    solver's), clears the manual flag of every other row, and takes row [i]
    for the ROI; the position is then valid only if row [i] is a recipient
    whose stake is a finite number above 0.  Unticking the F box releases the
    fixed index if it was [i], and else leaves it. *)
Theorem fix_box_fixes_any_row (i : nat) (st : State N) (v : View N) :
  normal st -> (i < n st)%nat ->
  (exists st1 v1 out r,
     onFChange i true st v = Some (st1, v1, out) /\
     rows st !! i = Some r /\
     fixedIndex st1 = Some i /\
     rows st1 !! i = Some r /\
     (forall k r1, k <> i -> rows st1 !! k = Some r1 -> manual r1 = false) /\
     out_roiRow out = i /\
     (out_ok out = true ->
        R r = true /\ isNum (stake r) = true /\ (stake r <=? n_zero) = false)) /\
  (exists st1 v1 out,
     onFChange i false st v = Some (st1, v1, out) /\
     fixedIndex st1 = (if bool_decide (fixedIndex st = Some i) then None else fixedIndex st) /\
     manual <$> rows st1 = manual <$> rows st).
Proof.
  intros Hn Hi.
  destruct (lookup_lt_is_Some_2 (rows st) i) as [r Hr]; [rewrite (proj1 Hn); exact Hi|].
  split.
  - unfold onFChange. cbn [setFixedIndex n fixedIndex bank rows].
    set (st2 := {| n := n st; fixedIndex := Some i; bank := bank st;
                   rows := clearManualExcept (Some i) (rows st) |}).
    assert (Hn2 : normal st2).
    { split; cbn [rows n fixedIndex st2].
      - rewrite clearManualExcept_length. apply Hn.
      - intros j [= <-]. exact Hi. }
    assert (Hr2 : rows st2 !! i = Some r).
    { cbn [rows st2]. rewrite (clearManualExcept_kept (Some i) (rows st) i eq_refl).
      exact Hr. }
    destruct (pass_exists st2 v) as (st1 & v1 & out & Hpass).
    destruct (pass_rows st2 st1 v v1 out Hn2 Hpass) as (Hrows & Hf1 & _).
    destruct (pass_fields st2 st1 v v1 out Hn2 Hpass) as (_ & _ & Hm1).
    destruct (pass_fixed_verdict st2 st1 v v1 out i r Hn2 Hpass eq_refl Hr2) as [Hroi Hok].
    exists st1, v1, out, r. split; [exact Hpass|]. split; [exact Hr|].
    split; [exact Hf1|].
    split.
    { rewrite Hrows, (mergeSuggested_fixed (readBank st2 v) _ _ i eq_refl). exact Hr2. }
    split; [|auto].
    intros k r1 Hk Hr1.
    assert (Hm : (manual <$> rows st1) !! k = Some (manual r1))
      by (rewrite list_lookup_fmap, Hr1; reflexivity).
    rewrite Hm1, list_lookup_fmap in Hm. cbn [rows st2] in Hm.
    destruct (clearManualExcept (Some i) (rows st) !! k) as [r2|] eqn:Hr2'; [|discriminate].
    injection Hm as <-. eapply (clearManualExcept_cleared (Some i)); [|exact Hr2'].
    congruence.
  - unfold onFChange.
    set (st2 := if bool_decide (fixedIndex st = Some i) then setFixedIndex None st else st).
    assert (Hn2 : normal st2).
    { unfold st2. destruct (bool_decide _); [|exact Hn].
      apply setFixedIndex_normal; [exact Hn|discriminate]. }
    destruct (pass_exists st2 v) as (st1 & v1 & out & Hpass).
    destruct (pass_rows st2 st1 v v1 out Hn2 Hpass) as (_ & Hf1 & _).
    destruct (pass_fields st2 st1 v v1 out Hn2 Hpass) as (_ & _ & Hm1).
    exists st1, v1, out. split; [exact Hpass|].
    rewrite Hf1, Hm1. unfold st2. destruct (bool_decide _); auto.
Qed.

(** *** The number of outcomes *)

Lemma renderRowsOnce_normal (st : State N) (v : View N) :
  normal st -> renderRowsOnce st v = Some (rebuiltView v).
Proof.
  intros [Hlen _]. unfold renderRowsOnce. rewrite Hlen, Nat.leb_refl. reflexivity.
Qed.

Lemma setN_eq (k : nat) (st : State N) (v : View N) :
  setN k st v
  = recalcAndPaint
      (ensureRows {| n := k; fixedIndex := fixedIndex st; bank := bank st; rows := rows st |})
      (rebuiltView v).
Proof.
  unfold setN. cbv zeta. rewrite renderRowsOnce_normal by apply ensureRows_normal.
  reflexivity.
Qed.

Lemma rebuiltView_no_stake (v : View N) (i : nat) : focus (rebuiltView v) <> FocusStake i.
Proof. unfold rebuiltView. cbn [focus]. destruct (focus v); discriminate. Qed.

Lemma fields_lookup (rs rs' : list (Row N)) (i : nat) (r : Row N) :
  odds <$> rs' = odds <$> rs -> R <$> rs' = R <$> rs -> manual <$> rs' = manual <$> rs ->
  rs !! i = Some r ->
  exists r', rs' !! i = Some r' /\ odds r' = odds r /\ R r' = R r /\ manual r' = manual r.
Proof.
  intros Ho HR Hm Hr.
  assert (Ho' : (odds <$> rs') !! i = Some (odds r))
    by (rewrite Ho, list_lookup_fmap, Hr; reflexivity).
  assert (HR' : (R <$> rs') !! i = Some (R r))
    by (rewrite HR, list_lookup_fmap, Hr; reflexivity).
  assert (Hm' : (manual <$> rs') !! i = Some (manual r))
    by (rewrite Hm, list_lookup_fmap, Hr; reflexivity).
  rewrite list_lookup_fmap in Ho'. rewrite list_lookup_fmap in HR'.
  rewrite list_lookup_fmap in Hm'.
  destruct (rs' !! i) as [r'|]; [|discriminate].
  exists r'. simpl in *. split; [reflexivity|]. repeat split; congruence.
Qed.

(** What [setN] leaves, whatever the state. *)
Lemma setN_rows (k : nat) (st : State N) (v : View N) :
  exists st1 v1 out,
    setN k st v = Some (st1, v1, out) /\
    n st1 = k /\ length (rows st1) = k /\
    (forall i r, (i < k)%nat -> rows st !! i = Some r ->
       exists r1, rows st1 !! i = Some r1 /\
                  odds r1 = odds r /\ R r1 = R r /\ manual r1 = manual r) /\
    (forall i, (length (rows st) <= i < k)%nat ->
       exists r1, rows st1 !! i = Some r1 /\
                  odds r1 = n_two /\ R r1 = true /\ manual r1 = false) /\
    (forall j, fixedIndex st1 = Some j <-> fixedIndex st = Some j /\ (j < k)%nat) /\
    (forall i, focus v1 <> FocusStake i).
Proof.
  set (st0 := {| n := k; fixedIndex := fixedIndex st; bank := bank st; rows := rows st |}).
  set (st2 := ensureRows st0).
  assert (Hn2 : normal st2) by apply ensureRows_normal.
  destruct (pass_exists st2 (rebuiltView v)) as (st1 & v1 & out & Hpass).
  destruct (pass_rows st2 st1 _ v1 out Hn2 Hpass) as (Hrows & Hf1 & Hn1).
  destruct (pass_fields st2 st1 _ v1 out Hn2 Hpass) as (Ho1 & HR1 & Hm1).
  exists st1, v1, out. split; [rewrite setN_eq; exact Hpass|].
  split; [exact Hn1|].
  split; [rewrite Hrows, mergeSuggested_length; apply (ensureRows_length st0)|].
  split.
  { intros i r Hi Hr.
    apply (fields_lookup (rows st2) (rows st1) i r Ho1 HR1 Hm1).
    apply (ensureRows_lookup st0 i r Hr Hi). }
  split.
  { intros i Hi.
    destruct (fields_lookup (rows st2) (rows st1) i defaultRow Ho1 HR1 Hm1
                (ensureRows_padding st0 i Hi)) as (r1 & Hr1 & Ho & HR & Hm).
    exists r1. auto. }
  split.
  { intros j. rewrite Hf1. apply (ensureRows_fixed st0). }
  intros i. rewrite (pass_normal st2 _ Hn2) in Hpass. unfold metrics in Hpass.
  injection Hpass as _ <- _. cbn [focus]. apply rebuiltView_no_stake.
Qed.

(** X11: choosing [k] outcomes returns on every state; the state then has
    [k] rows: a row below [k] keeps its odds and flags, a row added has
    odds 2, is a recipient and is not manual; the fixed index survives
    exactly when it is below [k]; and no stake field has the focus in the
    pass. *)
Theorem setN_keeps_the_first_rows (k : nat) (st : State N) (v : View N) :
  exists st1 v1 out,
    setN k st v = Some (st1, v1, out) /\
    n st1 = k /\ length (rows st1) = k /\
    (forall i r, (i < k)%nat -> rows st !! i = Some r ->
       exists r1, rows st1 !! i = Some r1 /\
                  odds r1 = odds r /\ R r1 = R r /\ manual r1 = manual r) /\
    (forall i, (length (rows st) <= i < k)%nat ->
       exists r1, rows st1 !! i = Some r1 /\
                  odds r1 = n_two /\ R r1 = true /\ manual r1 = false) /\
    (forall j, fixedIndex st1 = Some j <-> fixedIndex st = Some j /\ (j < k)%nat) /\
    (forall i, focus v1 <> FocusStake i).
Proof. apply setN_rows. Qed.

(** X12: rows dropped by choosing fewer outcomes are not restored by
    choosing more again: after [setN k] and then [setN m], every row from
    [k] on is a fresh row (odds 2, recipient, not manual), whatever the
    state held there before, and a fixed index that was at [k] or above
    stays released. *)
Theorem setN_forgets_dropped_rows (k m : nat) (st : State N) (v v' : View N) :
  exists st1 v1 out1 st2 v2 out2,
    setN k st v = Some (st1, v1, out1) /\
    setN m st1 v' = Some (st2, v2, out2) /\
    (forall i, (k <= i < m)%nat ->
       exists r2, rows st2 !! i = Some r2 /\
                  odds r2 = n_two /\ R r2 = true /\ manual r2 = false) /\
    (forall j, fixedIndex st2 = Some j -> fixedIndex st = Some j /\ (j < k)%nat).
Proof.
  destruct (setN_rows k st v) as (st1 & v1 & out1 & Hs1 & _ & Hlen1 & _ & _ & Hf1 & _).
  destruct (setN_rows m st1 v') as (st2 & v2 & out2 & Hs2 & _ & _ & _ & Hnew & Hf2 & _).
  exists st1, v1, out1, st2, v2, out2.
  split; [exact Hs1|]. split; [exact Hs2|].
  split.
  - intros i Hi. apply Hnew. lia.
  - intros j Hj. apply Hf2 in Hj. destruct Hj as [Hj _]. apply Hf1, Hj.
Qed.
End HandlerFacts3.

(** ** The states the page reaches *)

Section Reach.
Context {N : Type} `{JsNumber N}.
Local Open Scope js_scope.

Lemma init_eq (st : State N) (v : View N) :
  init st v
  = recalcAndPaint
      (ensureRows {| n := n st; fixedIndex := fixedIndex st; bank := bank st;
                     rows := [defaultRow; defaultRow] |})
      (rebuiltView v).
Proof.
  unfold init. cbv zeta. rewrite renderRowsOnce_normal by apply ensureRows_normal.
  reflexivity.
Qed.

(** The states of the page: what [init] leaves of the declared state [s0],
    and what a listener of the page leaves of such a state, whatever the
    fields hold and wherever the focus is. *)
Inductive Reachable (s0 : State N) : State N -> Prop :=
| reach_init (v : View N) (st1 : State N) (v1 : View N) (out : Output N) :
    init s0 v = Some (st1, v1, out) -> Reachable s0 st1
| reach_step (st : State N) (e : Event) (v : View N)
             (st1 : State N) (v1 : View N) (out : Output N) :
    Reachable s0 st -> onPage e st -> handle e st v = Some (st1, v1, out) ->
    Reachable s0 st1.

(** Every listener ends in a pass. *)
Lemma handle_pass (e : Event) (st st1 : State N) (v v1 : View N) (out : Output N) :
  handle e st v = Some (st1, v1, out) ->
  exists st2 v2, recalcAndPaint st2 v2 = Some (st1, v1, out).
Proof.
  destruct e as [i x|i x|i c|i c| |k]; cbn [handle].
  - unfold onOddsInput. destruct (updateRow _ _ st) as [st2|]; [|discriminate]. eauto.
  - unfold onStakeInput. destruct (updateRow _ _ st) as [st2|]; [|discriminate].
    cbn [mbind option_bind]. destruct (updateRow _ _ st2) as [st3|]; [|discriminate]. eauto.
  - unfold onRChange. destruct (updateRow _ _ st) as [st2|]; [|discriminate].
    cbn [mbind option_bind]. destruct (rows st2 !! i) as [r|]; [|discriminate]. eauto.
  - unfold onFChange. eauto.
  - unfold onBankInput. eauto.
  - rewrite setN_eq. eauto.
Qed.

Lemma handle_returns (e : Event) (st : State N) (v : View N) :
  normal st -> onPage e st -> exists st1 v1 out, handle e st v = Some (st1, v1, out).
Proof.
  intros Hn He.
  destruct e as [i x|i x|i c|i c| |k]; cbn [handle onPage] in *;
    try (destruct (lookup_lt_is_Some_2 (rows st) i) as [r Hr];
         [rewrite (proj1 Hn); exact He|]).
  - rewrite (onOddsInput_eq i x st v r Hr). apply pass_exists.
  - rewrite (onStakeInput_eq i x st v r Hr). apply pass_exists.
  - rewrite (onRChange_eq i c st v r Hr). apply pass_exists.
  - apply pass_exists.
  - apply pass_exists.
  - rewrite setN_eq. apply pass_exists.
Qed.

(** X13: every state the page reaches has exactly [n] rows and a fixed
    index, if any, below [n]; so in every such state each listener of the
    page returns: none reads a missing row. *)
Theorem reachable_states_are_normal (s0 st : State N) :
  Reachable s0 st ->
  normal st /\
  forall e v, onPage e st -> exists st1 v1 out, handle e st v = Some (st1, v1, out).
Proof.
  intros Hreach.
  assert (Hn : normal st).
  { destruct Hreach as [v st1 v1 out Hinit|st e v st1 v1 out _ _ Hstep].
    - rewrite init_eq in Hinit. apply (pass_result_normal _ _ _ _ _ Hinit).
    - destruct (handle_pass e st st1 v v1 out Hstep) as (st2 & v2 & Hpass).
      apply (pass_result_normal _ _ _ _ _ Hpass). }
  split; [exact Hn|]. intros e v He. apply handle_returns; assumption.
Qed.

(** *** The fixed row and the recipient flag *)

(** The fixed row, if any, is a recipient. *)
Definition fixedOnRecipient (st : State N) : Prop :=
  forall j, fixedIndex st = Some j -> (R <$> rows st) !! j = Some true.

Lemma pass_fixedOnRecipient (st st1 : State N) (v v1 : View N) (out : Output N) :
  normal st -> recalcAndPaint st v = Some (st1, v1, out) ->
  fixedOnRecipient st -> fixedOnRecipient st1.
Proof.
  intros Hn Hpass Hfix j Hj.
  destruct (pass_rows st st1 v v1 out Hn Hpass) as (_ & Hf1 & _).
  destruct (pass_fields st st1 v v1 out Hn Hpass) as (_ & HR1 & _).
  rewrite HR1. apply Hfix. congruence.
Qed.

(** X14: no listener but the F box can leave a fixed row that is not a
    recipient: if the fixed row (if any) is a recipient before an edit of
    odds, stake, recipient box or bankroll, an unticking of an F box, or a
    change of the number of outcomes, it is one after. *)
Theorem fixed_row_stays_a_recipient
  (e : Event) (st st1 : State N) (v v1 : View N) (out : Output N) :
  normal st -> onPage e st -> fixedOnRecipient st ->
  (forall i, e <> FChange i true) ->
  handle e st v = Some (st1, v1, out) ->
  fixedOnRecipient st1.
Proof.
  intros Hn He Hfix Hnot Hstep.
  destruct e as [i x|i x|i c|i c| |k]; cbn [handle onPage] in *;
    try (destruct (lookup_lt_is_Some_2 (rows st) i) as [r Hr];
         [rewrite (proj1 Hn); exact He|]).
  - rewrite (onOddsInput_eq i x st v r Hr) in Hstep.
    refine (pass_fixedOnRecipient _ _ _ _ _ _ Hstep _).
    + apply setRows_normal; [exact Hn|apply length_insert].
    + intros j Hj. cbn [rows setRows]. rewrite list_fmap_insert. cbn [R].
      rewrite list_insert_id by (rewrite list_lookup_fmap, Hr; reflexivity).
      apply Hfix, Hj.
  - rewrite (onStakeInput_eq i x st v r Hr) in Hstep.
    refine (pass_fixedOnRecipient _ _ _ _ _ _ Hstep _).
    + apply setRows_normal; [exact Hn|apply length_insert].
    + intros j Hj. cbn [rows setRows]. rewrite list_fmap_insert. cbn [R].
      rewrite list_insert_id by (rewrite list_lookup_fmap, Hr; reflexivity).
      apply Hfix, Hj.
  - rewrite (onRChange_eq i c st v r Hr) in Hstep.
    refine (pass_fixedOnRecipient _ _ _ _ _ _ Hstep _).
    + apply released_normal; [exact i|exact Hn|apply length_insert].
    + intros j Hj. cbn [rows fixedIndex] in *. rewrite list_fmap_insert. cbn [R].
      destruct (decide (j = i)) as [->|Hji].
      * destruct c.
        -- apply list_lookup_insert_eq. rewrite length_fmap. eapply lookup_lt_Some, Hr.
        -- simpl in Hj. destruct (bool_decide (fixedIndex st = Some i)) eqn:Hb;
             [discriminate|]. apply bool_decide_eq_false in Hb. contradiction.
      * rewrite list_lookup_insert_ne by congruence.
        apply Hfix. destruct (negb c && _); [discriminate|exact Hj].
  - destruct c; [exfalso; apply (Hnot i); reflexivity|].
    unfold onFChange in Hstep.
    refine (pass_fixedOnRecipient _ _ _ _ _ _ Hstep _).
    + destruct (bool_decide _); [|exact Hn].
      apply setFixedIndex_normal; [exact Hn|discriminate].
    + destruct (bool_decide _); [intros j Hj; discriminate|exact Hfix].
  - unfold onBankInput in Hstep.
    refine (pass_fixedOnRecipient _ _ _ _ _ _ Hstep _).
    + split; cbn [rows n fixedIndex];
        [rewrite clearManualExcept_length; apply Hn|apply Hn].
    + intros j Hj. cbn [rows fixedIndex] in *.
      destruct (clearManualExcept_fields (fixedIndex st) (rows st)) as (_ & -> & _).
      apply Hfix, Hj.
  - rewrite setN_eq in Hstep.
    refine (pass_fixedOnRecipient _ _ _ _ _ (ensureRows_normal _) Hstep _).
    intros j Hj. apply ensureRows_fixed in Hj. cbn [fixedIndex n] in Hj.
    destruct Hj as [Hj Hjk].
    specialize (Hfix j Hj). rewrite list_lookup_fmap in Hfix.
    destruct (rows st !! j) as [fr|] eqn:Hfr; [|discriminate].
    rewrite list_lookup_fmap.
    rewrite (ensureRows_lookup {| n := k; fixedIndex := fixedIndex st; bank := bank st;
                                  rows := rows st |} j fr Hfr Hjk).
    exact Hfix.
Qed.

(** *** The F boxes *)

(** X15: [syncFixedCheckboxesUI] does nothing on a page without rows
    element; else it leaves every F box of the page checked exactly when its
    index is the fixed index, whatever the boxes showed: at most one box is
    checked. *)
Theorem at_most_one_fix_box_is_checked (st : State N) (fEls : list bool) :
  syncFixedCheckboxesUI st None = None /\
  exists boxes,
    syncFixedCheckboxesUI st (Some fEls) = Some boxes /\
    length boxes = length fEls /\
    (forall idx, (idx < length fEls)%nat ->
       boxes !! idx = Some (bool_decide (fixedIndex st = Some idx))) /\
    (forall i j, boxes !! i = Some true -> boxes !! j = Some true -> i = j).
Proof.
  split; [reflexivity|].
  eexists. split; [reflexivity|].
  split; [apply length_imap|].
  assert (Hlook : forall idx b,
            imap (fun idx _ => bool_decide (fixedIndex st = Some idx)) fEls !! idx = Some b ->
            b = bool_decide (fixedIndex st = Some idx)).
  { intros idx b. rewrite list_lookup_imap. destruct (fEls !! idx); [|discriminate].
    simpl. congruence. }
  split.
  - intros idx Hidx. rewrite list_lookup_imap.
    destruct (lookup_lt_is_Some_2 fEls idx Hidx) as [b ->]. reflexivity.
  - intros i j Hi Hj. apply Hlook in Hi, Hj.
    symmetry in Hi, Hj. apply bool_decide_eq_true in Hi, Hj. congruence.
Qed.
End Reach.

(** ** What the solvers read, and what the pass writes *)

Section SolverFrame.
Context {N : Type} `{JsNumber N}.
Local Open Scope js_scope.

Lemma suggestFromBank_nonrecipient (b : N) (rs : list (Row N)) (i : nat) (r : Row N) :
  rs !! i = Some r -> R r = false ->
  suggestFromBank b rs !! i
  = Some (round2 (n_max n_zero
                    (if odds r <=? n_zero then n_zero
                     else n_max n_zero (orZero b) / odds r))).
Proof.
  intros Hr HR. rewrite suggestFromBank_eq. cbv zeta.
  assert (Hbase : (rowStake (bankT b) (bankK b rs) <$> rs) !! i
                  = Some (round2 (n_max n_zero
                                    (if odds r <=? n_zero then n_zero
                                     else n_max n_zero (orZero b) / odds r)))).
  { rewrite list_lookup_fmap, Hr. cbn [fmap option_fmap option_map].
    unfold rowStake. rewrite HR. reflexivity. }
  destruct (n_abs _ >=? n_cent); [|exact Hbase].
  destruct (findIndex R rs) as [k|] eqn:Hk; [|exact Hbase].
  rewrite list_lookup_alter_ne; [exact Hbase|].
  intros ->. destruct (findIndex_Some R rs i Hk) as (x & Hx & HRx & _). congruence.
Qed.

(** X16: the bankroll solver gives a row that is not a recipient the stake
    round2(max(0, T / odds)), with T = max(0, bankroll || 0), or 0 when its
    odds are at most 0: the residual correction never lands on it, and
    neither the other rows nor K enter its stake. *)
Theorem nonrecipient_stake_is_bankroll_over_odds (b : N) (rs : list (Row N)) (i : nat) (r : Row N) :
  rs !! i = Some r -> R r = false ->
  suggestFromBank b rs !! i
  = Some (round2 (n_max n_zero
                    (if odds r <=? n_zero then n_zero
                     else n_max n_zero (orZero b) / odds r))).
Proof. apply suggestFromBank_nonrecipient. Qed.

(** X17: the solvers read the odds and the recipient flags of the rows,
    and the fixed-row solver the stake of the fixed row besides: two row
    lists that agree on these get the same suggestion, whatever stakes and
    manual flags the other rows hold. *)
Theorem solvers_ignore_other_stakes (b : N) (rs rs' : list (Row N)) :
  odds <$> rs = odds <$> rs' -> R <$> rs = R <$> rs' ->
  suggestFromBank b rs = suggestFromBank b rs' /\
  forall j, stake <$> rs !! j = stake <$> rs' !! j ->
            suggestFromFixedRow j rs = suggestFromFixedRow j rs'.
Proof.
  intros Ho HR. split; [apply suggestFromBank_ext; assumption|].
  intros j Hs. unfold suggestFromFixedRow.
  assert (HRj : R <$> rs !! j = R <$> rs' !! j)
    by (rewrite <- !list_lookup_fmap, HR; reflexivity).
  destruct (rs !! j) as [fr|], (rs' !! j) as [fr'|]; try discriminate HRj; [|reflexivity].
  simpl in HRj, Hs. injection HRj as HRj. injection Hs as Hs.
  rewrite Ho, HR, HRj, Hs. reflexivity.
Qed.

(** X18: with a fixed row that is a recipient, the bankroll in the bank
    field is not used: two passes over the same state with different texts
    in the bank field (and the same focus) leave the same rows and paint the
    same total, payouts, profits, inverse-odds sum, arbitrage flag and
    ROI. *)
Theorem fixed_mode_ignores_the_bank_field
  (st : State N) (v v' : View N) (j : nat) (fr : Row N) :
  normal st -> fixedIndex st = Some j -> rows st !! j = Some fr -> R fr = true ->
  focus v' = focus v ->
  exists st1 v1 out st1' v1' out',
    recalcAndPaint st v = Some (st1, v1, out) /\
    recalcAndPaint st v' = Some (st1', v1', out') /\
    rows st1' = rows st1 /\ figures out' = figures out.
Proof.
  intros Hn Hj Hfr HR Hfoc.
  assert (Hsg : forall w, suggest (readBank st w)
                          = <[j := round2 (n_max n_zero (orZero (stake fr)))]>
                              (rowStake (fixedTK fr j (rows st)).1 (fixedTK fr j (rows st)).2
                                 <$> rows st)).
  { intros w. unfold suggest. cbn [fixedIndex rows readBank]. rewrite Hj.
    rewrite (suggestFromFixedRow_eq j (rows st) fr Hfr HR). reflexivity. }
  eexists _, _, _, _, _, _.
  split; [apply (pass_normal st v Hn)|].
  split; [apply (pass_normal st v' Hn)|].
  unfold metrics, figures.
  cbn [rows out_total out_payouts out_profits out_sInv out_isArb out_roiRow out_roi
       fixedIndex readBank].
  rewrite !Hsg, Hfoc.
  assert (Hm : forall w sg, mergeSuggested (readBank st w) (focus v) sg
                            = mergeSuggested st (focus v) sg) by reflexivity.
  rewrite !Hm. split; reflexivity.
Qed.
End SolverFrame.

Section ValidRows.
Context {N : Type} `{JsNumberLaws N}.
Local Open Scope js_scope.

(** X19: the pass never spoils a row: a row that passes the validator's
    row checks (odds finite, above 1 and below 100000; stake finite and at
    least 0) when the pass starts passes them when it ends; a NaN or
    negative entry of the solver is never written into it. *)
Theorem pass_keeps_valid_rows_valid
  (st st1 : State N) (v v1 : View N) (out : Output N) (i : nat) (r : Row N) :
  recalcAndPaint st v = Some (st1, v1, out) ->
  rows (ensureRows st) !! i = Some r ->
  negb (oddsBad r) && negb (stakeBad r) = true ->
  exists r1, rows st1 !! i = Some r1 /\ negb (oddsBad r1) && negb (stakeBad r1) = true.
Proof.
  intros Hpass Hr Hgood.
  rewrite recalcAndPaint_eq in Hpass. cbv zeta in Hpass. unfold metrics in Hpass.
  injection Hpass as <- _ _. cbn [rows].
  rewrite mergeSuggested_lookup. cbn [rows fixedIndex readBank]. rewrite Hr.
  eexists. split; [reflexivity|].
  apply (mergeRow_good (fixedIndex (ensureRows st)) (focus v) _ i r); [|exact Hgood].
  intros x Hx. eapply suggest_clamped, Hx.
Qed.
End ValidRows.

(** ** On binary64: the bankroll the solver reads, and the sign of the total *)

Section Binary64.
Import F64 F64Facts.
Local Open Scope float_scope.

(** [Math.max(0, Number(x) || 0)] on binary64. *)
Lemma clamp_or_zero (x : float) :
  n_max n_zero (orZero x) = if 0 <? x then x else 0.
Proof.
  unfold orZero. cbn [n_truthy n_max n_zero float_number]. unfold truthy.
  rewrite is_nan_spec, is_zero_spec.
  destruct (max_zero_cases x) as [[Hn Hm]|[(Hn & Hlt & Hm)|(Hn & Hlt & Hm)]].
  - rewrite Hn. cbn [orb negb].
    assert (Hlt : (0 <? x) = false).
    { rewrite ltb_zero_spec. destruct (Prim2SF x); try discriminate Hn. reflexivity. }
    rewrite Hlt. reflexivity.
  - rewrite Hn, Hlt. cbn [orb].
    assert (Hz : match Prim2SF x with S754_zero _ => true | _ => false end = false).
    { rewrite ltb_zero_spec in Hlt. destruct (Prim2SF x); try discriminate Hlt; reflexivity. }
    rewrite Hz. exact Hm.
  - rewrite Hn, Hlt. cbn [orb].
    destruct (match Prim2SF x with S754_zero _ => true | _ => false end);
      cbn [negb]; [reflexivity|exact Hm].
Qed.

(** X20: on binary64 the bankroll the solver works with, T = Math.max(0,
    Number(bank) || 0), is the bankroll when that is above 0 (Infinity
    included) and 0 in every other case: NaN, a zero of either sign, a
    negative number, -Infinity.  The fixed-row solver reads the fixed stake
    in the same way. *)
Theorem bankroll_read_by_the_solver (b : float) :
  bankT b = (if 0 <? b then b else 0) /\
  forall (fr : Row float) (j : nat) (rs : list (Row float)),
    rs !! j = Some fr -> R fr = true ->
    exists s, suggestFromFixedRow j rs = Some s /\
              s !! j = Some (round2 (if 0 <? stake fr then stake fr else 0)).
Proof.
  split; [apply clamp_or_zero|].
  intros fr j rs Hfr HR.
  rewrite (suggestFromFixedRow_eq j rs fr Hfr HR). eexists. split; [reflexivity|].
  rewrite list_lookup_insert_eq
    by (rewrite length_fmap; eapply lookup_lt_Some, Hfr).
  rewrite clamp_or_zero. reflexivity.
Qed.

Lemma zero_div_pos (o : float) : (0 <? o) = true -> 0 / o = 0.
Proof.
  intros Ho. rewrite ltb_zero_spec in Ho. apply Prim2SF_inj.
  rewrite div_spec. change (Prim2SF 0) with (S754_zero false).
  destruct (Prim2SF o) as [s|s| |s m e]; try discriminate Ho;
    destruct s; try discriminate Ho; reflexivity.
Qed.

(** X21: on binary64, when the bankroll read from the bank field is not
    above 0 (a text that is no number, 0, a negative number), the bankroll
    solver suggests the stake 0 for every row that is not a recipient and
    whose odds are not NaN. *)
Theorem no_bankroll_no_stake (b : float) (rs : list (Row float)) (i : nat) (r : Row float) :
  (0 <? b) = false -> rs !! i = Some r -> R r = false -> is_nan (odds r) = false ->
  suggestFromBank b rs !! i = Some 0.
Proof.
  intros Hb Hr HR Hnan.
  rewrite (suggestFromBank_nonrecipient b rs i r Hr HR). f_equal.
  rewrite clamp_or_zero, Hb.
  destruct (n_leb (odds r) n_zero) eqn:Hle; [reflexivity|].
  rewrite zero_div_pos; [reflexivity|].
  pose proof (law_leb_ltb (odds r) n_zero Hnan law_nan_zero) as Hlt.
  rewrite Hle in Hlt. symmetry in Hlt. apply negb_false_iff in Hlt. exact Hlt.
Qed.

(** *** The total is never NaN and never negative *)

Lemma SFmul_pos_finite (x : spec_float) (m : positive) (e : Z) :
  sf_pos x = true -> sf_pos (SFmul prec emax x (S754_finite false m e)) = true.
Proof.
  intros Hx.
  destruct x as [[]|[]| |[] mx ex]; try discriminate Hx; try reflexivity.
  unfold SFmul. cbv beta iota zeta.
  apply has_sign_pos, binary_round_aux_sign. lia.
Qed.

Lemma SFdiv_pos_finite (x : spec_float) (m : positive) (e : Z) :
  sf_pos x = true -> sf_pos (SFdiv prec emax x (S754_finite false m e)) = true.
Proof.
  intros Hx.
  destruct x as [[]|[]| |[] mx ex]; try discriminate Hx; try reflexivity.
  unfold SFdiv. cbv beta iota zeta.
  pose proof (SFdiv_core_nonneg mx m ex e) as Hq.
  destruct (SFdiv_core_binary prec emax (Z.pos mx) ex (Z.pos m) e) as [[mz ez] lz].
  simpl in Hq. apply has_sign_pos, binary_round_aux_sign, Hq.
Qed.

Lemma round_pos (x : float) : sf_pos (Prim2SF x) = true -> sf_pos (Prim2SF (round x)) = true.
Proof.
  intros Hx. unfold round.
  destruct (Prim2SF x) as [s|s| |s m e] eqn:Hsf; try (rewrite Hsf; exact Hx).
  destruct (0 <=? e)%Z eqn:He; [rewrite Hsf; exact Hx|]. apply Z.leb_gt in He.
  destruct s; [discriminate Hx|]. simpl cond_Zopp.
  assert (Hr : (0 <= (2 * Z.pos m + 2 ^ (- e)) / 2 ^ (1 - e))%Z).
  { apply Z.div_pos.
    - pose proof (Z.pow_nonneg 2 (- e)). lia.
    - apply Z.pow_pos_nonneg; lia. }
  destruct ((2 * Z.pos m + 2 ^ (- e)) / 2 ^ (1 - e))%Z as [|p|p]; [reflexivity| |lia].
  rewrite of_uint63_spec. apply has_sign_pos, binary_normalize_sign.
  apply Uint63.to_Z_bounded.
Qed.

Lemma round2_pos (x : float) : sf_pos (Prim2SF x) = true -> sf_pos (Prim2SF (round2 x)) = true.
Proof.
  intros Hx. unfold round2. cbn [n_round n_add n_mul n_div n_epsilon n_hundred float_number].
  rewrite div_spec. change (Prim2SF 100) with (S754_finite false 7036874417766400 (-46)).
  apply SFdiv_pos_finite, round_pos.
  rewrite mul_spec. change (Prim2SF 100) with (S754_finite false 7036874417766400 (-46)).
  apply SFmul_pos_finite. rewrite add_spec. apply SFadd_pos; [exact Hx|reflexivity].
Qed.

Lemma stake_term_pos (s : float) :
  sf_pos (Prim2SF (if isNum s then n_max n_zero s else n_zero)) = true.
Proof.
  destruct (isNum s) eqn:Hnum; [|reflexivity].
  assert (Hn : is_nan s = false).
  { unfold isNum in Hnum. apply andb_true_iff in Hnum. destruct Hnum as [_ Hn].
    apply negb_true_iff in Hn. exact Hn. }
  cbn [n_max n_zero float_number].
  destruct (max_zero_cases s) as [[Hn' _]|[(_ & Hlt & ->)|(_ & _ & ->)]].
  - rewrite <- is_nan_spec in Hn'. congruence.
  - rewrite ltb_zero_spec in Hlt.
    destruct (Prim2SF s) as [[]|[]| |[] m e]; simpl in *; congruence.
  - reflexivity.
Qed.

Lemma sumStakes_pos (rs : list (Row float)) : sf_pos (Prim2SF (sumStakes rs)) = true.
Proof.
  unfold sumStakes. apply round2_pos.
  assert (Hacc : forall a, sf_pos (Prim2SF a) = true ->
            sf_pos (Prim2SF (foldl (fun s r => n_add s (if isNum (stake r)
                                                        then n_max n_zero (stake r)
                                                        else n_zero)) a rs)) = true).
  { induction rs as [|r rs IH]; intros a Ha; [exact Ha|].
    cbn [foldl]. apply IH. cbn [n_add float_number]. rewrite add_spec.
    apply SFadd_pos; [exact Ha|apply stake_term_pos]. }
  apply Hacc. reflexivity.
Qed.

(** X22: on binary64 the total a pass shows is never NaN and never
    negative, whatever the stakes of the rows (NaN, negative and infinite
    stakes count as 0); so the state's bankroll, when the pass writes the
    total back, is never NaN or negative either. *)
Theorem total_is_never_negative_nor_nan (st : State float) (v : View float) :
  exists st1 v1 out,
    recalcAndPaint st v = Some (st1, v1, out) /\
    out_total out = sumStakes (rows st1) /\
    is_nan (out_total out) = false /\ (0 <=? out_total out) = true /\
    (focus v <> FocusBank -> bank st1 = out_total out).
Proof.
  pose proof (recalcAndPaint_eq st v) as Heq. cbv zeta in Heq. unfold metrics in Heq.
  eexists _, _, _. split; [exact Heq|]. cbn [out_total rows bank].
  set (rows' := mergeSuggested _ _ _).
  pose proof (sumStakes_pos rows') as Hpos.
  split; [reflexivity|].
  split; [rewrite is_nan_spec; destruct (Prim2SF (sumStakes rows')) as [[]|[]| |[] m e];
          simpl in *; congruence|].
  split; [rewrite leb_zero_nn; apply sf_pos_nn, Hpos|].
  intros Hfoc. destruct (focus v); try reflexivity. congruence.
Qed.
End Binary64.

(** ** The validator on any state, the inverse-odds sum, and the first pass *)

Section RawStates.
Context {N : Type} `{JsNumber N}.
Local Open Scope js_scope.

Lemma validateRows_returns (rs : list (Row N)) (k i : nat) (ok : bool) (errors : list RowError) :
  is_Some (validateRows rs i k ok errors) <-> (k = 0 \/ i + k <= length rs)%nat.
Proof.
  revert i ok errors. induction k as [|k IH]; intros i ok errors; cbn [validateRows].
  - split; [intros _; left; reflexivity|intros _; eexists; reflexivity].
  - destruct (rs !! i) as [r|] eqn:Hr; cbn [mbind option_bind].
    + rewrite IH. apply lookup_lt_Some in Hr. lia.
    + apply lookup_ge_None in Hr. split; [intros [x Hx]; discriminate|lia].
Qed.

(** X23: [validate] raises exactly when the state has fewer than [n] rows
    (the loop reads a missing row) or the fixed index points at no row; on
    every other state it returns a verdict with one error record per row. *)
Theorem validate_raises_on_a_missing_row (st : State N) :
  (validate st = None <->
   (length (rows st) < n st)%nat \/
   exists j, fixedIndex st = Some j /\ (length (rows st) <= j)%nat) /\
  (forall ok errors, validate st = Some (ok, errors) -> length errors = length (rows st)).
Proof.
  unfold validate. cbv zeta.
  set (ok0 := if (length _ <? 1)%nat then false else _).
  set (errs0 := _ <$> rows st).
  pose proof (validateRows_returns (rows st) (n st) 0 ok0 errs0) as Hret.
  assert (Hlen : forall ok errors,
            validateRows (rows st) 0 (n st) ok0 errs0 = Some (ok, errors) ->
            length errors = length (rows st)).
  { assert (Hgen : forall k i ok1 errs1 ok errors,
              length errs1 = length (rows st) ->
              validateRows (rows st) i k ok1 errs1 = Some (ok, errors) ->
              length errors = length (rows st)).
    { induction k as [|k IH]; intros i ok1 errs1 ok errors Hl; cbn [validateRows].
      - intros [= _ <-]. exact Hl.
      - destruct (rows st !! i) as [r|]; [|discriminate]. cbn [mbind option_bind].
        apply IH. destruct (oddsBad r), (stakeBad r); rewrite ?length_alter; exact Hl. }
    intros ok errors. apply Hgen. unfold errs0. apply length_fmap. }
  destruct (validateRows (rows st) 0 (n st) ok0 errs0) as [[ok errors]|] eqn:Hloop;
    cbn [mbind option_bind].
  - assert (Hn : (n st <= length (rows st))%nat).
    { destruct (proj1 Hret (mk_is_Some _ _ eq_refl)) as [Hz|Hle]; lia. }
    specialize (Hlen ok errors eq_refl).
    destruct (fixedIndex st) as [j|].
    + destruct (rows st !! j) as [fr|] eqn:Hfr; cbn [mbind option_bind].
      * apply lookup_lt_Some in Hfr. split.
        -- split; [discriminate|]. intros [Hlt|(j' & [= <-] & Hj)]; lia.
        -- intros ok' errors' [= _ <-]. exact Hlen.
      * apply lookup_ge_None in Hfr. split.
        -- split; [intros _; right; eauto|reflexivity].
        -- discriminate.
    + split.
      * split; [discriminate|]. intros [Hlt|(j' & Hj' & _)]; [lia|discriminate].
      * intros ok' errors' [= _ <-]. exact Hlen.
  - split; [|discriminate]. split; [|reflexivity]. intros _. left.
    destruct (Nat.lt_ge_cases (length (rows st)) (n st)) as [Hlt|Hge]; [exact Hlt|].
    destruct (proj2 Hret (or_intror Hge)) as [x Hx]. discriminate.
Qed.

(** The state the script declares, with [b] for its bankroll (1000). *)
Definition declaredState (b : N) : State N :=
  {| n := 2; fixedIndex := None; bank := b; rows := [] |}.

(** X26: [init] returns; it leaves two rows with odds 2, both recipients,
    none manual, no fixed row, and stakes that are the bankroll solver's
    for the number in the bank field wherever that is a number (no stake
    field has the focus); the ROI row is row 0. *)
Theorem init_starts_with_two_even_rows (b : N) (v : View N) :
  exists st1 v1 out,
    init (declaredState b) v = Some (st1, v1, out) /\
    n st1 = 2%nat /\ fixedIndex st1 = None /\
    odds <$> rows st1 = [n_two; n_two] /\
    R <$> rows st1 = [true; true] /\
    manual <$> rows st1 = [false; false] /\
    (forall i s, suggestFromBank (bankInp v) [defaultRow; defaultRow] !! i = Some s ->
       isNum s = true -> stake <$> rows st1 !! i = Some s) /\
    out_roiRow out = 0%nat.
Proof.
  rewrite init_eq.
  set (st2 := ensureRows _).
  assert (Hst2 : st2 = {| n := 2; fixedIndex := None; bank := b;
                          rows := [defaultRow; defaultRow] |}) by reflexivity.
  assert (Hn2 : normal st2).
  { rewrite Hst2. split; [reflexivity|discriminate]. }
  destruct (pass_exists st2 (rebuiltView v)) as (st1 & v1 & out & Hpass).
  destruct (pass_rows st2 st1 _ v1 out Hn2 Hpass) as (Hrows & Hf1 & Hn1).
  destruct (pass_fields st2 st1 _ v1 out Hn2 Hpass) as (Ho1 & HR1 & Hm1).
  exists st1, v1, out. split; [exact Hpass|].
  rewrite Hf1, Hn1, Ho1, HR1, Hm1, Hst2. cbn [n fixedIndex rows].
  repeat (split; [reflexivity|]).
  split.
  - intros i s Hs Hnum.
    assert (Hi : (i < 2)%nat).
    { apply lookup_lt_Some in Hs. rewrite suggestFromBank_length in Hs. exact Hs. }
    rewrite Hrows, mergeSuggested_lookup, Hst2. cbn [rows fixedIndex readBank].
    destruct (lookup_lt_is_Some_2 [defaultRow; defaultRow] i Hi) as [r Hr].
    rewrite Hr. cbn [fmap option_fmap option_map]. f_equal.
    assert (Hman : manual r = false).
    { destruct i as [|[|i]]; simpl in Hr; try injection Hr as <-; try reflexivity. lia. }
    rewrite (mergeRow_takes None (focus (rebuiltView v)) _ i r s); try assumption.
    + reflexivity.
    + discriminate.
    + apply rebuiltView_no_stake.
  - rewrite (pass_normal st2 _ Hn2) in Hpass. unfold metrics in Hpass.
    injection Hpass as _ _ <-. cbn [out_roiRow].
    rewrite (proj1 (proj2 (mergeRow_fields None _ _ 0 defaultRow))). reflexivity.
Qed.
End RawStates.

Section InverseOdds.
Context {N : Type} `{JsNumberLaws N}.
Local Open Scope js_scope.

(** X24: the inverse-odds sum is never NaN and never negative, whatever
    the odds; it is Infinity as soon as one of the odds is not above 0 (at
    most 0, or NaN). *)
Theorem inverse_odds_sum_is_never_nan (os : list N) :
  n_isNaN (invSumOdds os) = false /\
  (n_zero <=? invSumOdds os) = true /\
  forall o, o ∈ os -> (n_zero <? o) = false -> invSumOdds os = n_infinity.
Proof.
  assert (Hnn : (n_zero <=? invSumOdds os) = true)
    by (apply invSum_nonneg, law_nonneg_zero).
  split; [apply nonneg_not_nan, Hnn|]. split; [exact Hnn|].
  intros o Hin Ho. apply list_elem_of_split in Hin. destruct Hin as (l1 & l2 & ->).
  unfold invSumOdds. rewrite foldl_app. cbn [foldl].
  assert (Hterm : invTerm o = n_infinity) by (unfold invTerm; rewrite Ho; reflexivity).
  rewrite Hterm, law_add_infinity_r by (apply invSum_nonneg, law_nonneg_zero).
  apply invSum_infinity.
Qed.
End InverseOdds.

(** ** The listeners and the solvers on two boards, on binary64 *)

Section Boards.
Import F64 F64Facts.
Local Open Scope float_scope.

(** What [init] leaves when the bank field reads 1000: two rows at odds 2,
    both recipients, staked 500 each. *)
Definition evenBoard : State float :=
  mkState 2 None 1000 [mkRow 2 500 true false; mkRow 2 500 true false].

(** Odds 2 and 3, the first row a recipient fixed at 600, the second not a
    recipient. *)
Definition pinnedBoard : State float :=
  mkState 2 (Some 0%nat) 900 [mkRow 2 600 true true; mkRow 3 0 false false].

Definition atRest (b : float) : View float := mkView b FocusElsewhere.

Lemma evenBoard_normal : normal evenBoard.
Proof. split; [reflexivity|]. intros j Hj. discriminate Hj. Defined.

Lemma pinnedBoard_normal : normal pinnedBoard.
Proof. split; [reflexivity|]. intros j Hj. injection Hj as <-. simpl. lia. Defined.

Lemma stake_input_witness :
  exists st1 v1 out r e,
    onStakeInput 1 (-5) evenBoard (mkView 1000 (FocusStake 1)) = Some (st1, v1, out) /\
    rows evenBoard !! 1%nat = Some r /\
    rows st1 !! 1%nat = Some {| odds := odds r; stake := -5; R := R r; manual := true |} /\
    out_errors out !! 1%nat = Some e /\
    err_stake e = (if negb (isNum (-5)) || n_ltb (-5) n_zero then MSG_STAKE else EmptyString) /\
    (negb (isNum (-5)) || n_ltb (-5) n_zero = true -> out_ok out = false).
Proof.
  apply (stake_input_is_kept 1 (-5) evenBoard (mkView 1000 (FocusStake 1))).
  - exact evenBoard_normal.
  - simpl. lia.
Defined.

Lemma odds_input_witness :
  exists st1 v1 out e,
    onOddsInput 0 1 evenBoard (atRest 1000) = Some (st1, v1, out) /\
    odds <$> rows st1 = <[0%nat := 1]> (odds <$> rows evenBoard) /\
    R <$> rows st1 = R <$> rows evenBoard /\
    manual <$> rows st1 = manual <$> rows evenBoard /\
    out_isArb out = n_ltb (invSumOdds (<[0%nat := 1]> (odds <$> rows evenBoard))) n_one /\
    out_errors out !! 0%nat = Some e /\
    err_odds e = (if negb (isNum 1) || n_leb 1 n_one || n_leb n_max_odds 1
                  then MSG_ODDS else EmptyString) /\
    (negb (isNum 1) || n_leb 1 n_one || n_leb n_max_odds 1 = true -> out_ok out = false).
Proof.
  apply (odds_input_is_checked 0 1 evenBoard (atRest 1000)).
  - exact evenBoard_normal.
  - simpl. lia.
Defined.

Lemma bank_input_witness :
  exists st1 v1 out,
    onBankInput pinnedBoard (mkView 1200 FocusBank) = Some (st1, v1, out) /\
    (forall i r1, rows st1 !! i = Some r1 -> fixedIndex pinnedBoard <> Some i ->
       manual r1 = false) /\
    (forall j, fixedIndex pinnedBoard = Some j -> rows st1 !! j = rows pinnedBoard !! j) /\
    (forall i r1 s, rows st1 !! i = Some r1 ->
       suggest (readBank pinnedBoard (mkView 1200 FocusBank)) !! i = Some s ->
       isNum s = true ->
       fixedIndex pinnedBoard <> Some i -> focus (mkView 1200 FocusBank) <> FocusStake i ->
       stake r1 = s) /\
    (focus (mkView 1200 FocusBank) = FocusBank ->
       bankInp v1 = bankInp (mkView 1200 FocusBank) /\
       bank st1 = bankInp (mkView 1200 FocusBank)) /\
    (focus (mkView 1200 FocusBank) <> FocusBank -> bank st1 = out_total out).
Proof.
  apply (bank_input_resets_manual_stakes pinnedBoard (mkView 1200 FocusBank)).
  exact pinnedBoard_normal.
Defined.

Lemma recipient_change_witness :
  exists st1 v1 out,
    onRChange 0 false pinnedBoard (atRest 900) = Some (st1, v1, out) /\
    R <$> rows st1 = <[0%nat := false]> (R <$> rows pinnedBoard) /\
    odds <$> rows st1 = odds <$> rows pinnedBoard /\
    manual <$> rows st1 = manual <$> rows pinnedBoard /\
    fixedIndex st1 = (if negb false && bool_decide (fixedIndex pinnedBoard = Some 0%nat)
                      then None else fixedIndex pinnedBoard).
Proof.
  apply (recipient_change_releases_the_fixed_row 0 false pinnedBoard (atRest 900)).
  - exact pinnedBoard_normal.
  - simpl. lia.
Defined.

Lemma fix_box_witness :
  (exists st1 v1 out r,
     onFChange 1 true pinnedBoard (atRest 900) = Some (st1, v1, out) /\
     rows pinnedBoard !! 1%nat = Some r /\
     fixedIndex st1 = Some 1%nat /\
     rows st1 !! 1%nat = Some r /\
     (forall k r1, k <> 1%nat -> rows st1 !! k = Some r1 -> manual r1 = false) /\
     out_roiRow out = 1%nat /\
     (out_ok out = true ->
        R r = true /\ isNum (stake r) = true /\ n_leb (stake r) n_zero = false)) /\
  (exists st1 v1 out,
     onFChange 1 false pinnedBoard (atRest 900) = Some (st1, v1, out) /\
     fixedIndex st1 = (if bool_decide (fixedIndex pinnedBoard = Some 1%nat)
                       then None else fixedIndex pinnedBoard) /\
     manual <$> rows st1 = manual <$> rows pinnedBoard).
Proof.
  apply (fix_box_fixes_any_row 1 pinnedBoard (atRest 900)).
  - exact pinnedBoard_normal.
  - simpl. lia.
Defined.

Lemma reachable_witness :
  normal evenBoard /\
  forall e v, onPage e evenBoard ->
    exists st1 v1 out, handle e evenBoard v = Some (st1, v1, out).
Proof.
  apply (reachable_states_are_normal (declaredState 1000) evenBoard).
  apply (reach_init (declaredState 1000) (atRest 1000) evenBoard (atRest 1000)
           (mkOutput true [blankError; blankError] 1000 [1000; 1000] [0; 0] 1 false 0 0)).
  vm_compute. reflexivity.
Defined.

Lemma fixed_row_witness :
  exists st1 v1 out,
    handle (RChange 0 false) pinnedBoard (atRest 900) = Some (st1, v1, out) /\
    fixedOnRecipient st1.
Proof.
  eexists _, _, _. split; [vm_compute; reflexivity|].
  eapply (fixed_row_stays_a_recipient (RChange 0 false) pinnedBoard _ (atRest 900)).
  - exact pinnedBoard_normal.
  - simpl. lia.
  - intros j Hj. injection Hj as <-. reflexivity.
  - intros i Hi. discriminate Hi.
  - vm_compute. reflexivity.
Defined.

Lemma nonrecipient_stake_witness :
  suggestFromBank 900 (rows pinnedBoard) !! 1%nat
  = Some (round2 (n_max n_zero
                    (if n_leb (odds (mkRow 3 0 false false)) n_zero then n_zero
                     else n_div (n_max n_zero (orZero 900)) (odds (mkRow 3 0 false false))))).
Proof.
  apply (nonrecipient_stake_is_bankroll_over_odds 900 (rows pinnedBoard) 1
           (mkRow 3 0 false false)); reflexivity.
Defined.

Lemma other_stakes_witness :
  suggestFromBank 1000 (rows evenBoard)
  = suggestFromBank 1000 [mkRow 2 100 true true; mkRow 2 0 true false] /\
  forall j, stake <$> rows evenBoard !! j
            = stake <$> [mkRow 2 100 true true; mkRow 2 0 true false] !! j ->
            suggestFromFixedRow j (rows evenBoard)
            = suggestFromFixedRow j [mkRow 2 100 true true; mkRow 2 0 true false].
Proof.
  apply (solvers_ignore_other_stakes 1000 (rows evenBoard)
           [mkRow 2 100 true true; mkRow 2 0 true false]); reflexivity.
Defined.

Lemma bank_field_witness :
  exists st1 v1 out st1' v1' out',
    recalcAndPaint pinnedBoard (atRest 900) = Some (st1, v1, out) /\
    recalcAndPaint pinnedBoard (atRest 5) = Some (st1', v1', out') /\
    rows st1' = rows st1 /\ figures out' = figures out.
Proof.
  apply (fixed_mode_ignores_the_bank_field pinnedBoard (atRest 900) (atRest 5) 0
           (mkRow 2 600 true true)).
  - exact pinnedBoard_normal.
  - reflexivity.
  - reflexivity.
  - reflexivity.
  - reflexivity.
Defined.

Lemma valid_rows_witness :
  exists st1 v1 out,
    recalcAndPaint pinnedBoard (atRest 900) = Some (st1, v1, out) /\
    exists r1, rows st1 !! 1%nat = Some r1 /\ negb (oddsBad r1) && negb (stakeBad r1) = true.
Proof.
  eexists _, _, _. split; [vm_compute; reflexivity|].
  eapply (pass_keeps_valid_rows_valid pinnedBoard _ (atRest 900) _ _ 1 (mkRow 3 0 false false)).
  - vm_compute. reflexivity.
  - reflexivity.
  - vm_compute. reflexivity.
Defined.

Lemma no_bankroll_witness :
  suggestFromBank nan (rows pinnedBoard) !! 1%nat = Some 0.
Proof.
  apply (no_bankroll_no_stake nan (rows pinnedBoard) 1 (mkRow 3 0 false false));
    reflexivity.
Defined.

Lemma inverse_odds_witness :
  n_isNaN (invSumOdds [2; nan; 3]) = false /\
  n_leb n_zero (invSumOdds [2; nan; 3]) = true /\
  forall o, o ∈ [2; nan; 3] -> n_ltb n_zero o = false -> invSumOdds [2; nan; 3] = n_infinity.
Proof.
  apply (inverse_odds_sum_is_never_nan [2; nan; 3]).
Defined.
End Boards.

(** ** Fixed mode in exact arithmetic: equal payouts *)

Module FixedMode.
Import Exact ExactFacts Cents ExactSolver StakeBounds ExactPass BankProfits Conservation.
Local Open Scope Q_scope.


(** The fixed row staked 100 at odds 2, a second recipient at odds 4 and a
    row at odds 3 that is no recipient. *)
Definition twoRecipients : State xnum :=
  mkState 3 (Some 0%nat) (XFin 0)
    [mkRow (XFin 2) (XFin 100) true true;
     mkRow (XFin 4) (XFin 0) true false;
     mkRow (XFin 3) (XFin 0) false false].

Lemma twoRecipients_normal : normal twoRecipients.
Proof. split; [reflexivity|]. intros k Hk. injection Hk as <-. simpl. lia. Defined.

End FixedMode.
